(** * SConfig: structured configuration store and key-value storage

    A shallow embedding of the two classes of the plugin,
    [Properties] (the YAML backed configuration store) and [Storage]
    (the JSON / SQLite backed key-value store), together with the parts
    of the JavaScript runtime they rely on: object property access,
    template-literal conversion, exceptions, the file system and the
    path functions of [node:path].

    External libraries (the [yaml] parser, the RegExp engine, [JSON],
    [bun:sqlite]) are not part of the repository.  The general results
    take them as section variables; concrete readers for the
    line-oriented configuration format are defined further down and
    plugged in where a statement needs to compute. *)

From Stdlib Require Import ZArith String Ascii List Lia DecimalString DecimalZ.
From stdpp Require Import base option list strings gmap.

Local Open Scope string_scope.
Local Open Scope Z_scope.

(** ** JavaScript values *)

Module Js.

(** The values a configuration document or a storage record can hold.
    Numbers are the safe integers; sequences are not modelled.  An
    object is the list of its own enumerable properties in insertion
    order. *)
#[warnings="-register-all"]
Inductive value : Type :=
| VUndefined
| VNull
| VBool (b : bool)
| VNum (z : Z)
| VStr (s : string)
| VObj (o : list (string * value)).

Abbreviation obj := (list (string * value)).

Fixpoint obj_get (k : string) (o : obj) : option value :=
  match o with
  | [] => None
  | (k', v) :: o' => if decide (k = k') then Some v else obj_get k o'
  end.

(** [o[k] = v]: overwrite in place, or append a new property.  An
    object is the list of its properties in the order of their
    creation.  JavaScript enumerates the property names that are array
    indices before the others, in ascending order; the list does not
    tell them apart, so a statement that depends on the order of
    enumeration is about objects without such names. *)
Fixpoint obj_set (k : string) (v : value) (o : obj) : obj :=
  match o with
  | [] => [(k, v)]
  | (k', v') :: o' =>
      if decide (k = k') then (k, v) :: o' else (k', v') :: obj_set k v o'
  end.

Definition keys (o : obj) : list string := o.*1.

(** [Array.prototype.includes] on a list of keys. *)
Definition includes (k : string) (ks : list string) : bool :=
  bool_decide (k ∈ ks).

(** [{ ...a, ...b }] *)
Definition spread (a b : obj) : obj :=
  fold_left (λ acc kv, obj_set kv.1 kv.2 acc) b a.

Definition show_int (z : Z) : string := NilZero.string_of_int (Z.to_int z).

(** Conversion performed by a template literal, [`${v}`]. *)
Definition to_string (v : value) : string :=
  match v with
  | VUndefined => "undefined"
  | VNull => "null"
  | VBool true => "true"
  | VBool false => "false"
  | VNum z => show_int z
  | VStr s => s
  | VObj _ => "[object Object]"
  end.

Fixpoint index_chars (i : nat) (s : string) : obj :=
  match s with
  | EmptyString => []
  | String c s' =>
      (show_int (Z.of_nat i), VStr (String c EmptyString)) :: index_chars (S i) s'
  end.

(** Own enumerable string-keyed properties: what [for ... in],
    [Object.keys] and object spread see. *)
Definition own_props (v : value) : obj :=
  match v with
  | VObj o => o
  | VStr s => index_chars 0 s
  | _ => []
  end.

Inductive error : Type :=
| TypeError
| YAMLParseError
| SyntaxError
| ENOENT
| SQLiteError
| SystemError
| Error (msg : string).

Inductive result (A : Type) : Type :=
| Ok (a : A)
| Throw (e : error).
Arguments Ok {A} a.
Arguments Throw {A} e.

(** [Object.keys(v)] throws on [null] and [undefined]. *)
Definition object_keys (v : value) : result (list string) :=
  match v with
  | VUndefined | VNull => Throw TypeError
  | _ => Ok (keys (own_props v))
  end.

(** [v[k] = x] in strict code: only objects accept the assignment.
    The property name [__proto__], which JavaScript treats apart, is
    not modelled. *)
Definition set_prop (k : string) (x : value) (v : value) : result value :=
  match v with
  | VObj o => Ok (VObj (obj_set k x o))
  | _ => Throw TypeError
  end.

(** [v[k]] *)
Definition get_prop (k : string) (v : value) : result value :=
  match v with
  | VUndefined | VNull => Throw TypeError
  | _ => Ok (default VUndefined (obj_get k (own_props v)))
  end.

(** Truthiness of an optional string argument. *)
Definition truthy (m : option string) : bool :=
  match m with
  | Some s => negb (bool_decide (s = ""))
  | None => false
  end.

End Js.

Export Js.

(** ** Computations: state, exceptions, and a fuel bound

    A method body is a function from the state before to the state after
    together with either a returned value or a thrown error; the state
    reached when the error was thrown is kept, as the effects performed
    before a [throw] are.  [None] only means that the recursion bound of
    a recursive method was exhausted. *)

Definition M (S A : Type) : Type := S → option (S * result A).

Definition ret {S A} (a : A) : M S A := λ s, Some (s, Ok a).

Definition bind {S A B} (m : M S A) (f : A → M S B) : M S B :=
  λ s, match m s with
       | None => None
       | Some (s', Ok a) => f a s'
       | Some (s', Throw e) => Some (s', Throw e)
       end.

Definition throw {S A} (e : error) : M S A := λ s, Some (s, Throw e).

(** [try { m } catch (e) { h e }] *)
Definition try_catch {S A} (m : M S A) (h : error → M S A) : M S A :=
  λ s, match m s with
       | Some (s', Throw e) => h e s'
       | r => r
       end.

Definition gets {S A} (f : S → A) : M S A := λ s, Some (s, Ok (f s)).
Definition modify {S} (f : S → S) : M S unit := λ s, Some (f s, Ok tt).
Definition lift {S A} (r : result A) : M S A := λ s, Some (s, r).
Definition when {S} (b : bool) (m : M S unit) : M S unit :=
  if b then m else ret tt.

(** The state a run ends in ([d] when the bound was exhausted). *)
Definition run_state {S A} (r : option (S * result A)) (d : S) : S :=
  match r with
  | Some (s, _) => s
  | None => d
  end.

(** [for (const x of xs) body(x)] *)
Fixpoint for_each {S A} (xs : list A) (body : A → M S unit) : M S unit :=
  match xs with
  | [] => ret tt
  | x :: xs' => bind (body x) (λ _, for_each xs' body)
  end.

Notation "'let*' x ':=' m 'in' k" := (bind m (λ x, k))
  (at level 10, x name, m at level 100, k at level 200,
   format "'[v' 'let*'  x  ':='  m  'in' '/' k ']'").
Notation "m '>>' k" := (bind m (λ _, k))
  (at level 100, k at level 200, right associativity).

(** ** Observable effects

    Every state carries the chronological list of the effects performed
    so far: log lines, and the calls that touch the disk or a database. *)

Inductive level : Type := LSuccess | LWarn | LError.

Inductive event : Type :=
| Log (logger : string) (l : level) (message : string)
| FsWrite (path data : string)
| FsRemove (path : string)
| FsRead (path : string)
| DbRun (path key : string) (text : option string).

Definition is_log (l : level) (e : event) : bool :=
  match e with
  | Log _ l' _ =>
      match l, l' with
      | LSuccess, LSuccess | LWarn, LWarn | LError, LError => true
      | _, _ => false
      end
  | _ => false
  end.

Definition dq : string := String (ascii_of_nat 34) EmptyString.
Definition lf : string := String (ascii_of_nat 10) EmptyString.

(** ** String primitives *)

Module Str.

(** Every character of [s] passes the test [f]. *)
Fixpoint all_chars (f : ascii → bool) (s : string) : bool :=
  match s with
  | EmptyString => true
  | String c s' => f c && all_chars f s'
  end.

(** [s.startsWith(p)], returning what follows the prefix. *)
Fixpoint strip_prefix (p s : string) : option string :=
  match p, s with
  | EmptyString, _ => Some s
  | String a p', String b s' =>
      if decide (a = b) then strip_prefix p' s' else None
  | String _ _, EmptyString => None
  end.

Definition starts_with (p s : string) : bool :=
  bool_decide (is_Some (strip_prefix p s)).

(** First occurrence of a non-empty [sep] in [s]: the text before it
    and the text after it. *)
Fixpoint find_split (sep s : string) : option (string * string) :=
  match strip_prefix sep s with
  | Some rest => Some (EmptyString, rest)
  | None =>
      match s with
      | EmptyString => None
      | String c s' =>
          match find_split sep s' with
          | Some (b, a) => Some (String c b, a)
          | None => None
          end
      end
  end.

(** [s.split(sep)[1]] for a non-empty separator: [None] is
    [undefined]. *)
Definition split_snd (sep s : string) : option string :=
  match find_split sep s with
  | None => None
  | Some (_, rest) =>
      Some (match find_split sep rest with
            | None => rest
            | Some (a, _) => a
            end)
  end.

(** [s.replace(pat, by)] with a string pattern: the first occurrence
    only.  The replacement text is taken literally, which is what
    [String.prototype.replace] does when it holds no dollar sign. *)
Definition replace_first (pat by_ s : string) : string :=
  match find_split pat s with
  | None => s
  | Some (b, a) => b +:+ by_ +:+ a
  end.

End Str.

(** ** Paths: the functions of [node:path] the classes call *)

Module Path.

(** [node:path] resolves to [path.posix] or [path.win32] depending on
    the host.  Drive letters are the only Windows devices modelled. *)
Inductive platform : Type := Posix | Win32.

Definition slash : ascii := ascii_of_nat 47.
Definition backslash : ascii := ascii_of_nat 92.
Definition colon : ascii := ascii_of_nat 58.
Definition dot : ascii := ascii_of_nat 46.

Definition is_sep (pf : platform) (c : ascii) : bool :=
  match pf with
  | Posix => bool_decide (c = slash)
  | Win32 => bool_decide (c = slash) || bool_decide (c = backslash)
  end.

Definition sep (pf : platform) : string :=
  match pf with
  | Posix => String slash EmptyString
  | Win32 => String backslash EmptyString
  end.

Definition is_letter (c : ascii) : bool :=
  let n := nat_of_ascii c in
  ((65 <=? n) && (n <=? 90) || (97 <=? n) && (n <=? 122))%nat.

(** The segments between separators. *)
Fixpoint segments (pf : platform) (s : string) : list string :=
  match s with
  | EmptyString => [EmptyString]
  | String c s' =>
      if is_sep pf c then EmptyString :: segments pf s'
      else
        match segments pf s' with
        | seg :: rest => String c seg :: rest
        | [] => [String c EmptyString]
        end
  end.

(** A path split into its device, whether it is rooted, and its
    segments. *)
Definition split_path (pf : platform) (s : string) : string * bool * list string :=
  let '(device, rest) :=
    match pf, s with
    | Win32, String a (String b rest) =>
        if is_letter a && bool_decide (b = colon)
        then (String a (String b EmptyString), rest)
        else (EmptyString, s)
    | _, _ => (EmptyString, s)
    end in
  let rooted :=
    match rest with
    | String c _ => is_sep pf c
    | EmptyString => false
    end in
  (device, rooted, segments pf rest).

(** Drop empty and [.] segments, let [..] remove the segment before
    it; [acc] is the reversed result so far.  At the root [..] stays at
    the root. *)
Fixpoint normalize (acc : list string) (segs : list string) : list string :=
  match segs with
  | [] => rev acc
  | seg :: segs' =>
      if bool_decide (seg = "") || bool_decide (seg = ".") then normalize acc segs'
      else if bool_decide (seg = "..") then normalize (tail acc) segs'
      else normalize (seg :: acc) segs'
  end.

Fixpoint join (pf : platform) (segs : list string) : string :=
  match segs with
  | [] => EmptyString
  | [seg] => seg
  | seg :: segs' => seg +:+ sep pf +:+ join pf segs'
  end.

(** One step of [resolve]: an absolute argument replaces what was
    accumulated, a relative one is appended, an empty one is skipped.
    An argument naming a device switches to the root of that device. *)
Definition resolve_step (pf : platform) (acc : string * list string) (arg : string)
  : string * list string :=
  if bool_decide (arg = "") then acc
  else
    let '(device, rooted, segs) := split_path pf arg in
    if bool_decide (device = "") || bool_decide (device = acc.1) then
      if rooted then (acc.1, segs) else (acc.1, (acc.2 ++ segs)%list)
    else (device, segs).

(** [resolve(...args)] against the absolute working directory
    [cwd]. *)
Definition resolve (pf : platform) (cwd : string) (args : list string) : string :=
  let '(device0, _, segs0) := split_path pf cwd in
  let '(device, segs) := fold_left (resolve_step pf) args (device0, segs0) in
  device +:+ sep pf +:+ join pf (normalize [] segs).

(** The last dot of a name: the text before it, and the text from the
    dot on. *)
Fixpoint split_last_dot (s : string) : option (string * string) :=
  match s with
  | EmptyString => None
  | String c s' =>
      match split_last_dot s' with
      | Some (b, e) => Some (String c b, e)
      | None => if bool_decide (c = dot) then Some (EmptyString, s) else None
      end
  end.

(** [extname(p)] for a resolved path [p]: the extension of the last
    segment; a name that only starts with a dot has none. *)
Definition extname (pf : platform) (p : string) : string :=
  match split_last_dot (List.last (segments pf p) EmptyString) with
  | Some (b, e) => if bool_decide (b = "") then "" else e
  | None => ""
  end.

(** [dirname(p)] for a resolved path [p]: the path without its last
    segment; the root stays the root. *)
Definition dirname (pf : platform) (p : string) : string :=
  let '(device, _, segs) := split_path pf p in
  device +:+ sep pf +:+ join pf (removelast (normalize [] segs)).

End Path.

(** ** The configuration store: class [Properties] *)

Module Properties.

(** What a [Properties] instance can observe and change: the files on
    disk (by absolute path), the log, and its own mutable fields.
    Directories are not part of the state: every write of the class is
    preceded by a recursive [mkdirSync] of the parent folder. *)
Record state : Type := {
  files : gmap string string;
  trace : list event;
  raw : string;
  values : value
}.

Definition set_files (f : gmap string string → gmap string string) (s : state) : state :=
  {| files := f (files s); trace := trace s; raw := raw s; values := values s |}.
Definition emit (e : event) (s : state) : state :=
  {| files := files s; trace := trace s ++ [e]; raw := raw s; values := values s |}.
Definition set_raw (r : string) (s : state) : state :=
  {| files := files s; trace := trace s; raw := r; values := values s |}.
Definition set_values (v : value) (s : state) : state :=
  {| files := files s; trace := trace s; raw := raw s; values := v |}.

(** A new instance in front of a given disk, before the constructor
    body runs: [raw = ""], [values] not yet assigned. *)
Definition fresh (fs : gmap string string) : state :=
  {| files := fs; trace := []; raw := ""; values := VUndefined |}.

(** The field [path] the constructor computes from the plugin's own
    path, the plugin's identifier and the file name it is given:
    [resolve(plugin.path.replace("\\plugins\\", "\\config\\"), "..",
    plugin.identifier, path)].  The pattern and its replacement are the
    nine and eight character strings written with single backslashes
    below. *)
Definition this_path (pf : Path.platform) (cwd : string)
    (plugin_path identifier p : string) : string :=
  Path.resolve pf cwd
    [Str.replace_first "\plugins\" "\config\" plugin_path; ".."; identifier; p].

Section Methods.

(** [parse] of package [yaml]: [None] when it throws. *)
Variable parse : string → option value.

(** [raw.replaceAll(new RegExp(`^${key}:.*$`, "gm"), by)], as a
    function of [key], [raw] and [by]: [None] when building the RegExp
    throws. *)
Variable replace_key_lines : string → string → string → option string.

(** The module-level flag [debugEnabled]. *)
Variable debugEnabled : bool.

(** The read-only fields of the instance. *)
Variable path : string.
Variable template : string.
Variable relative : string.

Definition existsSync (p : string) : M state bool :=
  gets (λ s, bool_decide (is_Some (files s !! p))).

Definition writeFileSync (p data : string) : M state unit :=
  modify (λ s, emit (FsWrite p data) (set_files (insert p data) s)).

Definition readFileSync (p : string) : M state string :=
  λ s, match files s !! p with
       | Some data => Some (emit (FsRead p) s, Ok data)
       | None => Some (s, Throw ENOENT)
       end.

Definition rmSync (p : string) : M state unit :=
  λ s, match files s !! p with
       | Some _ => Some (emit (FsRemove p) (set_files (delete p) s), Ok tt)
       | None => Some (s, Throw ENOENT)
       end.

Definition logger_emit (l : level) (msg : string) : M state unit :=
  modify (emit (Log "Properties" l msg)).

Definition read : M state value :=
  let* ex := existsSync path in
  (if ex then ret tt
   else
     writeFileSync path template>>
     when debugEnabled
       (logger_emit LSuccess
          ("Created properties file at " +:+ dq +:+ relative +:+ dq))) >>
  let* properties := readFileSync path in
  modify (set_raw properties) >>
  match parse properties with
  | Some v => ret v
  | None => throw YAMLParseError
  end.

Definition write : M state unit :=
  let* r := gets raw in
  writeFileSync path r >>
  let* v := read in
  modify (set_values v).

Definition getValue (key : string) : M state value :=
  let* vs := gets values in
  lift (get_prop key vs).

(** [setValue] and [addValue] call each other; [fuel] bounds the depth
    of that mutual recursion. *)
Fixpoint setValue_f (fuel : nat) (key : string) (v : value) : M state unit :=
  match fuel with
  | O => λ _, None
  | S n =>
      let* vs := gets values in
      let* ks := lift (object_keys vs) in
      if negb (includes key ks) then addValue_f n key v None
      else
        let* vs' := lift (set_prop key v vs) in
        modify (set_values vs') >>
        let* r := gets raw in
        match replace_key_lines key r (key +:+ ": " +:+ to_string v) with
        | None => throw SyntaxError
        | Some r' =>
            modify (set_raw r') >>
            write
        end
  end
with addValue_f (fuel : nat) (key : string) (v : value)
       (message : option string) : M state unit :=
  match fuel with
  | O => λ _, None
  | S n =>
      let* vs := gets values in
      let* ks := lift (object_keys vs) in
      if includes key ks then setValue_f n key v
      else
        let* vs' := lift (set_prop key v vs) in
        modify (set_values vs') >>
        modify (λ s, set_raw (raw s +:+ lf +:+ key +:+ ": " +:+ to_string v +:+ lf) s) >>
        when (truthy message)
          (modify (λ s, set_raw (raw s +:+ "# " +:+ default "" message +:+ lf) s)) >>
        write
  end.

(** The text one call of [addValue] appends to [raw]. *)
Definition entry_text (key : string) (v : value) (message : option string) : string :=
  lf +:+ key +:+ ": " +:+ to_string v +:+ lf
  +:+ (if truthy message then "# " +:+ default "" message +:+ lf else "").

(** The comment the constructor copies from the template for [key]. *)
Definition template_comment (key : string) : string :=
  match Str.split_snd (lf +:+ key +:+ ":") template with
  | None => ""
  | Some fetch =>
      if bool_decide (fetch = "") then ""
      else
        match Str.split_snd lf fetch with
        | None => ""
        | Some line => if Str.starts_with "#" line then line else ""
        end
  end.

Definition constructor (fuel : nat) : M state unit :=
  try_catch (let* v := read in modify (set_values v))
            (λ _, modify (set_values VNull)) >>
  let* vs := gets values in
  (match vs with
   | VNull =>
       rmSync path >>
       let* v := read in
       modify (set_values v) >>
       when debugEnabled
         (logger_emit LWarn
            ("Invalid properties file at " +:+ dq +:+ relative +:+ dq
             +:+ ", regenerating..."))
   | _ => ret tt
   end) >>
  match parse template with
  | None => throw YAMLParseError
  | Some defaultProperties =>
      for_each (own_props defaultProperties)
        (λ kv,
           let* vs := gets values in
           let* ks := lift (object_keys vs) in
           if negb (includes kv.1 ks)
           then addValue_f fuel kv.1 kv.2 (Some (template_comment kv.1))
           else ret tt) >>
      when debugEnabled
        (logger_emit LSuccess
           ("Parsed properties file at " +:+ dq +:+ relative +:+ dq +:+ "."))
  end.

End Methods.

End Properties.

(** ** The key-value store: class [Storage] *)

Module Storage.

(** Modelled from the spec: the enum [StorageType] (its module,
    [Enums/storageType], is not among the sources).  The spec names the
    three domains Player, World and Server; [Unknown] stands for any
    other value passed at run time, the one the [default] branch of
    [resolvePath] is written for. *)
Inductive StorageType : Type :=
| Player
| World
| Server
| Unknown (tag : string).

Inductive backend : Type := json | sqlite.

(** The table [key_value(key TEXT PRIMARY KEY, value TEXT NOT NULL)] of
    one database file.  [writable] is false for a database whose file
    rejects writes (read-only, locked, no space left). *)
Record database : Type := {
  rows : list (string * string);
  writable : bool
}.

(** [INSERT ... ON CONFLICT(key) DO UPDATE SET value = @value] *)
Fixpoint upsert (k t : string) (rs : list (string * string)) : list (string * string) :=
  match rs with
  | [] => [(k, t)]
  | (k', t') :: rs' =>
      if decide (k = k') then (k, t) :: rs' else (k', t') :: upsert k t rs'
  end.

(** [statements.setValue.run({ key, value })]: a bound [undefined]
    violates NOT NULL. *)
Definition run_setValue (k : string) (t : option string) (d : database) : option database :=
  match t with
  | Some text =>
      if writable d then Some {| rows := upsert k text (rows d); writable := true |}
      else None
  | None => None
  end.

Record state : Type := {
  files : gmap string string;
  dbs : gmap string database;
  trace : list event;
  values : obj
}.

Definition set_files (f : gmap string string → gmap string string) (s : state) : state :=
  {| files := f (files s); dbs := dbs s; trace := trace s; values := values s |}.
Definition set_dbs (f : gmap string database → gmap string database) (s : state) : state :=
  {| files := files s; dbs := f (dbs s); trace := trace s; values := values s |}.
Definition emit (e : event) (s : state) : state :=
  {| files := files s; dbs := dbs s; trace := trace s ++ [e]; values := values s |}.
Definition set_values (v : obj) (s : state) : state :=
  {| files := files s; dbs := dbs s; trace := trace s; values := v |}.

(** The disk in front of which an instance is created. *)
Definition fresh (fs : gmap string string) (ds : gmap string database) : state :=
  {| files := fs; dbs := ds; trace := []; values := [] |}.

(** The read-only fields of an instance. *)
Record instance : Type := {
  path : string;
  relative : string;
  type : backend
}.

(** A host that refuses nothing. *)
Definition cooperative : string → bool := λ _, false.


Section Methods.

(** [JSON.parse]: [None] when it throws. *)
Variable JSON_parse : string → option value.
(** [JSON.stringify(v)]: [None] is [undefined]. *)
Variable JSON_stringify : value → option string.
(** [JSON.stringify(o, null, 2)] on an object. *)
Variable JSON_stringify_pretty : obj → string.

(** The module-level flag [debugEnabled]. *)
Variable debugEnabled : bool.

(** [process.cwd()], the host platform, and [relative] of
    [node:path], used for log lines only. *)
Variable cwd : string.
Variable pf : Path.platform.
Variable path_relative : string → string → string.

(** What the host refuses: [refuses p] holds when creating the
    directory [p], writing the file [p] or opening the database [p]
    fails (the parent is a regular file, access is denied, the disk is
    full, the file is not a database).  The three calls that are not
    inside a [try] of the class, [mkdirSync], [writeFileSync] and
    [new Database] with the statements run when opening, throw on such a
    path. *)
Variable refuses : string → bool.

Definition logger_emit (l : level) (msg : string) : M state unit :=
  modify (emit (Log "Storage" l msg)).

Definition existsSync (p : string) : M state bool :=
  gets (λ s, bool_decide (is_Some (files s !! p))).

(** [mkdirSync(p, { recursive: true })].  Directories are not part of
    the state: the call does nothing on a directory that exists, so
    whether it is skipped there cannot be observed. *)
Definition mkdirSync (p : string) : M state unit :=
  if refuses p then throw SystemError else ret tt.

(** A refused write leaves the file as it was. *)
Definition writeFileSync (p data : string) : M state unit :=
  if refuses p then throw SystemError
  else modify (λ s, emit (FsWrite p data) (set_files (insert p data) s)).

Definition readFileSync (p : string) : M state string :=
  λ s, match files s !! p with
       | Some data => Some (emit (FsRead p) s, Ok data)
       | None => Some (s, Throw ENOENT)
       end.

Definition resolvePath (ty : StorageType) (p : string) (world : option string)
  : result string :=
  let dir := cwd in
  match ty with
  | World =>
      if negb (truthy world)
      then Throw (Error ("Invalid world name: "
                         +:+ default "undefined" world +:+ "."))
      else
        let dir := Path.resolve pf cwd [dir; "worlds"; default "" world; "plugindata"] in
        Ok (Path.resolve pf cwd [dir; p])
  | Player =>
      let dir := Path.resolve pf cwd [dir; "playerdata"] in
      Ok (Path.resolve pf cwd [dir; p])
  | Server =>
      let dir := Path.resolve pf cwd [dir; "plugindata"] in
      Ok (Path.resolve pf cwd [dir; p])
  | Unknown _ => Throw (Error "Invalid storage type.")
  end.

Definition writeJson (self : instance) : M state unit :=
  let* vs := gets values in
  writeFileSync (path self) (JSON_stringify_pretty vs).

Definition readJson (self : instance) : M state unit :=
  try_catch
    (let* rawData := readFileSync (path self) in
     match JSON_parse rawData with
     | None => throw SyntaxError
     | Some jsonData =>
         modify (λ s, set_values (spread (values s) (own_props jsonData)) s)
     end)
    (λ _,
       when debugEnabled
         (logger_emit LWarn
            ("§cFailed to read data at §r" +:+ dq +:+ relative self +:+ dq +:+ "§c."))).

Definition writeSqlite (self : instance) (key : string) (v : value) : M state unit :=
  try_catch
    (λ s,
       let text := JSON_stringify v in
       let s' := emit (DbRun (path self) key text) s in
       match dbs s !! path self with
       | Some d =>
           match run_setValue key text d with
           | Some d' => Some (set_dbs (insert (path self) d') s', Ok tt)
           | None => Some (s', Throw SQLiteError)
           end
       | None => Some (s', Throw SQLiteError)
       end)
    (λ _,
       logger_emit LError
         ("Error writing to SQLite database at " +:+ dq +:+ relative self +:+ dq +:+ ".")).

(** [for (const row of rows) dbValues[row.key] = JSON.parse(row.value)] *)
Fixpoint parse_rows (rs : list (string * string)) (dbValues : obj) : result obj :=
  match rs with
  | [] => Ok dbValues
  | (k, t) :: rs' =>
      match JSON_parse t with
      | Some v => parse_rows rs' (obj_set k v dbValues)
      | None => Throw SyntaxError
      end
  end.

Definition readSqlite (self : instance) : M state unit :=
  try_catch
    (let* rs := (λ s, match dbs s !! path self with
                      | Some d => Some (s, Ok (rows d))
                      | None => Some (s, Throw SQLiteError)
                      end) in
     let* dbValues := lift (parse_rows rs []) in
     modify (λ s, set_values (spread (values s) dbValues) s) >>
     if bool_decide (length rs = 0%nat)
     then
       let* vs := gets values in
       for_each vs (λ kv, writeSqlite self kv.1 kv.2)
     else ret tt)
    (λ _,
       logger_emit LWarn
         ("§cFailed to read data from SQLite database at §r"
          +:+ dq +:+ relative self +:+ dq +:+ "§c.")).

(** [new Database(path)], [CREATE TABLE IF NOT EXISTS] and the three
    [prepare] calls: a missing database file is created, empty. *)
Definition open_database (p : string) : M state unit :=
  if refuses p then throw SQLiteError
  else
    modify (λ s, match dbs s !! p with
                 | Some _ => s
                 | None => set_dbs (insert p {| rows := []; writable := true |}) s
                 end).

Definition initialize (self : instance) : M state unit :=
  (match type self with
   | json =>
       let* ex := existsSync (path self) in
       if negb ex then writeJson self else readJson self
   | sqlite =>
       open_database (path self) >>
       readSqlite self
   end) >>
  when debugEnabled
    (logger_emit LSuccess
       ("Parsed storage file at " +:+ dq +:+ relative self +:+ dq +:+ ".")).

(** The constructor.  Its two overloads pass the world name only for
    [World]; for the other domains no world name reaches
    [resolvePath]. *)
Definition constructor (ty : StorageType) (p : string) (world : option string)
    (defaults : obj) : M state instance :=
  let world := match ty with World => world | _ => None end in
  let* this_path := lift (resolvePath ty p world) in
  let this_relative := path_relative cwd this_path in
  let extension := Path.extname pf this_path in
  let* this_type :=
    (if bool_decide (extension = ".json") then ret json
     else if bool_decide (extension = ".sqlite") then ret sqlite
     else throw (Error ("Storage accepts " +:+ dq +:+ ".json" +:+ dq
                        +:+ " or " +:+ dq +:+ ".sqlite" +:+ dq +:+ "."))) in
  let self := {| path := this_path; relative := this_relative; type := this_type |} in
  let dir := Path.dirname pf this_path in
  (let* ex := existsSync dir in
   if negb ex then mkdirSync dir else ret tt) >>
  modify (set_values defaults) >>
  initialize self >>
  ret self.

Definition getValue (key : string) : M state value :=
  gets (λ s, default VUndefined (obj_get key (values s))).

Definition setValue (self : instance) (key : string) (v : value) : M state unit :=
  modify (λ s, set_values (obj_set key v (values s)) s) >>
  match type self with
  | json => writeJson self
  | sqlite => writeSqlite self key v
  end.

(** The calls a consumer can make on an instance. *)
Inductive call : Type :=
| CallGet (key : string)
| CallSet (key : string) (v : value).

Definition perform (self : instance) (c : call) : M state unit :=
  match c with
  | CallGet key => getValue key >> ret tt
  | CallSet key v => setValue self key v
  end.

Definition perform_all (self : instance) (cs : list call) : M state unit :=
  for_each cs (perform self).

End Methods.

End Storage.

(** ** Lines of a text *)

Module Lines.

Definition LF : ascii := ascii_of_nat 10.
Definition CR : ascii := ascii_of_nat 13.

(** The line terminators of the ASCII range. *)
Definition is_terminator (c : ascii) : bool :=
  bool_decide (c = LF) || bool_decide (c = CR).

(** The lines of a text, each with the terminator that ends it; the
    last line has none. *)
Fixpoint split (s : string) : list (string * option ascii) :=
  match s with
  | EmptyString => [(EmptyString, None)]
  | String c s' =>
      if is_terminator c then (EmptyString, Some c) :: split s'
      else
        match split s' with
        | (l, t) :: rest => (String c l, t) :: rest
        | [] => [(String c EmptyString, None)]
        end
  end.

Definition terminator (t : option ascii) : string :=
  match t with
  | Some c => String c EmptyString
  | None => EmptyString
  end.

Fixpoint unsplit (segs : list (string * option ascii)) : string :=
  match segs with
  | [] => EmptyString
  | (l, t) :: rest => l +:+ terminator t +:+ unsplit rest
  end.

End Lines.

(** ** The RegExp replacement of [setValue] *)

Module RegExp.

Definition dollar : ascii := ascii_of_nat 36.
Definition ampersand : ascii := ascii_of_nat 38.
Definition backtick : ascii := ascii_of_nat 96.
Definition quote : ascii := ascii_of_nat 39.

(** The replacement text of one match, for a pattern without capture
    groups: [$$], [$&], [$`] and [$'] are expanded, every other
    character stands for itself. *)
Fixpoint substitution (by_ matched before after : string) : string :=
  match by_ with
  | EmptyString => EmptyString
  | String c rest =>
      if bool_decide (c = dollar) then
        match rest with
        | String d rest' =>
            if bool_decide (d = dollar)
            then String dollar (substitution rest' matched before after)
            else if bool_decide (d = ampersand)
            then matched +:+ substitution rest' matched before after
            else if bool_decide (d = backtick)
            then before +:+ substitution rest' matched before after
            else if bool_decide (d = quote)
            then after +:+ substitution rest' matched before after
            else String c (substitution rest matched before after)
        | EmptyString => String c EmptyString
        end
      else String c (substitution rest matched before after)
  end.

(** With the flags [g] and [m], [^key:.*$] matches every whole line
    that starts with [key:].  [before] is the text in front of the
    line. *)
Fixpoint replace_segments (key by_ before : string)
    (segs : list (string * option ascii)) : string :=
  match segs with
  | [] => EmptyString
  | (l, t) :: rest =>
      (if Str.starts_with (key +:+ ":") l
       then substitution by_ l before (Lines.terminator t +:+ Lines.unsplit rest)
       else l)
      +:+ Lines.terminator t
      +:+ replace_segments key by_ (before +:+ l +:+ Lines.terminator t) rest
  end.

(** [raw.replaceAll(new RegExp(`^${key}:.*$`, "gm"), by)] for a [key]
    made of characters that stand for themselves in a RegExp. *)
Definition replace_key_lines (key raw by_ : string) : string :=
  replace_segments key by_ EmptyString (Lines.split raw).

(** The same as a function that can fail, the shape the methods of
    [Properties] take the RegExp engine in. *)
Definition replaceAll (key raw by_ : string) : option string :=
  Some (replace_key_lines key raw by_).

End RegExp.

(** ** The line-oriented configuration format

    The configuration files the store writes have one [key: value]
    entry per line, with comment lines starting with [#].  [read_doc]
    reads such a text the way a YAML 1.2 parser with the core schema
    does; a text outside this format is not read ([None]). *)

Module Yaml.

Definition is_alpha (c : ascii) : bool := Path.is_letter c.

Definition is_digit (c : ascii) : bool :=
  let n := nat_of_ascii c in ((48 <=? n) && (n <=? 57))%nat.

Definition is_printable (c : ascii) : bool :=
  let n := nat_of_ascii c in ((32 <=? n) && (n <=? 126))%nat.

Definition underscore : ascii := ascii_of_nat 95.
Definition hyphen : ascii := ascii_of_nat 45.
Definition space : ascii := ascii_of_nat 32.
Definition hash : ascii := ascii_of_nat 35.

Definition key_char (c : ascii) : bool :=
  is_alpha c || is_digit c || bool_decide (c = underscore) || bool_decide (c = hyphen).

Definition plain_char (c : ascii) : bool :=
  key_char c || bool_decide (c = Path.dot) || bool_decide (c = Path.slash)
  || bool_decide (c = space).

Fixpoint last_char (s : string) : option ascii :=
  match s with
  | EmptyString => None
  | String c EmptyString => Some c
  | String _ s' => last_char s'
  end.

Definition true_words : list string := ["true"; "True"; "TRUE"].
Definition false_words : list string := ["false"; "False"; "FALSE"].
Definition null_words : list string := ["null"; "Null"; "NULL"; "~"].

(** Keys that a parser does not keep as written (the words of the core
    schema are resolved before they become property names), or that
    JavaScript does not treat as an ordinary property name. *)
Definition reserved_keys : list string :=
  (true_words ++ false_words ++ null_words ++ ["__proto__"])%list.

(** Keys: an identifier, hyphens allowed, not reserved. *)
Definition is_key (k : string) : bool :=
  match k with
  | EmptyString => false
  | String c k' =>
      (is_alpha c || bool_decide (c = underscore)) && Str.all_chars key_char k'
      && negb (bool_decide (k ∈ reserved_keys))
  end.

(** Plain strings: they start like an identifier, do not end in a
    space, and are none of the words of the core schema. *)
Definition is_plain (tok : string) : bool :=
  match tok with
  | EmptyString => false
  | String c _ =>
      (is_alpha c || bool_decide (c = underscore))
      && Str.all_chars plain_char tok
      && negb (bool_decide (last_char tok = Some space))
      && negb (bool_decide (tok ∈ (true_words ++ false_words ++ null_words)%list))
  end.

Definition max_safe_integer : Z := 9007199254740991.

(** Tag resolution of a plain scalar: a decimal integer (within the
    safe range), one of the words, or a plain string. *)
Definition scalar (tok : string) : option value :=
  match NilZero.int_of_string tok with
  | Some d =>
      let z := Z.of_int d in
      if bool_decide (Z.abs z ≤ max_safe_integer) then Some (VNum z) else None
  | None =>
      if bool_decide (tok ∈ true_words) then Some (VBool true)
      else if bool_decide (tok ∈ false_words) then Some (VBool false)
      else if bool_decide (tok ∈ null_words) then Some VNull
      else if is_plain tok then Some (VStr tok)
      else None
  end.

(** One line: outside the format ([None]), blank or comment
    ([Some None]), or an entry.  A line holds printable characters
    only. *)
Definition read_line (l : string) : option (option (string * value)) :=
  match l with
  | EmptyString => Some None
  | String c _ =>
      if negb (Str.all_chars is_printable l) then None
      else if bool_decide (c = hash) then Some None
      else
        match Str.find_split ":" l with
        | None => None
        | Some (k, rest) =>
            if is_key k then
              match rest with
              | EmptyString => Some (Some (k, VNull))
              | String c' tok =>
                  if bool_decide (c' = space)
                  then option_map (λ v, Some (k, v)) (scalar tok)
                  else None
              end
            else None
        end
  end.

(** The entries of the lines, in order; a repeated key is an error. *)
Fixpoint read_lines (ls : list string) (acc : obj) : option obj :=
  match ls with
  | [] => Some acc
  | l :: ls' =>
      match read_line l with
      | None => None
      | Some None => read_lines ls' acc
      | Some (Some (k, v)) =>
          if includes k (keys acc) then None
          else read_lines ls' (acc ++ [(k, v)])%list
      end
  end.

(** A document without entries is [null]. *)
Definition read_doc (text : string) : option value :=
  let segs := Lines.split text in
  if forallb (λ seg, negb (bool_decide (seg.2 = Some Lines.CR))) segs then
    match read_lines (map fst segs) [] with
    | Some [] => Some VNull
    | Some o => Some (VObj o)
    | None => None
    end
  else None.

End Yaml.

(** ** JSON literals

    [JSON.parse] and [JSON.stringify] on the documents that are a
    single literal: [null], a boolean or an integer.  Texts and values
    beyond these (and integers not written the way [show_int] prints
    them) are outside the domain of the two functions below, which
    answer [None] for them; they are used where a statement has to
    compute with a concrete [JSON]. *)

Module Json.

Definition parse_literal (text : string) : option value :=
  if bool_decide (text = "true") then Some (VBool true)
  else if bool_decide (text = "false") then Some (VBool false)
  else if bool_decide (text = "null") then Some VNull
  else
    match NilZero.int_of_string text with
    | Some d =>
        let z := Z.of_int d in
        if bool_decide (show_int z = text)
           && bool_decide (Z.abs z ≤ Yaml.max_safe_integer)
        then Some (VNum z) else None
    | None => None
    end.

Definition stringify_literal (v : value) : option string :=
  match v with
  | VNull | VBool _ | VNum _ => Some (to_string v)
  | _ => None
  end.

(** [JSON.stringify(o, null, 2)] for an object whose properties hold
    literals under keys that need no escaping. *)
Fixpoint pretty_members (o : obj) : string :=
  match o with
  | [] => EmptyString
  | (k, v) :: o' =>
      "  " +:+ dq +:+ k +:+ dq +:+ ": " +:+ default "null" (stringify_literal v)
      +:+ match o' with
          | [] => lf
          | _ :: _ => "," +:+ lf +:+ pretty_members o'
          end
  end.

Definition stringify_pretty (o : obj) : string :=
  match o with
  | [] => "{}"
  | _ :: _ => "{" +:+ lf +:+ pretty_members o +:+ "}"
  end.

End Json.

(** ** Example data: the scenarios of the specification *)

Module Example.

(** The template ["debug: false\n#enable logs\nport: 8080"]. *)
Definition template : string :=
  "debug: false" +:+ lf +:+ "#enable logs" +:+ lf +:+ "port: 8080".


Definition config_path : string := "/srv/serenity/config/serenity-config/properties.yaml".
Definition config_relative : string := "config/serenity-config/properties.yaml".

(** A storage file of the Player domain, and the defaults
    [{ example: false }]. *)
Definition cwd : string := "/srv/serenity".
Definition players_json : string := "/srv/serenity/playerdata/players.json".
Definition players_sqlite : string := "/srv/serenity/playerdata/players.sqlite".
Definition defaults : obj := [("example", VBool false)].

(** [relative(from, to)] when [to] lies under [from]: [to] without the
    prefix [from] and the separator; otherwise [to] is returned
    unchanged, which is enough for the log lines of the examples. *)
Definition relative (from to : string) : string :=
  match Str.strip_prefix (from +:+ "/") to with
  | Some rest => rest
  | None => to
  end.

End Example.

(** ** Auxiliary notions used in the statements below *)

Module Aux.

(** A line without line terminators. *)
Definition clean (l : string) : bool :=
  Str.all_chars (λ c, negb (Lines.is_terminator c)) l.

(** [segs] with its last line terminated by [t] and followed by
    [rest]. *)
Fixpoint attach (t : ascii) (segs rest : list (string * option ascii))
  : list (string * option ascii) :=
  match segs with
  | [] => rest
  | [(l, _)] => (l, Some t) :: rest
  | seg :: segs' => seg :: attach t segs' rest
  end.

(** Every binding of [k] replaced, in place, by [v]. *)
Definition obj_update (k : string) (v : value) (o : obj) : obj :=
  map (λ kv, if decide (kv.1 = k) then (k, v) else kv) o.

(** The template entries whose key the live mapping lacks. *)
Definition missing (live defs : obj) : obj :=
  filter (λ kv, kv.1 ∉ keys live) defs.

(** Reading a text in the line format on top of the entries [acc]. *)
Definition read_from (acc : obj) (text : string) : option obj :=
  let segs := Lines.split text in
  if forallb (λ seg, negb (bool_decide (seg.2 = Some Lines.CR))) segs
  then Yaml.read_lines (map fst segs) acc
  else None.

(** An entry of the format: an identifier key, and a value that
    prints to a token read back as the same value. *)
Definition entry_ok (kv : string * value) : Prop :=
  Yaml.is_key kv.1 = true ∧ Yaml.scalar (to_string kv.2) = Some kv.2.

(** The shape of the result of [Lines.split]: clean lines, all
    terminated but the last. *)
Fixpoint well_split (segs : list (string * option ascii)) : bool :=
  match segs with
  | [] => false
  | [(l, t)] => clean l && bool_decide (t = None)
  | (l, t) :: rest =>
      clean l
      && match t with Some c => Lines.is_terminator c | None => false end
      && well_split rest
  end.

(** The text the constructor appends for the entries [es], in
    order. *)
Definition entries_text (template : string) (es : obj) : string :=
  fold_right
    (λ kv acc,
       Properties.entry_text kv.1 kv.2 (Some (Properties.template_comment template kv.1))
       +:+ acc)
    "" es.

(** A text of printable ASCII characters and line feeds. *)
Definition ascii_text (s : string) : bool :=
  Str.all_chars (λ c, Yaml.is_printable c || bool_decide (c = Lines.LF)) s.

(** A text free of dollar signs. *)
Definition no_dollar (s : string) : bool :=
  Str.all_chars (λ c, negb (bool_decide (c = RegExp.dollar))) s.

End Aux.

(** ** Notions used in the statements on the rest of the code *)

Module Inv.

Definition is_any_log (e : event) : bool :=
  match e with
  | Log _ _ _ => true
  | _ => false
  end.

(** A trace without a log line. *)
Definition quiet (t : list event) : bool :=
  forallb (λ e, negb (is_any_log e)) t.

(** A computation that keeps a property of the state, however it
    ends. *)
Definition keeps {S A} (P : S → Prop) (m : M S A) : Prop :=
  ∀ s s' r, P s → m s = Some (s', r) → P s'.

(** A [Properties] instance in step with its file: the file holds
    [raw], and [values] is what the parser makes of [raw]. *)
Definition in_sync (parse : string → option value) (path : string)
    (s : Properties.state) : Prop :=
  parse (Properties.raw s) = Some (Properties.values s)
  ∧ Properties.files s !! path = Some (Properties.raw s).

End Inv.

(** ** The table, read by key *)

Module Table.

(** [statements.getValue]: [SELECT value FROM key_value WHERE key = ?]. *)
Fixpoint select_value (k : string) (rs : list (string * string)) : option string :=
  match rs with
  | [] => None
  | (k', t) :: rs' => if decide (k = k') then Some t else select_value k rs'
  end.

End Table.

(** ** JSON documents, one member per line

    [JSON.parse] on the texts [Json.stringify_pretty] prints: an object
    whose members hold literals under identifier keys, one member per
    line.  Texts beyond these are outside the domain of [parse], which
    answers [None] for them; it is used where a statement has to compute
    with a concrete [JSON]. *)

Module JsonDoc.

Definition comma : ascii := ascii_of_nat 44.

(** The line without its last character, when that is a comma. *)
Fixpoint drop_comma (l : string) : option string :=
  match l with
  | EmptyString => None
  | String c l' =>
      match l' with
      | EmptyString => if bool_decide (c = comma) then Some EmptyString else None
      | String _ _ => option_map (String c) (drop_comma l')
      end
  end.

(** One member: two spaces, the key in quotes, a colon, a space, a
    literal. *)
Definition parse_member (l : string) : option (string * value) :=
  match Str.strip_prefix ("  " +:+ dq) l with
  | None => None
  | Some rest =>
      match Str.find_split (dq +:+ ": ") rest with
      | None => None
      | Some (k, t) =>
          if Yaml.is_key k then option_map (pair k) (Json.parse_literal t) else None
      end
  end.

(** The member lines and the closing brace; every member but the last
    ends with a comma.  A repeated key keeps its place and takes the
    later value. *)
Fixpoint parse_members (ls : list string) (acc : obj) : option obj :=
  match ls with
  | [] => None
  | l :: ls' =>
      match ls' with
      | [] => None
      | [close] =>
          if bool_decide (close = "}")
          then option_map (λ kv, obj_set kv.1 kv.2 acc) (parse_member l)
          else None
      | _ :: _ :: _ =>
          match drop_comma l with
          | None => None
          | Some l0 =>
              match parse_member l0 with
              | None => None
              | Some kv => parse_members ls' (obj_set kv.1 kv.2 acc)
              end
          end
      end
  end.

Definition parse (text : string) : option value :=
  if bool_decide (text = "{}") then Some (VObj [])
  else
    let segs := Lines.split text in
    if forallb (λ seg, negb (bool_decide (seg.2 = Some Lines.CR))) segs then
      match map fst segs with
      | first :: ls =>
          if bool_decide (first = "{") then option_map VObj (parse_members ls []) else None
      | [] => None
      end
    else None.

End JsonDoc.

(** ** The line format with quoted values

    [YamlQ.read_doc] reads what [Yaml.read_doc] reads, and besides the
    entries whose value is a double-quoted string without escapes,
    [key: "text"], which a YAML parser reads as the string between the
    quotes. *)

Module YamlQ.

Definition backslash : ascii := ascii_of_nat 92.

(** The text between the quotes of a double-quoted scalar that ends
    the line and holds no escape. *)
Definition unquote (tok : string) : option string :=
  match Str.strip_prefix dq tok with
  | None => None
  | Some rest =>
      match Str.find_split dq rest with
      | Some (body, EmptyString) =>
          if Str.all_chars (λ c, negb (bool_decide (c = backslash))) body
          then Some body else None
      | _ => None
      end
  end.

Definition read_line (l : string) : option (option (string * value)) :=
  match Yaml.read_line l with
  | Some r => Some r
  | None =>
      if Str.all_chars Yaml.is_printable l then
        match Str.find_split ": " l with
        | Some (k, tok) =>
            if Yaml.is_key k then option_map (λ s, Some (k, VStr s)) (unquote tok)
            else None
        | None => None
        end
      else None
  end.

Fixpoint read_lines (ls : list string) (acc : obj) : option obj :=
  match ls with
  | [] => Some acc
  | l :: ls' =>
      match read_line l with
      | None => None
      | Some None => read_lines ls' acc
      | Some (Some (k, v)) =>
          if includes k (keys acc) then None
          else read_lines ls' (acc ++ [(k, v)])%list
      end
  end.

Definition read_doc (text : string) : option value :=
  let segs := Lines.split text in
  if forallb (λ seg, negb (bool_decide (seg.2 = Some Lines.CR))) segs then
    match read_lines (map fst segs) [] with
    | Some [] => Some VNull
    | Some o => Some (VObj o)
    | None => None
    end
  else None.

End YamlQ.

(** * Appending texts *)

Lemma app_cons_s (x : ascii) (a b : string) : String x a +:+ b = String x (a +:+ b).
Proof. reflexivity. Qed.

Lemma app_nil_l_s (a : string) : "" +:+ a = a.
Proof. reflexivity. Qed.

Lemma app_assoc_s (a b c : string) : (a +:+ b) +:+ c = a +:+ (b +:+ c).
Proof.
  induction a as [|x a IH]; [reflexivity|].
  rewrite !app_cons_s. f_equal. exact IH.
Qed.

Lemma app_nil_r_s (a : string) : a +:+ "" = a.
Proof.
  induction a as [|x a IH]; [reflexivity|].
  rewrite app_cons_s. f_equal. exact IH.
Qed.

(** * Properties of the configuration store *)

Section PropertiesFacts.

Variable parse : string → option value.
Variable replace_key_lines : string → string → string → option string.
Variable debugEnabled : bool.
Variable path template relative : string.

Local Abbreviation read := (Properties.read parse debugEnabled path template relative).
Local Abbreviation write := (Properties.write parse debugEnabled path template relative).
Local Abbreviation setValue_f :=
  (Properties.setValue_f parse replace_key_lines debugEnabled path template relative).
Local Abbreviation addValue_f :=
  (Properties.addValue_f parse replace_key_lines debugEnabled path template relative).
Local Abbreviation constructor :=
  (Properties.constructor parse replace_key_lines debugEnabled path template relative).

Ltac unfold_monad :=
  unfold bind, ret, gets, modify, lift, throw, when, try_catch in *.

Ltac unfold_fs :=
  unfold Properties.existsSync, Properties.writeFileSync,
    Properties.readFileSync, Properties.rmSync, Properties.logger_emit in *.

(** [read] always comes back: with a value or with an exception. *)
Lemma read_total s : is_Some (read s).
Proof.
  unfold Properties.read. unfold_fs. unfold_monad. simpl.
  destruct (bool_decide (is_Some (Properties.files s !! path))) eqn:Hex.
  - apply bool_decide_eq_true in Hex. destruct Hex as [data Hdata].
    rewrite Hdata. destruct (parse data); eauto.
  - destruct debugEnabled; simpl; rewrite lookup_insert_eq;
      destruct (parse template); eauto.
Qed.

Lemma write_total s : is_Some (write s).
Proof.
  unfold Properties.write. unfold_monad. unfold Properties.writeFileSync, modify.
  destruct (read_total
              (Properties.emit (FsWrite path (Properties.raw s))
                 (Properties.set_files (insert path (Properties.raw s)) s)))
    as [[s' [v|e]] Hr]; rewrite Hr; eauto.
Qed.

(** The body of [setValue] past the membership test needs no further
    call of [addValue]: one unit of fuel is enough. *)
Lemma setValue_direct key v s ks :
  object_keys (Properties.values s) = Ok ks →
  includes key ks = true →
  is_Some (setValue_f 1 key v s)
  ∧ ∀ n, setValue_f (S n) key v s = setValue_f 1 key v s.
Proof.
  intros Hks Hin. split.
  - simpl. unfold_monad. rewrite Hks, Hin. simpl.
    destruct (set_prop key v (Properties.values s)) as [vs'|e]; [|eauto].
    destruct (replace_key_lines key _ _) as [r'|]; [|eauto].
    apply write_total.
  - intros n. simpl. unfold_monad. rewrite Hks, Hin. reflexivity.
Qed.

Lemma addValue_direct key v msg s ks :
  object_keys (Properties.values s) = Ok ks →
  includes key ks = false →
  is_Some (addValue_f 1 key v msg s)
  ∧ ∀ n, addValue_f (S n) key v msg s = addValue_f 1 key v msg s.
Proof.
  intros Hks Hin. split.
  - simpl. unfold_monad. rewrite Hks, Hin. simpl.
    destruct (set_prop key v (Properties.values s)) as [vs'|e]; [|eauto].
    destruct (truthy msg); apply write_total.
  - intros n. simpl. unfold_monad. rewrite Hks, Hin. reflexivity.
Qed.

Lemma addValue_delegates key v msg s ks m :
  object_keys (Properties.values s) = Ok ks →
  includes key ks = true →
  addValue_f (S m) key v msg s = setValue_f m key v s.
Proof.
  intros Hks Hin.
  set (callee := setValue_f m key v).
  simpl. unfold_monad. rewrite Hks, Hin. reflexivity.
Qed.

Lemma setValue_delegates key v s ks m :
  object_keys (Properties.values s) = Ok ks →
  includes key ks = false →
  setValue_f (S m) key v s = addValue_f m key v None s.
Proof.
  intros Hks Hin.
  set (callee := addValue_f m key v None).
  simpl. unfold_monad. rewrite Hks, Hin. reflexivity.
Qed.

(** C10.  [setValue] and [addValue] terminate on every key, value and
    state.  When [Object.keys] throws, both calls end with that
    exception.  Otherwise the membership test decides: for a key that is
    present [setValue] completes without calling [addValue] (one unit of
    fuel), and [addValue] hands over to exactly that run; for a key that
    is absent [addValue] completes without calling [setValue], and
    [setValue] hands over to exactly that run.  Two nested calls are
    therefore always enough, whatever larger bound is given. *)
Theorem setValue_addValue_delegate_at_most_once
    (key : string) (v : value) (msg : option string) (s : Properties.state) (n : nat) :
  match object_keys (Properties.values s) with
  | Throw e =>
      setValue_f (S n) key v s = Some (s, Throw e)
      ∧ addValue_f (S n) key v msg s = Some (s, Throw e)
  | Ok ks =>
      if includes key ks
      then is_Some (setValue_f 1 key v s)
           ∧ setValue_f (S n) key v s = setValue_f 1 key v s
           ∧ addValue_f (S (S n)) key v msg s = setValue_f 1 key v s
      else is_Some (addValue_f 1 key v None s)
           ∧ is_Some (addValue_f 1 key v msg s)
           ∧ addValue_f (S n) key v msg s = addValue_f 1 key v msg s
           ∧ setValue_f (S (S n)) key v s = addValue_f 1 key v None s
  end.
Proof.
  destruct (object_keys (Properties.values s)) as [ks|e] eqn:Hks.
  - destruct (includes key ks) eqn:Hin.
    + destruct (setValue_direct key v s ks Hks Hin) as [Hsome Hfuel].
      split; [exact Hsome|]. split; [apply Hfuel|].
      rewrite (addValue_delegates key v msg s ks (S n) Hks Hin). apply Hfuel.
    + destruct (addValue_direct key v None s ks Hks Hin) as [Hsome0 Hfuel0].
      destruct (addValue_direct key v msg s ks Hks Hin) as [Hsome Hfuel].
      split; [exact Hsome0|]. split; [exact Hsome|]. split; [apply Hfuel|].
      rewrite (setValue_delegates key v s ks (S n) Hks Hin). apply Hfuel0.
  - split; simpl; unfold_monad; rewrite Hks; reflexivity.
Qed.

(** What [read] does, by whether the file exists. *)
Lemma read_present s data :
  Properties.files s !! path = Some data →
  read s = Some (Properties.set_raw data (Properties.emit (FsRead path) s),
                 match parse data with
                 | Some v => Ok v
                 | None => Throw YAMLParseError
                 end).
Proof.
  intros Hdata. unfold Properties.read. unfold_fs. unfold_monad. simpl.
  rewrite bool_decide_eq_true_2 by eauto. rewrite Hdata.
  destruct (parse data); reflexivity.
Qed.

Lemma read_missing s :
  Properties.files s !! path = None →
  let s1 := Properties.emit (FsWrite path template)
              (Properties.set_files (insert path template) s) in
  let s2 := if debugEnabled
            then Properties.emit
                   (Log "Properties" LSuccess
                      ("Created properties file at " +:+ dq +:+ relative +:+ dq)) s1
            else s1 in
  read s = Some (Properties.set_raw template (Properties.emit (FsRead path) s2),
                 match parse template with
                 | Some v => Ok v
                 | None => Throw YAMLParseError
                 end).
Proof.
  intros Hnone. unfold Properties.read. unfold_fs. unfold_monad. simpl.
  rewrite bool_decide_eq_false_2 by (rewrite Hnone; apply is_Some_None).
  destruct debugEnabled; simpl; rewrite lookup_insert_eq;
    destruct (parse template); reflexivity.
Qed.

(** A loop whose every iteration leaves the state alone leaves the
    state alone. *)
Lemma for_each_skip {S A} (xs : list A) (body : A → M S unit) (s : S) :
  (∀ x, x ∈ xs → body x s = Some (s, Ok tt)) →
  for_each xs body s = Some (s, Ok tt).
Proof.
  induction xs as [|x xs IH]; intros Hbody; simpl.
  - reflexivity.
  - unfold bind. rewrite Hbody by left. apply IH.
    intros y Hy. apply Hbody. by right.
Qed.

Lemma when_logger_emit (b : bool) l msg s :
  when b (Properties.logger_emit l msg) s
  = Some (if b then Properties.emit (Log "Properties" l msg) s else s, Ok tt).
Proof. destruct b; reflexivity. Qed.

(** The reconciliation loop adds nothing when every template key is
    already among the keys of [values]. *)
Lemma reconcile_skip fuel (defs : obj) s ks :
  object_keys (Properties.values s) = Ok ks →
  (∀ kv, kv ∈ defs → kv.1 ∈ ks) →
  for_each defs
    (λ kv,
       let* vs := gets Properties.values in
       let* ks := lift (object_keys vs) in
       if negb (includes kv.1 ks)
       then addValue_f fuel kv.1 kv.2 (Some (Properties.template_comment template kv.1))
       else ret tt) s
  = Some (s, Ok tt).
Proof.
  intros Hks Hall. apply for_each_skip. intros kv Hkv.
  unfold_monad. rewrite Hks. unfold includes.
  rewrite bool_decide_eq_true_2 by auto. reflexivity.
Qed.

Lemma keys_elem (o : obj) kv : kv ∈ o → kv.1 ∈ keys o.
Proof. intros H. unfold keys. apply list_elem_of_fmap. eauto. Qed.

(** C1.  When the backing file does not exist and the template parses
    to the mapping [defs], the constructor returns normally for every
    recursion bound; the file now holds the template text, and [values]
    is exactly [defs]: the keys of the template, each with its default
    value. *)
Theorem constructor_creates_file_from_template
    (fs : gmap string string) (defs : obj) (fuel : nat) :
  fs !! path = None →
  parse template = Some (VObj defs) →
  ∃ s', constructor fuel (Properties.fresh fs) = Some (s', Ok tt)
        ∧ Properties.values s' = VObj defs
        ∧ Properties.raw s' = template
        ∧ Properties.files s' = <[path := template]> fs.
Proof.
  intros Hnone Hparse.
  unfold Properties.constructor.
  unfold bind at 1. unfold try_catch. unfold bind at 1.
  rewrite read_missing by exact Hnone. rewrite Hparse.
  unfold modify at 1. unfold bind at 1. unfold gets at 1.
  cbn [Properties.values Properties.set_values].
  unfold bind at 1. unfold ret at 1. unfold bind at 1.
  erewrite reconcile_skip; [| reflexivity | intros kv; apply keys_elem].
  destruct debugEnabled; simpl; unfold Properties.logger_emit, modify, ret;
    eexists; (split; [reflexivity|]); simpl; auto.
Qed.

(** Once [values] is what the template parses to, the reconciliation
    loop has nothing to add, whatever kind of value that is. *)
Lemma reconcile_same fuel (tv : value) s :
  Properties.values s = tv →
  for_each (own_props tv)
    (λ kv,
       let* vs := gets Properties.values in
       let* ks := lift (object_keys vs) in
       if negb (includes kv.1 ks)
       then addValue_f fuel kv.1 kv.2 (Some (Properties.template_comment template kv.1))
       else ret tt) s
  = Some (s, Ok tt).
Proof.
  intros Hvals.
  destruct tv; try reflexivity;
    (apply (reconcile_skip fuel _ s (keys (own_props (Properties.values s))));
     [rewrite Hvals; reflexivity | rewrite Hvals; intros kv; apply keys_elem]).
Qed.

(** C2.  When the backing file exists and its content does not parse,
    the constructor does not throw, provided the template itself
    parses, to [tv]: it removes the file, writes the template text in
    its place, reads and parses it again, and ends with the file
    holding the template and [values] equal to the template defaults
    [tv].  With [debugEnabled] the warning is part of the trace. *)
Theorem constructor_regenerates_unparsable_file
    (fs : gmap string string) (content : string) (tv : value) (fuel : nat) :
  fs !! path = Some content →
  parse content = None →
  parse template = Some tv →
  ∃ s', constructor fuel (Properties.fresh fs) = Some (s', Ok tt)
        ∧ Properties.values s' = tv
        ∧ Properties.raw s' = template
        ∧ Properties.files s' = <[path := template]> fs
        ∧ Properties.trace s' =
            ([FsRead path; FsRemove path; FsWrite path template]
             ++ (if debugEnabled
                 then [Log "Properties" LSuccess
                         ("Created properties file at " +:+ dq +:+ relative +:+ dq)]
                 else [])
             ++ [FsRead path]
             ++ (if debugEnabled
                 then [Log "Properties" LWarn
                         ("Invalid properties file at " +:+ dq +:+ relative +:+ dq
                          +:+ ", regenerating...");
                       Log "Properties" LSuccess
                         ("Parsed properties file at " +:+ dq +:+ relative +:+ dq +:+ ".")]
                 else []))%list.
Proof.
  intros Hsome Hbad Hparse.
  unfold Properties.constructor.
  unfold bind at 1. unfold try_catch. unfold bind at 1.
  rewrite (read_present _ content) by exact Hsome. rewrite Hbad.
  unfold modify at 1. unfold bind at 1. unfold gets at 1.
  cbn [Properties.values Properties.set_values].
  unfold bind at 1. unfold bind at 1. unfold Properties.rmSync.
  cbn [Properties.files Properties.set_raw Properties.set_values
       Properties.emit Properties.fresh].
  rewrite Hsome.
  unfold bind at 1.
  rewrite read_missing by (simpl; apply lookup_delete_eq). rewrite Hparse.
  unfold bind at 1. unfold modify at 1.
  assert (Hins : <[path := template]> (delete path fs) = <[path := template]> fs)
    by apply insert_delete_eq.
  rewrite when_logger_emit. unfold bind at 1.
  rewrite (reconcile_same fuel tv) by (destruct debugEnabled; reflexivity).
  rewrite when_logger_emit.
  eexists; (split; [reflexivity|]).
  destruct debugEnabled; simpl; rewrite Hins; auto.
Qed.

(** A loop whose body always comes back and keeps [P] comes back and
    keeps [P], whether it ends normally or with an exception. *)
Lemma for_each_keeps {S A} (P : S → Prop) (xs : list A) (body : A → M S unit) (s : S) :
  (∀ x s, P s → ∃ s' r, body x s = Some (s', r) ∧ P s') →
  P s →
  ∃ s' r, for_each xs body s = Some (s', r) ∧ P s'.
Proof.
  intros Hbody. revert s. induction xs as [|x xs IH]; intros s HP; simpl.
  - unfold ret. eauto.
  - destruct (Hbody x s HP) as (s1 & r1 & Hrun & HP1).
    unfold bind. rewrite Hrun. destruct r1 as [[]|e]; [apply IH, HP1 | eauto].
Qed.

(** [write] puts [raw] on disk and leaves [raw] as it is, whatever the
    parser then makes of it. *)
Lemma write_keeps_raw s :
  ∃ s' r, write s = Some (s', r)
          ∧ Properties.raw s' = Properties.raw s
          ∧ Properties.files s' = <[path := Properties.raw s]> (Properties.files s).
Proof.
  unfold Properties.write.
  unfold bind at 1. unfold gets at 1. unfold bind at 1.
  unfold Properties.writeFileSync at 1. unfold modify at 1. unfold bind at 1.
  rewrite (read_present _ (Properties.raw s)) by (simpl; apply lookup_insert_eq).
  destruct (parse (Properties.raw s)); unfold modify; eauto.
Qed.

(** One round of the reconciliation loop, for any parser and any
    state: the text in [raw] and on disk stays the same or grows at its
    end. *)
Lemma reconcile_step_appends (n : nat) (live : string) (fs : gmap string string)
    (kv : string * value) (s : Properties.state) :
  (∃ suffix, Properties.raw s = live +:+ suffix)
  ∧ Properties.files s = <[path := Properties.raw s]> fs →
  ∃ s' r,
    (let* vs := gets Properties.values in
     let* ks := lift (object_keys vs) in
     if negb (includes kv.1 ks)
     then addValue_f (S n) kv.1 kv.2 (Some (Properties.template_comment template kv.1))
     else ret tt) s = Some (s', r)
    ∧ (∃ suffix, Properties.raw s' = live +:+ suffix)
    ∧ Properties.files s' = <[path := Properties.raw s']> fs.
Proof.
  intros [[suffix Hraw] Hfiles].
  unfold bind at 1. unfold gets at 1. unfold bind at 1. unfold lift at 1.
  destruct (object_keys (Properties.values s)) as [ks|e] eqn:Hks; [|eauto 10].
  destruct (includes kv.1 ks) eqn:Hin; [unfold ret; simpl; eauto 10|].
  change (negb false) with true. cbv iota.
  cbn [Properties.addValue_f].
  unfold bind at 1. unfold gets at 1. unfold bind at 1. unfold lift at 1.
  rewrite Hks, Hin.
  unfold bind at 1. unfold lift at 1.
  destruct (set_prop kv.1 kv.2 (Properties.values s)) as [vs'|e]; [|eauto 10].
  unfold bind at 1. unfold modify at 1.
  unfold bind at 1. unfold modify at 1.
  unfold bind at 1.
  match goal with |- context [when ?b ?m ?st] =>
    assert (Hwhen : ∃ s2 extra, when b m st = Some (s2, Ok tt)
                       ∧ Properties.raw s2 = Properties.raw s +:+ extra
                       ∧ Properties.files s2 = Properties.files s)
  end.
  { unfold when, modify, ret. destruct (truthy _); eexists; eexists;
      (split; [reflexivity|]); simpl; (split; [|reflexivity]).
    - rewrite app_assoc_s. reflexivity.
    - reflexivity. }
  destruct Hwhen as (s2 & extra & -> & Hraw2 & Hfiles2).
  destruct (write_keeps_raw s2) as (s' & r & Hrun & Hraw' & Hfiles').
  rewrite Hrun. exists s', r. split; [reflexivity|]. split.
  - exists (suffix +:+ extra). rewrite Hraw', Hraw2, Hraw. apply app_assoc_s.
  - rewrite Hfiles', Hraw', Hfiles2, Hfiles. apply insert_insert_eq.
Qed.

(** Opening a store on an existing file that parses to something
    other than [null], for any parser and any template: the constructor
    comes back, the file is never removed, and its text at the end is
    the text it had, possibly with more text after it. *)
Lemma constructor_only_appends
    (n : nat) (fs : gmap string string) (live : string) (v : value) :
  fs !! path = Some live →
  parse live = Some v →
  v ≠ VNull →
  ∃ s' r suffix,
    constructor (S n) (Properties.fresh fs) = Some (s', r)
    ∧ Properties.raw s' = live +:+ suffix
    ∧ Properties.files s' = <[path := Properties.raw s']> fs.
Proof.
  intros Hfile Hparse Hnull.
  unfold Properties.constructor.
  unfold bind at 1. unfold try_catch. unfold bind at 1.
  rewrite (read_present _ live) by exact Hfile. rewrite Hparse.
  unfold modify at 1. unfold bind at 1. unfold gets at 1.
  cbn [Properties.values Properties.set_values].
  set (s0 := Properties.set_values v
               (Properties.set_raw live (Properties.emit (FsRead path) (Properties.fresh fs)))).
  assert (Hs0 : (∃ suffix, Properties.raw s0 = live +:+ suffix)
                ∧ Properties.files s0 = <[path := Properties.raw s0]> fs).
  { split; [exists ""; symmetry; apply app_nil_r_s|].
    simpl. symmetry. by apply insert_id. }
  unfold bind at 1.
  replace (match v with
           | VNull => _
           | _ => ret ()
           end s0) with (Some (s0, Ok tt)) by (destruct v; done).
  destruct (parse template) as [tv|]; [|destruct Hs0 as [[sfx ?] ?]; unfold throw; eauto 10].
  unfold bind at 1.
  destruct (for_each_keeps
              (λ s, (∃ suffix, Properties.raw s = live +:+ suffix)
                    ∧ Properties.files s = <[path := Properties.raw s]> fs)
              (own_props tv)
              (λ kv,
                 let* vs := gets Properties.values in
                 let* ks := lift (object_keys vs) in
                 if negb (includes kv.1 ks)
                 then addValue_f (S n) kv.1 kv.2
                        (Some (Properties.template_comment template kv.1))
                 else ret tt) s0)
    as (s1 & r1 & Hloop & [[sfx Hraw1] Hfiles1]).
  { intros kv s Hs. destruct (reconcile_step_appends n live fs kv s Hs)
      as (s' & r & Hrun & Hs'). eauto. }
  { exact Hs0. }
  rewrite Hloop. destruct r1 as [[]|e]; [|eauto 10].
  rewrite when_logger_emit. eexists. eexists. exists sfx. split; [reflexivity|].
  destruct debugEnabled; simpl; auto.
Qed.

End PropertiesFacts.

(** * Properties of objects *)

Lemma obj_get_set_eq (k : string) (v : value) (o : obj) :
  obj_get k (obj_set k v o) = Some v.
Proof.
  induction o as [|[k' v'] o IH]; simpl.
  - by rewrite decide_True.
  - destruct (decide (k = k')); simpl.
    + by rewrite decide_True.
    + by rewrite decide_False.
Qed.

Lemma obj_get_set_ne (k k' : string) (v : value) (o : obj) :
  k ≠ k' → obj_get k' (obj_set k v o) = obj_get k' o.
Proof.
  intros Hne. induction o as [|[k0 v0] o IH]; simpl.
  - rewrite decide_False by congruence. reflexivity.
  - destruct (decide (k = k0)) as [->|Hk]; simpl.
    + rewrite !decide_False by congruence. reflexivity.
    + destruct (decide (k' = k0)); [reflexivity | exact IH].
Qed.

Lemma keys_obj_set (k k' : string) (v : value) (o : obj) :
  k' ∈ keys (obj_set k v o) ↔ k' = k ∨ k' ∈ keys o.
Proof.
  unfold keys. induction o as [|[k0 v0] o IH]; simpl.
  - rewrite list_elem_of_singleton. set_solver.
  - destruct (decide (k = k0)) as [->|Hk]; simpl.
    + set_solver.
    + rewrite !elem_of_cons, IH. naive_solver.
Qed.

Lemma obj_get_None (k : string) (o : obj) : obj_get k o = None ↔ k ∉ keys o.
Proof.
  unfold keys. induction o as [|[k0 v0] o IH]; simpl.
  - split; [intros _; apply not_elem_of_nil | done].
  - destruct (decide (k = k0)) as [->|Hk].
    + split; [done | intros H; exfalso; apply H; left].
    + rewrite IH, not_elem_of_cons. naive_solver.
Qed.

Lemma keys_spread (a b : obj) (k : string) :
  k ∈ keys (spread a b) ↔ k ∈ keys a ∨ k ∈ keys b.
Proof.
  unfold spread. revert a. induction b as [|[k0 v0] b IH]; intros a; simpl.
  - split; [auto | intros [H|H]; [exact H | inversion H]].
  - rewrite IH, keys_obj_set. change (keys ((k0, v0) :: b)) with (k0 :: keys b).
    rewrite elem_of_cons. tauto.
Qed.

(** In a spread, the properties of the right operand win. *)
Lemma obj_get_spread (a b : obj) (k : string) (v : value) :
  NoDup (keys b) → obj_get k b = Some v → obj_get k (spread a b) = Some v.
Proof.
  unfold spread. revert a. induction b as [|[k0 v0] b IH]; intros a Hnd Hget; simpl in *.
  - discriminate.
  - apply NoDup_cons in Hnd as [Hk0 Hnd].
    destruct (decide (k = k0)) as [->|Hk].
    + injection Hget as ->.
      assert (Hfold : ∀ c, obj_get k0 c = Some v →
                obj_get k0 (fold_left (λ acc kv, obj_set kv.1 kv.2 acc) b c) = Some v).
      { clear IH Hnd. induction b as [|[k1 v1] b IHb]; intros c Hc; simpl; [exact Hc|].
        apply not_elem_of_cons in Hk0 as [Hne Hk0]. simpl in Hne.
        apply IHb; [exact Hk0|]. rewrite obj_get_set_ne by congruence. exact Hc. }
      apply Hfold, obj_get_set_eq.
    + apply IH; assumption.
Qed.

Lemma spread_nil_r (a : obj) : spread a [] = a.
Proof. reflexivity. Qed.

(** * Properties of the key-value store

    The statements of this part are about a host that refuses no
    operation ([Storage.cooperative]); the part on hosts that refuse
    operations comes after them. *)

(** A loop whose body always returns normally and keeps [P] returns
    normally and keeps [P]. *)
Lemma for_each_invariant {S A} (P : S → Prop) (xs : list A) (body : A → M S unit) (s : S) :
  (∀ x s, P s → ∃ s', body x s = Some (s', Ok tt) ∧ P s') →
  P s →
  ∃ s', for_each xs body s = Some (s', Ok tt) ∧ P s'.
Proof.
  intros Hbody. revert s. induction xs as [|x xs IH]; intros s HP; simpl.
  - eauto.
  - destruct (Hbody x s HP) as (s1 & Hrun & HP1).
    unfold bind. rewrite Hrun. apply IH, HP1.
Qed.

Section StorageFacts.

Variable JSON_parse : string → option value.
Variable JSON_stringify : value → option string.
Variable JSON_stringify_pretty : obj → string.
Variable debugEnabled : bool.
Variable cwd : string.
Variable pf : Path.platform.
Variable path_relative : string → string → string.

Local Abbreviation resolvePath := (Storage.resolvePath cwd pf).
Local Abbreviation writeJson := (Storage.writeJson JSON_stringify_pretty Storage.cooperative).
Local Abbreviation readJson := (Storage.readJson JSON_parse debugEnabled).
Local Abbreviation writeSqlite := (Storage.writeSqlite JSON_stringify).
Local Abbreviation readSqlite := (Storage.readSqlite JSON_parse JSON_stringify).
Local Abbreviation initialize :=
  (Storage.initialize JSON_parse JSON_stringify JSON_stringify_pretty debugEnabled
     Storage.cooperative).
Local Abbreviation constructor :=
  (Storage.constructor JSON_parse JSON_stringify JSON_stringify_pretty
     debugEnabled cwd pf path_relative Storage.cooperative).
Local Abbreviation setValue :=
  (Storage.setValue JSON_stringify JSON_stringify_pretty Storage.cooperative).

Ltac unfold_storage :=
  unfold Storage.writeJson, Storage.readJson, Storage.writeSqlite,
    Storage.existsSync, Storage.writeFileSync, Storage.readFileSync,
    Storage.logger_emit, Storage.open_database, Storage.mkdirSync,
    Storage.cooperative in *;
  unfold bind, ret, gets, modify, lift, throw, when, try_catch in *.

(** The outcome of one upsert, failure included: [writeSqlite] returns
    normally and touches neither [values] nor the files. *)
Lemma writeSqlite_returns self key v s :
  ∃ s', writeSqlite self key v s = Some (s', Ok tt)
        ∧ Storage.values s' = Storage.values s
        ∧ Storage.files s' = Storage.files s.
Proof.
  unfold_storage.
  destruct (Storage.dbs s !! Storage.path self) as [d|]; [|eauto].
  destruct (Storage.run_setValue key (JSON_stringify v) d); eauto.
Qed.

Lemma writeJson_returns self s :
  writeJson self s
  = Some (Storage.emit (FsWrite (Storage.path self) (JSON_stringify_pretty (Storage.values s)))
            (Storage.set_files
               (insert (Storage.path self) (JSON_stringify_pretty (Storage.values s))) s),
          Ok tt).
Proof. reflexivity. Qed.

Lemma when_storage_emit (b : bool) l msg s :
  when b (Storage.logger_emit l msg) s
  = Some (if b then Storage.emit (Log "Storage" l msg) s else s, Ok tt).
Proof. destruct b; reflexivity. Qed.

(** What [readJson] leaves in [values]; it never throws and never
    writes. *)
Lemma readJson_returns self s :
  ∃ s', readJson self s = Some (s', Ok tt)
        ∧ Storage.files s' = Storage.files s
        ∧ Storage.dbs s' = Storage.dbs s
        ∧ Storage.values s' =
            match Storage.files s !! Storage.path self with
            | Some content =>
                match JSON_parse content with
                | Some jsonData => spread (Storage.values s) (own_props jsonData)
                | None => Storage.values s
                end
            | None => Storage.values s
            end.
Proof.
  unfold_storage.
  destruct (Storage.files s !! Storage.path self) as [content|].
  - destruct (JSON_parse content) as [jsonData|].
    + eexists. split; [reflexivity|]. simpl. auto.
    + destruct debugEnabled; eexists; (split; [reflexivity|]); simpl; auto.
  - destruct debugEnabled; eexists; (split; [reflexivity|]); simpl; auto.
Qed.

Lemma readJson_parse_failure self s content :
  Storage.files s !! Storage.path self = Some content →
  JSON_parse content = None →
  readJson self s
  = Some (let s1 := Storage.emit (FsRead (Storage.path self)) s in
          if debugEnabled
          then Storage.emit
                 (Log "Storage" LWarn
                    ("§cFailed to read data at §r" +:+ dq +:+ Storage.relative self
                     +:+ dq +:+ "§c.")) s1
          else s1,
          Ok tt).
Proof.
  intros Hfile Hbad. unfold_storage. rewrite Hfile, Hbad.
  destruct debugEnabled; reflexivity.
Qed.

(** The loop of [readSqlite] that writes every entry of [values] back
    keeps [values]. *)
Lemma write_back_returns self (vs : obj) s :
  ∃ s', for_each vs (λ kv, writeSqlite self kv.1 kv.2) s = Some (s', Ok tt)
        ∧ Storage.values s' = Storage.values s
        ∧ Storage.files s' = Storage.files s.
Proof.
  apply (for_each_invariant
           (λ s', Storage.values s' = Storage.values s
                  ∧ Storage.files s' = Storage.files s)); [|auto].
  intros kv s1 [Hv Hf].
  destruct (writeSqlite_returns self kv.1 kv.2 s1) as (s2 & Hrun & Hv2 & Hf2).
  exists s2. split; [exact Hrun|]. split; congruence.
Qed.

Lemma readSqlite_returns self s :
  ∃ s', readSqlite self s = Some (s', Ok tt)
        ∧ Storage.files s' = Storage.files s
        ∧ Storage.values s' =
            match Storage.dbs s !! Storage.path self with
            | Some d =>
                match Storage.parse_rows JSON_parse (Storage.rows d) [] with
                | Ok dbValues => spread (Storage.values s) dbValues
                | Throw _ => Storage.values s
                end
            | None => Storage.values s
            end.
Proof.
  unfold Storage.readSqlite. unfold try_catch. unfold bind at 1.
  destruct (Storage.dbs s !! Storage.path self) as [d|].
  - unfold bind at 1. unfold lift at 1.
    destruct (Storage.parse_rows JSON_parse (Storage.rows d) []) as [dbValues|e].
    + unfold bind at 1. unfold modify at 1.
      destruct (bool_decide (length (Storage.rows d) = 0%nat)).
      * unfold bind at 1. unfold gets at 1.
        destruct (write_back_returns self
                    (Storage.values
                       (Storage.set_values (spread (Storage.values s) dbValues) s))
                    (Storage.set_values (spread (Storage.values s) dbValues) s))
          as (s' & Hrun & Hv & Hf).
        rewrite Hrun. exists s'. split; [reflexivity|]. split; [exact Hf | exact Hv].
      * unfold ret. eexists. split; [reflexivity|]. simpl. auto.
    + unfold Storage.logger_emit, modify. eexists. split; [reflexivity|]. simpl. auto.
  - unfold Storage.logger_emit, modify. eexists. split; [reflexivity|]. simpl. auto.
Qed.


(** On a host that refuses nothing the directory step of the
    constructor changes nothing. *)
Lemma ensure_directory (dir : string) (s : Storage.state) :
  (let* ex := Storage.existsSync dir in
   if negb ex then Storage.mkdirSync Storage.cooperative dir else ret tt) s
  = Some (s, Ok tt).
Proof.
  unfold bind, Storage.existsSync, gets.
  destruct (bool_decide (is_Some (Storage.files s !! dir))); reflexivity.
Qed.

(** The constructor past its checks: it runs [initialize] on the new
    instance, starting from the defaults. *)
Lemma constructor_opens (ty : Storage.StorageType) (p : string) (world : option string)
    (defaults : obj) (s0 : Storage.state) (q : string) (bk : Storage.backend) :
  resolvePath ty p (match ty with Storage.World => world | _ => None end) = Ok q →
  Path.extname pf q = match bk with Storage.json => ".json" | Storage.sqlite => ".sqlite" end →
  let self := {| Storage.path := q; Storage.relative := path_relative cwd q;
                 Storage.type := bk |} in
  constructor ty p world defaults s0
  = (initialize self >> ret self) (Storage.set_values defaults s0).
Proof.
  intros Hpath Hext self.
  unfold Storage.constructor. unfold bind at 1. unfold lift at 1. rewrite Hpath.
  unfold bind at 1. rewrite Hext.
  destruct bk.
  - change (bool_decide (".json" = ".json")) with true. cbv iota.
    unfold ret at 1. unfold bind at 1. rewrite ensure_directory. reflexivity.
  - change (bool_decide (".sqlite" = ".json")) with false.
    change (bool_decide (".sqlite" = ".sqlite")) with true. cbv iota.
    unfold ret at 1. unfold bind at 1. rewrite ensure_directory. reflexivity.
Qed.

(** C6.  On the SQLite backend, when the upsert of [setValue(key, v)]
    fails, [setValue] still returns normally: the failure is caught and
    logged at error level, the table is left as it was, and [values]
    holds [v] for [key]. *)
Theorem setValue_survives_failed_upsert
    (self : Storage.instance) (key : string) (v : value)
    (s : Storage.state) (d : Storage.database) :
  Storage.type self = Storage.sqlite →
  Storage.dbs s !! Storage.path self = Some d →
  Storage.run_setValue key (JSON_stringify v) d = None →
  ∃ s', setValue self key v s = Some (s', Ok tt)
        ∧ obj_get key (Storage.values s') = Some v
        ∧ Storage.values s' = obj_set key v (Storage.values s)
        ∧ Storage.dbs s' = Storage.dbs s
        ∧ Storage.trace s' =
            (Storage.trace s
             ++ [DbRun (Storage.path self) key (JSON_stringify v);
                 Log "Storage" LError
                   ("Error writing to SQLite database at " +:+ dq
                    +:+ Storage.relative self +:+ dq +:+ ".")])%list.
Proof.
  intros Hty Hdb Hfail.
  unfold Storage.setValue. rewrite Hty.
  unfold bind at 1. unfold modify at 1.
  unfold_storage. simpl. rewrite Hdb, Hfail.
  eexists. split; [reflexivity|]. simpl.
  rewrite obj_get_set_eq, <- app_assoc. auto.
Qed.

(** C8, as the code has it.  On the JSON backend, when the file exists
    and its content does not deserialize, the constructor returns:
    [values] is the defaults, the disk is as it was, the only access is
    the read.  The warning is logged when [debugEnabled] is set, and
    only then. *)
Theorem json_load_failure_keeps_defaults_and_file
    (ty : Storage.StorageType) (p : string) (world : option string)
    (defaults : obj) (fs : gmap string string) (ds : gmap string Storage.database)
    (q content : string) :
  resolvePath ty p (match ty with Storage.World => world | _ => None end) = Ok q →
  Path.extname pf q = ".json" →
  fs !! q = Some content →
  JSON_parse content = None →
  ∃ s self, constructor ty p world defaults (Storage.fresh fs ds) = Some (s, Ok self)
    ∧ Storage.path self = q
    ∧ Storage.type self = Storage.json
    ∧ Storage.values s = defaults
    ∧ Storage.files s = fs
    ∧ Storage.dbs s = ds
    ∧ Storage.trace s =
        FsRead q ::
        (if debugEnabled
         then [Log "Storage" LWarn
                 ("§cFailed to read data at §r" +:+ dq +:+ path_relative cwd q
                  +:+ dq +:+ "§c.");
               Log "Storage" LSuccess
                 ("Parsed storage file at " +:+ dq +:+ path_relative cwd q
                  +:+ dq +:+ ".")]
         else []).
Proof.
  intros Hpath Hext Hfile Hbad.
  pose proof (constructor_opens ty p world defaults (Storage.fresh fs ds) q Storage.json
                Hpath Hext) as Hopen.
  cbv zeta in Hopen. rewrite Hopen. unfold bind at 1.
  unfold Storage.initialize. cbn [Storage.type Storage.path].
  unfold bind at 1. unfold bind at 1. unfold Storage.existsSync, gets.
  cbn [Storage.files Storage.set_values Storage.fresh].
  rewrite bool_decide_eq_true_2 by eauto.
  change (negb true) with false. cbv iota.
  rewrite (readJson_parse_failure _ _ content) by (simpl; assumption).
  rewrite when_storage_emit.
  unfold ret. eexists. eexists. split; [reflexivity|].
  destruct debugEnabled; simpl; auto 10.
Qed.

End StorageFacts.

(** * Properties of texts *)

Lemma all_chars_app (f : ascii → bool) (a b : string) :
  Str.all_chars f (a +:+ b) = Str.all_chars f a && Str.all_chars f b.
Proof.
  induction a as [|x a IH]; [reflexivity|].
  rewrite app_cons_s. simpl. rewrite IH. apply andb_assoc.
Qed.

Lemma all_chars_impl (f g : ascii → bool) (s : string) :
  (∀ c, f c = true → g c = true) →
  Str.all_chars f s = true → Str.all_chars g s = true.
Proof.
  intros Hfg. induction s as [|x s IH]; simpl; [auto|].
  rewrite !andb_true_iff. intros [Hx Hs]. auto.
Qed.

(** A text without a given character is not split at it; with it, it
    is split at its first occurrence. *)
Lemma strip_prefix_app (p s : string) : Str.strip_prefix p (p +:+ s) = Some s.
Proof.
  induction p as [|x p IH]; [reflexivity|].
  rewrite app_cons_s. simpl. by rewrite decide_True.
Qed.

Lemma find_split_char_absent (c : ascii) (s : string) :
  Str.all_chars (λ x, negb (bool_decide (x = c))) s = true →
  Str.find_split (String c "") s = None.
Proof.
  induction s as [|x s IH]; simpl; [reflexivity|].
  rewrite andb_true_iff, negb_true_iff, bool_decide_eq_false. intros [Hx Hs].
  rewrite decide_False by congruence. by rewrite IH.
Qed.

Lemma find_split_char_first (c : ascii) (b a : string) :
  Str.all_chars (λ x, negb (bool_decide (x = c))) b = true →
  Str.find_split (String c "") (b +:+ String c a) = Some (b, a).
Proof.
  induction b as [|x b IH].
  - intros _. rewrite app_nil_l_s. simpl. by rewrite decide_True.
  - rewrite app_cons_s. simpl.
    rewrite andb_true_iff, negb_true_iff, bool_decide_eq_false. intros [Hx Hb].
    rewrite decide_False by congruence. by rewrite IH.
Qed.

Lemma find_split_char_inv (c : ascii) (s b a : string) :
  Str.find_split (String c "") s = Some (b, a) →
  s = b +:+ String c a
  ∧ Str.all_chars (λ x, negb (bool_decide (x = c))) b = true.
Proof.
  revert b. induction s as [|x s IH]; intros b; simpl; [discriminate|].
  destruct (decide (c = x)) as [->|Hne].
  - intros [= <- <-]. auto.
  - destruct (Str.find_split (String c "") s) as [[b' a']|]; [|discriminate].
    intros [= <- <-]. destruct (IH b' eq_refl) as [-> Hb]. split; [reflexivity|].
    simpl. rewrite Hb, bool_decide_eq_false_2 by congruence. reflexivity.
Qed.

(** The pieces of a split are made of characters of the text. *)
Lemma find_split_all_chars (f : ascii → bool) (sep s b a : string) :
  Str.find_split sep s = Some (b, a) →
  Str.all_chars f s = true →
  Str.all_chars f b = true ∧ Str.all_chars f a = true.
Proof.
  assert (Hstrip : ∀ p t r, Str.strip_prefix p t = Some r →
            Str.all_chars f t = true → Str.all_chars f r = true).
  { induction p as [|x p IHp]; intros t r; simpl.
    - intros [= ->]. auto.
    - destruct t as [|y t]; [discriminate|].
      destruct (decide (x = y)); [|discriminate].
      simpl. rewrite andb_true_iff. intros Hr [_ Ht]. eauto. }
  revert b. induction s as [|x s IH]; intros b.
  - simpl. destruct (Str.strip_prefix sep "") as [r|] eqn:Hp; [|discriminate].
    intros [= <- <-] Hs. split; [reflexivity | eauto].
  - cbn [Str.find_split].
    destruct (Str.strip_prefix sep (String x s)) as [r|] eqn:Hp.
    + intros [= <- <-] Hs. split; [reflexivity | eauto].
    + destruct (Str.find_split sep s) as [[b' a']|]; [|discriminate].
      intros [= <- <-]. simpl. rewrite andb_true_iff. intros [Hx Hs].
      destruct (IH b' eq_refl Hs) as [Hb Ha]. rewrite Hx, Hb. auto.
Qed.

(** ** Lines *)

Lemma split_nonnil (s : string) : Lines.split s ≠ [].
Proof.
  induction s as [|c s IH]; simpl; [discriminate|].
  destruct (Lines.is_terminator c); [discriminate|].
  destruct (Lines.split s) as [|[l t] rest]; discriminate.
Qed.

Lemma split_clean (l : string) :
  Aux.clean l = true → Lines.split l = [(l, None)].
Proof.
  unfold Aux.clean. induction l as [|c l IH]; simpl; [reflexivity|].
  rewrite andb_true_iff, negb_true_iff. intros [Hc Hl].
  rewrite Hc, (IH Hl). reflexivity.
Qed.

(** Splitting a text at one of its terminators. *)
Lemma split_app_terminator (a b : string) (t : ascii) :
  Lines.is_terminator t = true →
  Lines.split (a +:+ String t b) = Aux.attach t (Lines.split a) (Lines.split b).
Proof.
  intros Ht. induction a as [|c a IH].
  - rewrite app_nil_l_s. simpl. rewrite Ht. reflexivity.
  - rewrite app_cons_s. simpl. rewrite IH.
    pose proof (split_nonnil a) as Hne.
    destruct (Lines.is_terminator c).
    + simpl. destruct (Lines.split a) as [|seg segs]; [done|].
      destruct seg as [l t0]. reflexivity.
    + destruct (Lines.split a) as [|[l t0] segs]; [done|].
      destruct segs as [|seg segs]; reflexivity.
Qed.

Lemma map_fst_attach (t : ascii) (segs rest : list (string * option ascii)) :
  segs ≠ [] →
  map fst (Aux.attach t segs rest) = (map fst segs ++ map fst rest)%list.
Proof.
  induction segs as [|[l t0] segs IH]; [done|]. intros _.
  destruct segs as [|seg segs]; [reflexivity|].
  change (Aux.attach t ((l, t0) :: seg :: segs) rest)
    with ((l, t0) :: Aux.attach t (seg :: segs) rest).
  rewrite (map_cons fst (l, t0)), IH by discriminate. reflexivity.
Qed.

Lemma forallb_attach (f : string * option ascii → bool) (t : ascii)
    (segs rest : list (string * option ascii)) :
  (∀ l, f (l, Some t) = true) →
  forallb f segs = true → forallb f rest = true →
  forallb f (Aux.attach t segs rest) = true.
Proof.
  intros Hf. induction segs as [|[l t0] segs IH]; [auto|].
  intros Hsegs Hrest. destruct segs as [|seg segs].
  - simpl. rewrite Hf. exact Hrest.
  - change (Aux.attach t ((l, t0) :: seg :: segs) rest)
      with ((l, t0) :: Aux.attach t (seg :: segs) rest).
    simpl in Hsegs. apply andb_true_iff in Hsegs as [Hl Hsegs].
    simpl forallb. rewrite Hl. apply IH; assumption.
Qed.

Lemma read_lines_app (l1 l2 : list string) (acc : obj) :
  Yaml.read_lines (l1 ++ l2) acc
  = match Yaml.read_lines l1 acc with
    | Some acc' => Yaml.read_lines l2 acc'
    | None => None
    end.
Proof.
  revert acc. induction l1 as [|l l1 IH]; intros acc; simpl; [reflexivity|].
  destruct (Yaml.read_line l) as [[[k v]|]|]; [|apply IH|reflexivity].
  destruct (includes k (keys acc)); [reflexivity | apply IH].
Qed.

(** Reading a text that continues after a line feed. *)
Lemma read_from_app (acc acc' : obj) (a b : string) :
  Aux.read_from acc a = Some acc' →
  Aux.read_from acc (a +:+ String Lines.LF b) = Aux.read_from acc' b.
Proof.
  unfold Aux.read_from. cbv zeta.
  rewrite split_app_terminator by reflexivity.
  destruct (forallb _ (Lines.split a)) eqn:Ha; [|discriminate]. intros Hread.
  rewrite map_fst_attach by apply split_nonnil.
  rewrite read_lines_app, Hread.
  destruct (forallb (λ seg, negb (bool_decide (seg.2 = Some Lines.CR))) (Lines.split b))
    eqn:Hb.
  - rewrite forallb_attach; auto.
  - destruct (forallb _ (Aux.attach _ _ _)) eqn:Hatt; [|reflexivity].
    exfalso.
    assert (Hsub : ∀ segs rest,
              forallb (λ seg : string * option ascii,
                         negb (bool_decide (seg.2 = Some Lines.CR)))
                (Aux.attach Lines.LF segs rest) = true →
              segs ≠ [] →
              forallb (λ seg : string * option ascii,
                         negb (bool_decide (seg.2 = Some Lines.CR))) rest = true).
    { induction segs as [|[l t0] segs IHs]; [done|]. intros rest Hall _.
      destruct segs as [|seg segs].
      - simpl in Hall. exact Hall.
      - change (Aux.attach Lines.LF ((l, t0) :: seg :: segs) rest)
          with ((l, t0) :: Aux.attach Lines.LF (seg :: segs) rest) in Hall.
        simpl in Hall. apply andb_true_iff in Hall as [_ Hall].
        apply IHs; [exact Hall | discriminate]. }
    rewrite (Hsub _ _ Hatt (split_nonnil a)) in Hb. discriminate.
Qed.

Lemma read_from_empty (acc : obj) : Aux.read_from acc "" = Some acc.
Proof. reflexivity. Qed.

Lemma read_doc_read_from (text : string) :
  Yaml.read_doc text
  = match Aux.read_from [] text with
    | Some [] => Some VNull
    | Some o => Some (VObj o)
    | None => None
    end.
Proof.
  unfold Yaml.read_doc, Aux.read_from. cbv zeta.
  destruct (forallb _ _); reflexivity.
Qed.

(** ** Characters and scalars of the line format *)

Ltac all_ascii c :=
  destruct c as [[] [] [] [] [] [] [] []]; vm_compute; intuition congruence.

Lemma plain_char_facts (c : ascii) :
  Yaml.plain_char c = true →
  Yaml.is_printable c = true
  ∧ Lines.is_terminator c = false
  ∧ c ≠ Path.colon ∧ c ≠ RegExp.dollar ∧ c ≠ Yaml.hash.
Proof. all_ascii c. Qed.

Lemma key_char_plain (c : ascii) : Yaml.key_char c = true → Yaml.plain_char c = true.
Proof. all_ascii c. Qed.

Lemma digit_plain (c : ascii) :
  Yaml.is_digit c = true ∨ c = Yaml.hyphen → Yaml.plain_char c = true.
Proof. all_ascii c. Qed.

Lemma printable_clean (c : ascii) :
  Yaml.is_printable c = true → negb (Lines.is_terminator c) = true.
Proof. all_ascii c. Qed.

Lemma key_start_facts (c : ascii) :
  Yaml.is_alpha c || bool_decide (c = Yaml.underscore) = true →
  Yaml.key_char c = true ∧ c ≠ Yaml.hash.
Proof. all_ascii c. Qed.

Lemma string_of_uint_digits (d : Decimal.uint) :
  Str.all_chars Yaml.plain_char (NilEmpty.string_of_uint d) = true.
Proof. induction d; simpl; auto. Qed.

Lemma show_int_plain (z : Z) : Str.all_chars Yaml.plain_char (show_int z) = true.
Proof.
  unfold show_int, NilZero.string_of_int, NilZero.string_of_uint.
  destruct (Z.to_int z) as [d|d]; destruct d; simpl;
    try reflexivity; apply string_of_uint_digits.
Qed.

Lemma show_int_read (z : Z) :
  NilZero.int_of_string (show_int z) = Some (Z.to_int z).
Proof.
  unfold show_int. apply NilZero.isi.
  - destruct z; simpl; try discriminate.
    intros [= H]. by apply (DecimalPos.Unsigned.to_uint_nonnil p).
  - destruct z; simpl; try discriminate.
    intros [= H]. by apply (DecimalPos.Unsigned.to_uint_nonnil p).
Qed.

(** A value read from a token prints to a token that reads back as the
    same value, and the printed token is made of plain characters. *)
Lemma scalar_to_string (tok : string) (v : value) :
  Yaml.scalar tok = Some v →
  Yaml.scalar (to_string v) = Some v
  ∧ Str.all_chars Yaml.plain_char (to_string v) = true.
Proof.
  unfold Yaml.scalar at 1.
  destruct (NilZero.int_of_string tok) as [d|] eqn:Hint.
  - cbv zeta. destruct (bool_decide (Z.abs (Z.of_int d) ≤ Yaml.max_safe_integer)) eqn:Hr;
      [|discriminate].
    intros [= <-]. simpl to_string. split; [|apply show_int_plain].
    unfold Yaml.scalar. rewrite show_int_read. cbv zeta.
    rewrite DecimalZ.of_to, Hr. reflexivity.
  - destruct (bool_decide (tok ∈ Yaml.true_words)); [intros [= <-]; by vm_compute|].
    destruct (bool_decide (tok ∈ Yaml.false_words)); [intros [= <-]; by vm_compute|].
    destruct (bool_decide (tok ∈ Yaml.null_words)); [intros [= <-]; by vm_compute|].
    destruct (Yaml.is_plain tok) eqn:Hplain; [|discriminate].
    intros [= <-]. simpl to_string. split.
    + unfold Yaml.scalar. rewrite Hint.
      pose proof Hplain as Hkeep.
      unfold Yaml.is_plain in Hplain. destruct tok as [|c tok]; [discriminate|].
      rewrite !andb_true_iff in Hplain. destruct Hplain as [_ Hwords].
      apply negb_true_iff, bool_decide_eq_false in Hwords.
      rewrite !bool_decide_eq_false_2.
      * rewrite Hkeep. reflexivity.
      * intros H. apply Hwords. rewrite !elem_of_app. auto.
      * intros H. apply Hwords. rewrite !elem_of_app. auto.
      * intros H. apply Hwords. rewrite !elem_of_app. auto.
    + unfold Yaml.is_plain in Hplain. destruct tok as [|c tok]; [discriminate|].
      rewrite !andb_true_iff in Hplain. tauto.
Qed.

(** ** Lines of the format *)

Lemma is_key_chars (k : string) :
  Yaml.is_key k = true →
  Str.all_chars Yaml.key_char k = true
  ∧ ∃ c k', k = String c k' ∧ c ≠ Yaml.hash.
Proof.
  destruct k as [|c k']; [discriminate|]. unfold Yaml.is_key.
  rewrite !andb_true_iff. intros [[Hc Hk] _].
  destruct (key_start_facts c Hc) as [Hkc Hhash].
  simpl. rewrite Hkc, Hk. eauto.
Qed.

Lemma key_no_colon (k : string) :
  Yaml.is_key k = true →
  Str.all_chars (λ x, negb (bool_decide (x = Path.colon))) k = true.
Proof.
  intros Hk. apply is_key_chars in Hk as [Hk _].
  revert Hk. apply all_chars_impl. intros c Hc.
  apply key_char_plain, plain_char_facts in Hc.
  rewrite negb_true_iff, bool_decide_eq_false. tauto.
Qed.

Lemma plain_printable (s : string) :
  Str.all_chars Yaml.plain_char s = true → Str.all_chars Yaml.is_printable s = true.
Proof. apply all_chars_impl. intros c Hc. apply plain_char_facts in Hc. tauto. Qed.

Lemma printable_is_clean (s : string) :
  Str.all_chars Yaml.is_printable s = true → Aux.clean s = true.
Proof. apply all_chars_impl, printable_clean. Qed.

(** The line [addValue] and [setValue] write for an entry reads back as
    that entry. *)
Lemma read_line_entry (k : string) (v : value) :
  Yaml.is_key k = true →
  Yaml.scalar (to_string v) = Some v →
  Yaml.read_line (k +:+ ": " +:+ to_string v) = Some (Some (k, v)).
Proof.
  intros Hk Hv.
  destruct (scalar_to_string _ _ Hv) as [_ Hplain].
  destruct (is_key_chars k Hk) as (Hkc & c & k' & -> & Hhash).
  assert (Hprint : Str.all_chars Yaml.is_printable
                     (String c k' +:+ ": " +:+ to_string v) = true).
  { rewrite !all_chars_app, !andb_true_iff. split; [|split].
    - apply plain_printable. revert Hkc. apply all_chars_impl, key_char_plain.
    - reflexivity.
    - by apply plain_printable. }
  unfold Yaml.read_line.
  change (String c k' +:+ ": " +:+ to_string v)
    with (String c (k' +:+ ": " +:+ to_string v)) in *.
  rewrite Hprint. simpl negb. cbv iota.
  rewrite bool_decide_eq_false_2 by exact Hhash.
  change (String c (k' +:+ ": " +:+ to_string v))
    with (String c k' +:+ String Path.colon (String Yaml.space (to_string v))).
  change ":" with (String Path.colon "").
  rewrite find_split_char_first by (by apply key_no_colon).
  rewrite Hk. rewrite bool_decide_eq_true_2 by reflexivity.
  rewrite Hv. reflexivity.
Qed.

Lemma read_line_comment (msg : string) :
  Str.all_chars Yaml.is_printable msg = true →
  Yaml.read_line ("# " +:+ msg) = Some None.
Proof.
  intros Hmsg. change ("# " +:+ msg) with (String Yaml.hash (String Yaml.space msg)).
  unfold Yaml.read_line.
  replace (Str.all_chars Yaml.is_printable (String Yaml.hash (String Yaml.space msg)))
    with true by (simpl; rewrite Hmsg; reflexivity).
  reflexivity.
Qed.

Lemma read_line_printable (l : string) r :
  Yaml.read_line l = Some r → Str.all_chars Yaml.is_printable l = true.
Proof.
  destruct l as [|c l]; [reflexivity|]. unfold Yaml.read_line.
  destruct (Str.all_chars Yaml.is_printable (String c l)); [reflexivity | discriminate].
Qed.

(** An entry line is its key, a colon, and the rest; its value prints
    to a token that reads back. *)
Lemma read_line_entry_inv (l k : string) (v : value) :
  Yaml.read_line l = Some (Some (k, v)) →
  Yaml.is_key k = true
  ∧ Yaml.scalar (to_string v) = Some v
  ∧ ∃ rest, l = k +:+ String Path.colon rest.
Proof.
  destruct l as [|c l]; [discriminate|]. unfold Yaml.read_line.
  destruct (negb (Str.all_chars Yaml.is_printable (String c l))); [discriminate|].
  destruct (bool_decide (c = Yaml.hash)); [discriminate|].
  change ":" with (String Path.colon "").
  destruct (Str.find_split (String Path.colon "") (String c l)) as [[k0 rest]|] eqn:Hsplit;
    [|discriminate].
  destruct (Yaml.is_key k0) eqn:Hk0; [|discriminate].
  apply find_split_char_inv in Hsplit as [Hl _].
  destruct rest as [|c' tok].
  - intros [= <- <-]. split; [exact Hk0|]. split; [by vm_compute | eauto].
  - destruct (bool_decide (c' = Yaml.space)); [|discriminate].
    destruct (Yaml.scalar tok) as [v0|] eqn:Htok; [|discriminate].
    intros [= <- <-]. split; [exact Hk0|]. split; [|eauto].
    by apply (scalar_to_string tok).
Qed.

Lemma strip_prefix_keys (c : ascii) (a b rest : string) :
  Str.all_chars (λ x, negb (bool_decide (x = c))) a = true →
  Str.all_chars (λ x, negb (bool_decide (x = c))) b = true →
  Str.starts_with (a +:+ String c "") (b +:+ String c rest) = bool_decide (b = a).
Proof.
  intros Ha Hb. unfold Str.starts_with. apply bool_decide_ext.
  revert b Hb. induction a as [|x a IH]; intros b Hb.
  - rewrite app_nil_l_s. destruct b as [|y b].
    + rewrite app_nil_l_s. simpl. rewrite decide_True by reflexivity.
      split; eauto.
    + rewrite app_cons_s. simpl in *.
      apply andb_true_iff in Hb as [Hy _].
      apply negb_true_iff, bool_decide_eq_false in Hy.
      rewrite decide_False by congruence.
      split; [intros [? [=]] | discriminate].
  - rewrite app_cons_s. simpl in Ha. apply andb_true_iff in Ha as [Hx Ha].
    apply negb_true_iff, bool_decide_eq_false in Hx.
    destruct b as [|y b].
    + rewrite app_nil_l_s. simpl. rewrite decide_False by congruence.
      split; [intros [? [=]] | discriminate].
    + rewrite app_cons_s. simpl in Hb. apply andb_true_iff in Hb as [_ Hb]. simpl.
      destruct (decide (x = y)) as [->|Hxy].
      * rewrite (IH Ha b Hb). split; [intros ->; reflexivity | intros [= ->]; reflexivity].
      * split; [intros [? [=]] | congruence].
Qed.

(** Among the lines of the format, [^key:.*$] matches the entry of
    [key] and nothing else. *)
Lemma starts_with_entry (l k key : string) (v : value) :
  Yaml.is_key key = true →
  Yaml.read_line l = Some (Some (k, v)) →
  Str.starts_with (key +:+ ":") l = bool_decide (k = key).
Proof.
  intros Hkey Hl. apply read_line_entry_inv in Hl as (Hk & _ & rest & ->).
  change ":" with (String Path.colon "").
  apply strip_prefix_keys; by apply key_no_colon.
Qed.

Lemma starts_with_other (l key : string) :
  Yaml.is_key key = true →
  Yaml.read_line l = Some None →
  Str.starts_with (key +:+ ":") l = false.
Proof.
  intros Hkey. destruct (is_key_chars key Hkey) as (_ & c & k' & -> & Hhash).
  unfold Str.starts_with. rewrite app_cons_s.
  destruct l as [|x l]; [intros _; apply bool_decide_eq_false_2, is_Some_None|].
  unfold Yaml.read_line.
  destruct (negb (Str.all_chars Yaml.is_printable (String x l))); [discriminate|].
  destruct (bool_decide (x = Yaml.hash)) eqn:Hx.
  - intros _. apply bool_decide_eq_true in Hx as ->. simpl.
    rewrite decide_False by exact Hhash. apply bool_decide_eq_false_2, is_Some_None.
  - change ":" with (String Path.colon "").
    destruct (Str.find_split _ _) as [[k0 rest]|]; [|discriminate].
    destruct (Yaml.is_key k0); [|discriminate].
    destruct rest as [|c' tok]; [discriminate|].
    destruct (bool_decide (c' = Yaml.space)); [|discriminate].
    destruct (Yaml.scalar tok); discriminate.
Qed.

(** ** Documents of the format *)

Lemma keys_app (a b : obj) : keys (a ++ b)%list = (keys a ++ keys b)%list.
Proof. unfold keys. apply fmap_app. Qed.

Lemma includes_false (k : string) (ks : list string) :
  includes k ks = false ↔ k ∉ ks.
Proof. unfold includes. apply bool_decide_eq_false. Qed.

Lemma includes_true (k : string) (ks : list string) :
  includes k ks = true ↔ k ∈ ks.
Proof. unfold includes. apply bool_decide_eq_true. Qed.

(** What a successful read guarantees: the entries read extend the
    ones it started from, keys stay distinct, every entry is one of the
    format. *)
Lemma read_lines_inv (ls : list string) (acc o : obj) :
  Yaml.read_lines ls acc = Some o →
  Forall Aux.entry_ok acc → NoDup (keys acc) →
  Forall Aux.entry_ok o ∧ NoDup (keys o) ∧ ∃ added, o = (acc ++ added)%list.
Proof.
  revert acc. induction ls as [|l ls IH]; intros acc; simpl.
  - intros [= <-] Hok Hnd. split; [exact Hok|]. split; [exact Hnd|].
    exists []. by rewrite app_nil_r.
  - destruct (Yaml.read_line l) as [[[k v]|]|] eqn:Hl; [|apply IH|discriminate].
    destruct (includes k (keys acc)) eqn:Hin; [discriminate|].
    intros Hread Hok Hnd.
    apply includes_false in Hin.
    destruct (read_line_entry_inv _ _ _ Hl) as (Hk & Hv & _).
    destruct (IH (acc ++ [(k, v)])%list Hread) as (Hok' & Hnd' & added & ->).
    + apply Forall_app. split; [exact Hok|]. apply Forall_singleton. by split.
    + rewrite keys_app. apply NoDup_app. split; [exact Hnd|]. split.
      * intros x Hx Hx'. apply list_elem_of_singleton in Hx'. simpl in Hx'. by subst.
      * apply NoDup_singleton.
    + split; [exact Hok'|]. split; [exact Hnd'|].
      exists ((k, v) :: added). by rewrite <- app_assoc.
Qed.

Lemma read_from_inv (text : string) (o : obj) :
  Aux.read_from [] text = Some o →
  Forall Aux.entry_ok o ∧ NoDup (keys o).
Proof.
  unfold Aux.read_from. cbv zeta. destruct (forallb _ _); [|discriminate].
  intros Hread. destruct (read_lines_inv _ _ _ Hread) as (Hok & Hnd & _).
  - constructor.
  - constructor.
  - auto.
Qed.

(** Reading the text of a new entry after a text already read. *)
Lemma read_from_entry_text (raw : string) (cur : obj) (k : string) (v : value)
    (msg : option string) :
  Aux.read_from [] raw = Some cur →
  k ∉ keys cur →
  Aux.entry_ok (k, v) →
  (truthy msg = true → Str.all_chars Yaml.is_printable (default "" msg) = true) →
  Aux.read_from [] (raw +:+ Properties.entry_text k v msg)
  = Some (cur ++ [(k, v)])%list.
Proof.
  intros Hraw Hk [Hkey Hv] Hmsg. unfold Properties.entry_text.
  replace (lf +:+ k +:+ ": " +:+ to_string v +:+ lf +:+
           (if truthy msg then "# " +:+ default "" msg +:+ lf else ""))
    with (String Lines.LF
            ((k +:+ ": " +:+ to_string v) +:+ String Lines.LF
             (if truthy msg then "# " +:+ default "" msg +:+ lf else "")))
    by (rewrite !app_assoc_s; reflexivity).
  rewrite (read_from_app _ _ _ _ Hraw).
  assert (Hline : Aux.read_from cur (k +:+ ": " +:+ to_string v)
                  = Some (cur ++ [(k, v)])%list).
  { unfold Aux.read_from. cbv zeta.
    pose proof (read_line_entry k v Hkey Hv) as Hl.
    rewrite split_clean
      by (apply printable_is_clean; eapply read_line_printable; exact Hl).
    simpl. rewrite Hl.
    rewrite (proj2 (includes_false _ _)) by exact Hk. reflexivity. }
  rewrite (read_from_app _ _ _ _ Hline).
  destruct (truthy msg) eqn:Ht.
  - specialize (Hmsg eq_refl).
    replace ("# " +:+ default "" msg +:+ lf)
      with (("# " +:+ default "" msg) +:+ String Lines.LF "")
      by (rewrite !app_assoc_s; reflexivity).
    assert (Hc : Aux.read_from (cur ++ [(k, v)])%list ("# " +:+ default "" msg)
                 = Some (cur ++ [(k, v)])%list).
    { unfold Aux.read_from. cbv zeta.
      pose proof (read_line_comment _ Hmsg) as Hl.
      rewrite split_clean
        by (apply printable_is_clean; eapply read_line_printable; exact Hl).
      cbn [map fst forallb snd negb Yaml.read_lines].
      rewrite bool_decide_eq_false_2 by discriminate.
      cbn [negb andb Yaml.read_lines]. rewrite Hl. reflexivity. }
    rewrite (read_from_app _ _ _ _ Hc). apply read_from_empty.
  - apply read_from_empty.
Qed.

(** ** The replacement of an entry line *)

Lemma substitution_plain (by_ matched before after : string) :
  Aux.no_dollar by_ = true →
  RegExp.substitution by_ matched before after = by_.
Proof.
  unfold Aux.no_dollar. induction by_ as [|c rest IH]; simpl; [reflexivity|].
  rewrite andb_true_iff, negb_true_iff. intros [Hc Hrest].
  rewrite Hc. f_equal. auto.
Qed.

Lemma replace_segments_map (key by_ before : string)
    (segs : list (string * option ascii)) :
  Aux.no_dollar by_ = true →
  RegExp.replace_segments key by_ before segs
  = Lines.unsplit
      (map (λ seg, (if Str.starts_with (key +:+ ":") seg.1 then by_ else seg.1, seg.2))
         segs).
Proof.
  intros Hby. revert before. induction segs as [|[l t] segs IH]; intros before.
  - reflexivity.
  - cbn [RegExp.replace_segments map Lines.unsplit fst snd].
    rewrite IH. destruct (Str.starts_with (key +:+ ":") l); [|reflexivity].
    rewrite substitution_plain by exact Hby. reflexivity.
Qed.

Lemma well_split_cons l t seg segs :
  Aux.well_split ((l, t) :: seg :: segs)
  = Aux.clean l
    && match t with Some c => Lines.is_terminator c | None => false end
    && Aux.well_split (seg :: segs).
Proof. reflexivity. Qed.

Lemma well_split_one l t :
  Aux.well_split [(l, t)] = Aux.clean l && bool_decide (t = None).
Proof. reflexivity. Qed.

Lemma clean_cons c l :
  Aux.clean (String c l) = negb (Lines.is_terminator c) && Aux.clean l.
Proof. reflexivity. Qed.

Lemma split_well (s : string) : Aux.well_split (Lines.split s) = true.
Proof.
  induction s as [|c s IH]; [reflexivity|]. simpl.
  pose proof (split_nonnil s) as Hne.
  destruct (Lines.is_terminator c) eqn:Hc.
  - destruct (Lines.split s) as [|seg segs]; [done|].
    rewrite well_split_cons, IH, Hc. reflexivity.
  - destruct (Lines.split s) as [|[l t] segs]; [done|].
    destruct segs as [|seg segs].
    + rewrite well_split_one in *. by rewrite clean_cons, Hc.
    + rewrite well_split_cons in *. by rewrite clean_cons, Hc.
Qed.

Lemma split_unsplit (segs : list (string * option ascii)) :
  Aux.well_split segs = true → Lines.split (Lines.unsplit segs) = segs.
Proof.
  induction segs as [|[l t] segs IH]; [discriminate|].
  destruct segs as [|seg segs].
  - rewrite well_split_one, andb_true_iff, bool_decide_eq_true.
    intros [Hl ->]. cbn [Lines.unsplit Lines.terminator].
    rewrite !app_nil_r_s. by apply split_clean.
  - rewrite well_split_cons, !andb_true_iff. intros [[Hl Ht] Hrest].
    destruct t as [c|]; [|discriminate].
    change (Lines.unsplit ((l, Some c) :: seg :: segs))
      with (l +:+ String c "" +:+ Lines.unsplit (seg :: segs)).
    change (String c "" +:+ Lines.unsplit (seg :: segs))
      with (String c (Lines.unsplit (seg :: segs))).
    rewrite split_app_terminator by exact Ht.
    rewrite (IH Hrest), (split_clean l Hl). reflexivity.
Qed.

Lemma obj_update_keys (k : string) (v : value) (o : obj) :
  keys (Aux.obj_update k v o) = keys o.
Proof.
  induction o as [|[k0 v0] o IH]; [reflexivity|].
  change (keys (Aux.obj_update k v ((k0, v0) :: o)))
    with ((if decide (k0 = k) then (k, v) else (k0, v0)).1
          :: keys (Aux.obj_update k v o)).
  rewrite IH. destruct (decide (k0 = k)) as [->|]; reflexivity.
Qed.

Lemma obj_update_app (k : string) (v : value) (a b : obj) :
  Aux.obj_update k v (a ++ b)%list
  = (Aux.obj_update k v a ++ Aux.obj_update k v b)%list.
Proof. unfold Aux.obj_update. apply map_app. Qed.

Lemma obj_get_update (k : string) (v : value) (o : obj) :
  k ∈ keys o → obj_get k (Aux.obj_update k v o) = Some v.
Proof.
  unfold keys, Aux.obj_update. induction o as [|[k0 v0] o IH]; simpl.
  - intros H. inversion H.
  - rewrite elem_of_cons. simpl. intros [->|Hin].
    + rewrite decide_True by reflexivity. simpl. by rewrite decide_True.
    + destruct (decide (k0 = k)) as [->|Hne]; simpl.
      * by rewrite decide_True.
      * rewrite decide_False by congruence. auto.
Qed.

Lemma obj_get_update_ne (k k' : string) (v : value) (o : obj) :
  k' ≠ k → obj_get k' (Aux.obj_update k v o) = obj_get k' o.
Proof.
  intros Hne. unfold Aux.obj_update. induction o as [|[k0 v0] o IH]; simpl; [reflexivity|].
  destruct (decide (k0 = k)) as [->|Hk0]; simpl.
  - rewrite !decide_False by congruence. exact IH.
  - destruct (decide (k' = k0)); [reflexivity | exact IH].
Qed.

(** With distinct keys, updating in place is assigning the property. *)
Lemma obj_update_set (k : string) (v : value) (o : obj) :
  NoDup (keys o) → k ∈ keys o → Aux.obj_update k v o = obj_set k v o.
Proof.
  unfold keys, Aux.obj_update. induction o as [|[k0 v0] o IH]; simpl.
  - intros _ H. inversion H.
  - rewrite NoDup_cons, elem_of_cons. simpl. intros [Hk0 Hnd] Hin.
    destruct (decide (k0 = k)) as [->|Hne].
    + rewrite decide_True by reflexivity. f_equal.
      clear IH Hin Hnd. induction o as [|[k1 v1] o IHo]; [reflexivity|].
      simpl in *. apply not_elem_of_cons in Hk0 as [Hne Hk0].
      rewrite decide_False by congruence. f_equal. auto.
    + rewrite decide_False by congruence. f_equal.
      destruct Hin as [->|Hin]; [done|]. auto.
Qed.

(** Reading the lines after the entry of [key] was rewritten. *)
Lemma read_lines_update (key by_ : string) (v : value) (ls : list string) (acc o : obj) :
  Yaml.is_key key = true →
  Yaml.read_line by_ = Some (Some (key, v)) →
  Yaml.read_lines ls acc = Some o →
  Yaml.read_lines
    (map (λ l, if Str.starts_with (key +:+ ":") l then by_ else l) ls)
    (Aux.obj_update key v acc)
  = Some (Aux.obj_update key v o).
Proof.
  intros Hkey Hby. revert acc. induction ls as [|l ls IH]; intros acc; simpl.
  - by intros [= <-].
  - destruct (Yaml.read_line l) as [[[k v0]|]|] eqn:Hl; [| |discriminate].
    + rewrite (starts_with_entry _ _ _ _ Hkey Hl).
      destruct (includes k (keys acc)) eqn:Hin; [discriminate|]. intros Hread.
      destruct (decide (k = key)) as [->|Hne].
      * rewrite bool_decide_eq_true_2 by reflexivity. rewrite Hby.
        rewrite obj_update_keys, Hin.
        rewrite <- (IH _ Hread), obj_update_app. simpl.
        by rewrite decide_True.
      * rewrite bool_decide_eq_false_2 by exact Hne. rewrite Hl.
        rewrite obj_update_keys, Hin.
        rewrite <- (IH _ Hread), obj_update_app. simpl.
        by rewrite decide_False.
    + rewrite (starts_with_other _ _ Hkey Hl), Hl. apply IH.
Qed.

(** The text [setValue] writes reads as the old mapping with the
    entry of [key] updated. *)
Lemma read_from_replace (raw key : string) (v : value) (cur : obj) :
  Aux.read_from [] raw = Some cur →
  Aux.entry_ok (key, v) →
  Aux.read_from []
    (RegExp.replace_key_lines key raw (key +:+ ": " +:+ to_string v))
  = Some (Aux.obj_update key v cur).
Proof.
  intros Hraw [Hkey Hv]. simpl in Hkey, Hv.
  pose proof (read_line_entry key v Hkey Hv) as Hby.
  assert (Hplain : ∀ s, Str.all_chars Yaml.plain_char s = true → Aux.no_dollar s = true).
  { intros s. apply all_chars_impl. intros c Hc.
    apply plain_char_facts in Hc. rewrite negb_true_iff, bool_decide_eq_false. tauto. }
  assert (Hnd : Aux.no_dollar (key +:+ ": " +:+ to_string v) = true).
  { unfold Aux.no_dollar. rewrite !all_chars_app, !andb_true_iff. split; [|split].
    - apply Hplain. destruct (is_key_chars key Hkey) as [Hkc _].
      revert Hkc. apply all_chars_impl, key_char_plain.
    - reflexivity.
    - apply Hplain. by destruct (scalar_to_string _ _ Hv). }
  pose proof (read_line_printable _ _ Hby) as Hprint.
  unfold RegExp.replace_key_lines. rewrite replace_segments_map by exact Hnd.
  revert Hraw. unfold Aux.read_from. cbv zeta.
  destruct (forallb _ (Lines.split raw)) eqn:Hcr; [|discriminate]. intros Hread.
  pose proof (split_well raw) as Hwell.
  set (by_ := key +:+ ": " +:+ to_string v) in *.
  set (f := λ seg : string * option ascii,
              (if Str.starts_with (key +:+ ":") seg.1 then by_ else seg.1, seg.2)).
  assert (Hwell' : Aux.well_split (map f (Lines.split raw)) = true).
  { revert Hwell. generalize (Lines.split raw) as segs.
    induction segs as [|[l t] segs IH]; [done|].
    assert (Hclean : Aux.clean l = true → Aux.clean (f (l, t)).1 = true).
    { intros Hl. unfold f. simpl. destruct (Str.starts_with _ l); [|exact Hl].
      apply printable_is_clean, Hprint. }
    destruct segs as [|seg segs].
    - change (map f [(l, t)]) with [((f (l, t)).1, t)].
      rewrite !well_split_one, !andb_true_iff. intros [Hl Ht].
      split; [by apply Hclean | exact Ht].
    - change (map f ((l, t) :: seg :: segs))
        with (((f (l, t)).1, t) :: f seg :: map f segs).
      change (f seg :: map f segs) with (map f (seg :: segs)) in IH.
      rewrite !well_split_cons, !andb_true_iff. intros [[Hl Ht] Hrest].
      split; [split; [by apply Hclean | exact Ht]|]. by apply IH. }
  rewrite (split_unsplit _ Hwell').
  replace (forallb (λ seg, negb (bool_decide (seg.2 = Some Lines.CR)))
             (map f (Lines.split raw))) with true.
  2:{ symmetry. rewrite <- Hcr. clear. induction (Lines.split raw) as [|[l t] segs IH];
        [reflexivity|]. simpl. by rewrite IH. }
  replace (map fst (map f (Lines.split raw)))
    with (map (λ l, if Str.starts_with (key +:+ ":") l then by_ else l)
            (map fst (Lines.split raw))).
  2:{ rewrite !map_map. reflexivity. }
  apply (read_lines_update key by_ v _ [] cur Hkey Hby Hread).
Qed.

(** ** The characters of a document *)

Lemma find_split_char_none (c : ascii) (s : string) :
  Str.find_split (String c "") s = None →
  Str.all_chars (λ x, negb (bool_decide (x = c))) s = true.
Proof.
  induction s as [|x s IH]; simpl; [reflexivity|].
  destruct (decide (c = x)) as [->|Hne]; [discriminate|].
  destruct (Str.find_split (String c "") s) as [[b a]|]; [discriminate|].
  intros _. rewrite bool_decide_eq_false_2 by congruence. simpl. auto.
Qed.

Lemma read_lines_printable (ls : list string) (acc o : obj) :
  Yaml.read_lines ls acc = Some o →
  Forall (λ l, Str.all_chars Yaml.is_printable l = true) ls.
Proof.
  revert acc. induction ls as [|l ls IH]; intros acc; simpl; [constructor|].
  destruct (Yaml.read_line l) as [r|] eqn:Hl; [|discriminate].
  pose proof (read_line_printable _ _ Hl) as Hp.
  destruct r as [[k v]|].
  - destruct (includes k (keys acc)); [discriminate|]. intros H. constructor; eauto.
  - intros H. constructor; eauto.
Qed.

Lemma terminator_cases (c : ascii) :
  Lines.is_terminator c = true → c = Lines.LF ∨ c = Lines.CR.
Proof.
  unfold Lines.is_terminator. rewrite orb_true_iff, !bool_decide_eq_true. tauto.
Qed.

(** A document of the format is made of printable characters and line
    feeds. *)
Lemma read_from_chars (acc o : obj) (text : string) :
  Aux.read_from acc text = Some o → Aux.ascii_text text = true.
Proof.
  unfold Aux.read_from, Aux.ascii_text. cbv zeta.
  destruct (forallb _ (Lines.split text)) eqn:Hcr; [|discriminate]. intros Hread.
  apply read_lines_printable in Hread.
  revert Hcr Hread. clear. induction text as [|c s IH]; [reflexivity|].
  simpl. pose proof (split_nonnil s) as Hne.
  destruct (Lines.is_terminator c) eqn:Hc.
  - simpl. rewrite andb_true_iff, negb_true_iff, bool_decide_eq_false.
    intros [Hcr Hrest] Hp. inversion Hp; subst.
    destruct (terminator_cases c Hc) as [-> | ->]; [|congruence].
    rewrite bool_decide_eq_true_2 by reflexivity. rewrite orb_true_r. simpl. auto.
  - destruct (Lines.split s) as [|[l t] rest]; [done|].
    simpl. rewrite andb_true_iff. intros [Ht Hrest] Hp. inversion Hp; subst.
    simpl in H1. apply andb_true_iff in H1 as [Hpc Hpl].
    rewrite Hpc. simpl. apply IH.
    + simpl. by rewrite Ht, Hrest.
    + constructor; assumption.
Qed.

(** The comment copied from a template of the format is a printable
    line. *)
Lemma template_comment_printable (template key : string) (defs : obj) :
  Aux.read_from [] template = Some defs →
  Str.all_chars Yaml.is_printable (Properties.template_comment template key) = true.
Proof.
  intros Hread. apply read_from_chars in Hread.
  unfold Properties.template_comment, Str.split_snd.
  destruct (Str.find_split (lf +:+ key +:+ ":") template) as [[b0 rest0]|] eqn:H0;
    [|reflexivity].
  destruct (find_split_all_chars _ _ _ _ _ H0 Hread) as [_ Hrest0].
  set (fetch := match Str.find_split (lf +:+ key +:+ ":") rest0 with
                | Some (a, _) => a
                | None => rest0
                end).
  assert (Hfetch : Str.all_chars
                     (λ c, Yaml.is_printable c || bool_decide (c = Lines.LF)) fetch = true).
  { unfold fetch. destruct (Str.find_split _ rest0) as [[a b]|] eqn:H1; [|exact Hrest0].
    by destruct (find_split_all_chars _ _ _ _ _ H1 Hrest0). }
  destruct (bool_decide (fetch = "")); [reflexivity|].
  change lf with (String Lines.LF "").
  destruct (Str.find_split (String Lines.LF "") fetch) as [[b1 rest1]|] eqn:H2;
    [|reflexivity].
  destruct (find_split_all_chars _ _ _ _ _ H2 Hfetch) as [_ Hrest1].
  set (line := match Str.find_split (String Lines.LF "") rest1 with
               | Some (a, _) => a
               | None => rest1
               end).
  assert (Hline : Str.all_chars
                    (λ c, Yaml.is_printable c || bool_decide (c = Lines.LF)) line = true
                  ∧ Str.all_chars (λ x, negb (bool_decide (x = Lines.LF))) line = true).
  { unfold line. destruct (Str.find_split _ rest1) as [[a b]|] eqn:H3.
    - split; [by destruct (find_split_all_chars _ _ _ _ _ H3 Hrest1)|].
      by destruct (find_split_char_inv _ _ _ _ H3).
    - split; [exact Hrest1 | by apply find_split_char_none]. }
  destruct (Str.starts_with "#" line); [|reflexivity].
  destruct Hline as [Hl1 Hl2]. clear -Hl1 Hl2.
  induction line as [|c l IH]; [reflexivity|]. simpl in *.
  apply andb_true_iff in Hl1 as [Hc Hl1]. apply andb_true_iff in Hl2 as [Hc2 Hl2].
  apply negb_true_iff in Hc2. rewrite Hc2, orb_false_r in Hc. rewrite Hc. simpl. auto.
Qed.

Lemma obj_get_app_l (k : string) (a b : obj) :
  k ∈ keys a → obj_get k (a ++ b)%list = obj_get k a.
Proof.
  induction a as [|[k0 v0] a IH]; [intros H; inversion H|].
  change (keys ((k0, v0) :: a)) with (k0 :: keys a). rewrite elem_of_cons. simpl.
  destruct (decide (k = k0)); [reflexivity|]. intros [?|?]; [done | auto].
Qed.

Lemma obj_get_app_r (k : string) (a b : obj) :
  k ∉ keys a → obj_get k (a ++ b)%list = obj_get k b.
Proof.
  induction a as [|[k0 v0] a IH]; [reflexivity|].
  change (keys ((k0, v0) :: a)) with (k0 :: keys a). rewrite not_elem_of_cons. simpl.
  intros [Hne Hk]. rewrite decide_False by exact Hne. auto.
Qed.



(** * The configuration store on files of the line format *)

Section PropertiesOnFormat.

Variable parse : string → option value.
Variable replace_key_lines : string → string → string → option string.
Variable debugEnabled : bool.
Variable path template relative : string.

(** The parser reads the documents of the line format as [read_doc]
    does, and the RegExp of [setValue], built from an identifier key and
    applied to ASCII texts, rewrites the lines as
    [RegExp.replace_key_lines] does.  Nothing is assumed about other
    texts and other keys. *)
Hypothesis parse_reads :
  ∀ text v, Yaml.read_doc text = Some v → parse text = Some v.
Hypothesis replace_reads :
  ∀ key raw by_,
    Yaml.is_key key = true →
    Aux.ascii_text raw = true → Aux.ascii_text by_ = true →
    replace_key_lines key raw by_ = Some (RegExp.replace_key_lines key raw by_).

Local Abbreviation read := (Properties.read parse debugEnabled path template relative).
Local Abbreviation write := (Properties.write parse debugEnabled path template relative).
Local Abbreviation setValue_f :=
  (Properties.setValue_f parse replace_key_lines debugEnabled path template relative).
Local Abbreviation addValue_f :=
  (Properties.addValue_f parse replace_key_lines debugEnabled path template relative).
Local Abbreviation constructor :=
  (Properties.constructor parse replace_key_lines debugEnabled path template relative).

Lemma read_doc_obj (text : string) (o : obj) :
  Yaml.read_doc text = Some (VObj o) ↔ Aux.read_from [] text = Some o ∧ o ≠ [].
Proof.
  rewrite read_doc_read_from.
  destruct (Aux.read_from [] text) as [[|kv o']|]; split.
  - discriminate.
  - intros [[= <-] H]. done.
  - intros [= <-]. done.
  - intros [[= <-] _]. reflexivity.
  - discriminate.
  - intros [[=] _].
Qed.

(** [write] with a text of the format in [raw]: the file holds the
    text and [values] is what the text reads as. *)
Lemma write_in_format (s : Properties.state) (o : obj) :
  Aux.read_from [] (Properties.raw s) = Some o → o ≠ [] →
  write s
  = Some (Properties.set_values (VObj o)
            (Properties.set_raw (Properties.raw s)
               (Properties.emit (FsRead path)
                  (Properties.emit (FsWrite path (Properties.raw s))
                     (Properties.set_files (insert path (Properties.raw s)) s)))),
          Ok tt).
Proof.
  intros Hread Hne. unfold Properties.write.
  unfold bind at 1. unfold gets at 1. unfold bind at 1.
  unfold Properties.writeFileSync at 1. unfold modify at 1. unfold bind at 1.
  rewrite (read_present parse debugEnabled path template relative _ (Properties.raw s))
    by (simpl; apply lookup_insert_eq).
  rewrite (parse_reads _ (VObj o)) by (by apply read_doc_obj).
  reflexivity.
Qed.

(** [addValue] on an absent key of a store in the format. *)
Lemma addValue_in_format (n : nat) (s : Properties.state) (cur : obj)
    (k : string) (v : value) (msg : option string) :
  Properties.values s = VObj cur →
  Aux.read_from [] (Properties.raw s) = Some cur →
  k ∉ keys cur →
  Aux.entry_ok (k, v) →
  (truthy msg = true → Str.all_chars Yaml.is_printable (default "" msg) = true) →
  ∃ s', addValue_f (S n) k v msg s = Some (s', Ok tt)
        ∧ Properties.values s' = VObj (cur ++ [(k, v)])%list
        ∧ Properties.raw s' = Properties.raw s +:+ Properties.entry_text k v msg
        ∧ Properties.files s' = <[path := Properties.raw s']> (Properties.files s).
Proof.
  intros Hvals Hread Hk Hok Hmsg.
  pose proof (read_from_entry_text _ _ _ _ msg Hread Hk Hok Hmsg) as Hnew.
  cbn [Properties.addValue_f].
  unfold bind at 1. unfold gets at 1. rewrite Hvals.
  unfold bind at 1. unfold lift at 1. cbn [object_keys own_props].
  rewrite (proj2 (includes_false _ _)) by exact Hk.
  unfold bind at 1. unfold lift at 1. cbn [set_prop].
  unfold bind at 1. unfold modify at 1.
  unfold bind at 1. unfold modify at 1.
  unfold bind at 1.
  set (s1 := Properties.set_raw _ (Properties.set_values _ s)).
  assert (Hs2 : ∃ s2, when (truthy msg)
                        (modify (λ s0, Properties.set_raw
                                         (Properties.raw s0 +:+ "# " +:+ default "" msg +:+ lf)
                                         s0)) s1 = Some (s2, Ok tt)
                      ∧ Properties.raw s2 = Properties.raw s +:+ Properties.entry_text k v msg
                      ∧ Properties.files s2 = Properties.files s).
  { unfold Properties.entry_text, when, modify, ret.
    destruct (truthy msg); eexists; (split; [reflexivity|]); simpl.
    - split; [|reflexivity]. rewrite ?app_assoc_s. reflexivity.
    - split; [|reflexivity]. rewrite ?app_assoc_s, ?app_nil_r_s. reflexivity. }
  destruct Hs2 as (s2 & -> & Hraw2 & Hfiles2).
  rewrite (write_in_format s2 (cur ++ [(k, v)])%list).
  - eexists. split; [reflexivity|]. simpl. rewrite Hraw2, Hfiles2. auto.
  - rewrite Hraw2. exact Hnew.
  - destruct cur; discriminate.
Qed.

(** [setValue] on a present key of a store in the format. *)
Lemma setValue_in_format (n : nat) (s : Properties.state) (cur : obj)
    (key : string) (v : value) :
  Properties.values s = VObj cur →
  Aux.read_from [] (Properties.raw s) = Some cur →
  key ∈ keys cur →
  Yaml.scalar (to_string v) = Some v →
  ∃ s', setValue_f (S n) key v s = Some (s', Ok tt)
        ∧ Properties.values s' = VObj (obj_set key v cur)
        ∧ Aux.read_from [] (Properties.raw s') = Some (obj_set key v cur)
        ∧ Properties.raw s'
          = RegExp.replace_key_lines key (Properties.raw s) (key +:+ ": " +:+ to_string v)
        ∧ Properties.files s' = <[path := Properties.raw s']> (Properties.files s).
Proof.
  intros Hvals Hread Hk Hv.
  destruct (read_from_inv _ _ Hread) as [Hoks Hnd].
  assert (Hkey : Yaml.is_key key = true).
  { apply list_elem_of_fmap in Hk as ([k0 v0] & -> & Hin).
    rewrite Forall_forall in Hoks. by destruct (Hoks _ Hin). }
  assert (Hok : Aux.entry_ok (key, v)) by (by split).
  pose proof (read_from_replace _ _ _ _ Hread Hok) as Hnew.
  rewrite (obj_update_set _ _ _ Hnd Hk) in Hnew.
  cbn [Properties.setValue_f].
  unfold bind at 1. unfold gets at 1. rewrite Hvals.
  unfold bind at 1. unfold lift at 1. cbn [object_keys own_props].
  rewrite (proj2 (includes_true _ _)) by exact Hk.
  change (negb true) with false. cbv iota.
  unfold bind at 1. unfold lift at 1. cbn [set_prop].
  unfold bind at 1. unfold modify at 1.
  unfold bind at 1. unfold gets at 1.
  cbn [Properties.raw Properties.set_values].
  rewrite replace_reads;
    [| exact Hkey
     | by apply (read_from_chars [] cur)
     | eapply all_chars_impl;
         [| exact (read_line_printable _ _ (read_line_entry key v Hkey Hv))];
       intros c Hc; by rewrite Hc ].
  unfold bind at 1. unfold modify at 1.
  rewrite (write_in_format _ (obj_set key v cur)).
  - eexists. split; [reflexivity|]. simpl. auto.
  - exact Hnew.
  - destruct cur as [|[k0 v0] cur]; simpl; [|destruct (decide (key = k0))]; discriminate.
Qed.

Lemma missing_cons_in (cur : obj) (k : string) (v : value) (defs : obj) :
  k ∈ keys cur → Aux.missing cur ((k, v) :: defs) = Aux.missing cur defs.
Proof. intros Hk. unfold Aux.missing. rewrite filter_cons_False; [reflexivity|]. simpl. auto. Qed.

Lemma missing_cons_out (cur : obj) (k : string) (v : value) (defs : obj) :
  k ∉ keys cur → Aux.missing cur ((k, v) :: defs) = (k, v) :: Aux.missing cur defs.
Proof. intros Hk. unfold Aux.missing. by rewrite filter_cons_True. Qed.

Lemma missing_grow (cur : obj) (k : string) (v : value) (defs : obj) :
  k ∉ keys defs →
  Aux.missing (cur ++ [(k, v)])%list defs = Aux.missing cur defs.
Proof.
  induction defs as [|[k0 v0] defs IH]; [reflexivity|].
  change (keys ((k0, v0) :: defs)) with (k0 :: keys defs).
  rewrite not_elem_of_cons. intros [Hne Hk].
  destruct (decide (k0 ∈ keys cur)) as [Hin|Hout].
  - rewrite !missing_cons_in; [by apply IH | exact Hin |].
    rewrite keys_app, elem_of_app. by left.
  - rewrite !missing_cons_out; [by rewrite IH | exact Hout |].
    rewrite keys_app, elem_of_app. change (keys [(k, v)]) with [k].
    rewrite list_elem_of_singleton. intros [?|?]; [done | congruence].
Qed.

(** The reconciliation loop of the constructor on a store in the
    format: it appends the text of the missing entries, in template
    order, and [values] gains exactly these entries. *)
Lemma reconcile_in_format (n : nat) (defs : obj) (s : Properties.state) (cur : obj) :
  Properties.values s = VObj cur →
  Aux.read_from [] (Properties.raw s) = Some cur →
  Properties.files s !! path = Some (Properties.raw s) →
  Forall Aux.entry_ok defs → NoDup (keys defs) →
  (∀ k, Str.all_chars Yaml.is_printable (Properties.template_comment template k) = true) →
  ∃ s', for_each defs
          (λ kv,
             let* vs := gets Properties.values in
             let* ks := lift (object_keys vs) in
             if negb (includes kv.1 ks)
             then addValue_f (S n) kv.1 kv.2
                    (Some (Properties.template_comment template kv.1))
             else ret tt) s
        = Some (s', Ok tt)
        ∧ Properties.values s' = VObj (cur ++ Aux.missing cur defs)%list
        ∧ Aux.read_from [] (Properties.raw s') = Some (cur ++ Aux.missing cur defs)%list
        ∧ Properties.raw s'
          = Properties.raw s +:+ Aux.entries_text template (Aux.missing cur defs)
        ∧ Properties.files s' = <[path := Properties.raw s']> (Properties.files s).
Proof.
  intros Hvals Hread Hfile Hoks Hnd Hcmt.
  revert s cur Hvals Hread Hfile.
  induction defs as [|[k v] defs IH]; intros s cur Hvals Hread Hfile.
  - exists s. split; [reflexivity|]. unfold Aux.missing. rewrite filter_nil. simpl.
    rewrite app_nil_r, app_nil_r_s, insert_id by exact Hfile. auto.
  - apply Forall_cons in Hoks as [Hok Hoks].
    change (keys ((k, v) :: defs)) with (k :: keys defs) in Hnd.
    apply NoDup_cons in Hnd as [Hk Hnd].
    cbn [for_each fst snd].
    unfold bind at 1. unfold bind at 1. unfold gets at 1. rewrite Hvals.
    unfold bind at 1. unfold lift at 1. cbn [object_keys own_props].
    destruct (includes k (keys cur)) eqn:Hin.
    + change (negb true) with false. cbv iota. unfold ret at 1.
      apply includes_true in Hin. rewrite missing_cons_in by exact Hin.
      apply (IH Hoks Hnd s cur Hvals Hread Hfile).
    + change (negb false) with true. cbv iota.
      apply includes_false in Hin.
      destruct (addValue_in_format n s cur k v
                  (Some (Properties.template_comment template k)) Hvals Hread Hin Hok)
        as (s1 & Hrun & Hvals1 & Hraw1 & Hfiles1).
      { intros _. apply Hcmt. }
      rewrite Hrun.
      assert (Hread1 : Aux.read_from [] (Properties.raw s1) = Some (cur ++ [(k, v)])%list).
      { rewrite Hraw1. apply read_from_entry_text; auto. intros _. apply Hcmt. }
      destruct (IH Hoks Hnd s1 (cur ++ [(k, v)])%list Hvals1 Hread1)
        as (s' & Hloop & Hvals' & Hread' & Hraw' & Hfiles').
      { rewrite Hfiles1. apply lookup_insert_eq. }
      exists s'. split; [exact Hloop|].
      rewrite missing_grow in Hvals', Hread', Hraw' by exact Hk.
      rewrite missing_cons_out by exact Hin.
      rewrite <- app_assoc in Hvals', Hread'. simpl in Hvals', Hread'.
      split; [exact Hvals'|]. split; [exact Hread'|]. split.
      * rewrite Hraw', Hraw1. cbn [Aux.entries_text fold_right fst snd].
        rewrite !app_assoc_s. reflexivity.
      * rewrite Hfiles', Hfiles1. apply insert_insert_eq.
Qed.

(** Opening a store on an existing file of the line format, with a
    template of the format: the state the constructor ends in. *)
Lemma constructor_in_format
    (n : nat) (fs : gmap string string) (live : string) (o defs : obj) :
  fs !! path = Some live →
  Yaml.read_doc live = Some (VObj o) →
  Yaml.read_doc template = Some (VObj defs) →
  ∃ s', constructor (S n) (Properties.fresh fs) = Some (s', Ok tt)
    ∧ Properties.values s' = VObj (o ++ Aux.missing o defs)%list
    ∧ Properties.raw s' = live +:+ Aux.entries_text template (Aux.missing o defs)
    ∧ Properties.files s' = <[path := Properties.raw s']> fs
    ∧ Yaml.read_doc (Properties.raw s') = Some (Properties.values s').
Proof.
  intros Hfile Hlive Htpl.
  apply read_doc_obj in Hlive as [Hlive Hne].
  pose proof (parse_reads _ _ Htpl) as Hparse_tpl.
  apply read_doc_obj in Htpl as [Htpl _].
  destruct (read_from_inv _ _ Htpl) as [Hoks Hnd].
  unfold Properties.constructor.
  unfold bind at 1. unfold try_catch. unfold bind at 1.
  rewrite (read_present parse debugEnabled path template relative _ live) by exact Hfile.
  rewrite (parse_reads live (VObj o)) by (by apply read_doc_obj).
  unfold modify at 1. unfold bind at 1. unfold gets at 1.
  cbn [Properties.values Properties.set_values].
  unfold bind at 1. unfold ret at 1. rewrite Hparse_tpl. unfold bind at 1.
  cbn [own_props].
  match goal with |- context [for_each defs _ ?st] => set (s0 := st) end.
  destruct (reconcile_in_format n defs s0 o) as (s' & Hloop & Hvals & Hread & Hraw & Hfiles);
    [reflexivity | exact Hlive | exact Hfile | exact Hoks | exact Hnd | |].
  { intros k. by apply (template_comment_printable template k defs). }
  rewrite Hloop, when_logger_emit.
  eexists. split; [reflexivity|].
  assert (Hsame : ∀ (b : bool) e,
            Properties.values (if b then Properties.emit e s' else s') = Properties.values s'
            ∧ Properties.raw (if b then Properties.emit e s' else s') = Properties.raw s'
            ∧ Properties.files (if b then Properties.emit e s' else s') = Properties.files s')
    by (intros [] e; auto).
  destruct (Hsame debugEnabled
              (Log "Properties" LSuccess
                 ("Parsed properties file at " +:+ dq +:+ relative +:+ dq +:+ ".")))
    as (-> & -> & ->).
  split; [exact Hvals|]. split; [exact Hraw|]. split; [exact Hfiles|].
  rewrite Hvals. apply read_doc_obj. split; [exact Hread|].
  destruct o; [done | discriminate].
Qed.



End PropertiesOnFormat.

(** * The path of the configuration file *)

Lemma find_split_backslash_absent (pat s : string) :
  Str.all_chars (λ c, negb (bool_decide (c = Path.backslash))) s = true →
  Str.find_split (String Path.backslash pat) s = None.
Proof.
  induction s as [|x s IH]; simpl; [reflexivity|].
  rewrite andb_true_iff, negb_true_iff, bool_decide_eq_false. intros [Hx Hs].
  rewrite decide_False by congruence. by rewrite IH.
Qed.

(** C9, what the code does.  The constructor moves the file from the
    plugins directory to the config directory by replacing the text
    [\plugins\], written with backslashes.  A plugin path without
    backslashes, as every path of a POSIX host is, is left as it is: the
    file is resolved next to the plugin's own path, under the directory
    that holds the plugins, and not under a config directory. *)
Theorem this_path_without_backslash_stays_beside_plugin
    (pf : Path.platform) (cwd plugin_path identifier p : string) :
  Str.all_chars (λ c, negb (bool_decide (c = Path.backslash))) plugin_path = true →
  Properties.this_path pf cwd plugin_path identifier p
  = Path.resolve pf cwd [plugin_path; ".."; identifier; p].
Proof.
  intros Hfree. unfold Properties.this_path, Str.replace_first.
  change "\plugins\" with (String Path.backslash "plugins\").
  by rewrite find_split_backslash_absent.
Qed.

Lemma this_path_without_backslash_stays_beside_plugin_witness :
  Properties.this_path Path.Posix "/srv/serenity" "/srv/serenity/plugins/sconfig"
    "serenity-config" "properties.yaml"
  = "/srv/serenity/plugins/serenity-config/properties.yaml".
Proof.
  rewrite (this_path_without_backslash_stays_beside_plugin Path.Posix "/srv/serenity"
             "/srv/serenity/plugins/sconfig" "serenity-config" "properties.yaml");
    reflexivity.
Defined.

(** On a Windows host the replacement applies, and the file is
    resolved under the config directory, in the folder of the
    consumer. *)
Example this_path_windows :
  Properties.this_path Path.Win32 "C:\srv\serenity" "C:\srv\serenity\plugins\sconfig"
    "serenity-config" "properties.yaml"
  = "C:\srv\serenity\config\serenity-config\properties.yaml".
Proof. reflexivity. Qed.

(** ** The format with quoted values extends the line format *)



(** * Worked instances *)

Lemma read_doc_reads_itself :
  ∀ text v, Yaml.read_doc text = Some v → Yaml.read_doc text = Some v.
Proof. auto. Qed.

Lemma replaceAll_on_keys :
  ∀ key raw by_,
    Yaml.is_key key = true →
    Aux.ascii_text raw = true → Aux.ascii_text by_ = true →
    RegExp.replaceAll key raw by_ = Some (RegExp.replace_key_lines key raw by_).
Proof. reflexivity. Qed.

Lemma constructor_creates_file_from_template_witness :
  ∃ s', Properties.constructor Yaml.read_doc RegExp.replaceAll false
          Example.config_path Example.template Example.config_relative 2
          (Properties.fresh ∅) = Some (s', Ok tt)
        ∧ Properties.values s' = VObj [("debug", VBool false); ("port", VNum 8080)]
        ∧ Properties.raw s' = Example.template
        ∧ Properties.files s' = <[Example.config_path := Example.template]> ∅.
Proof.
  apply (constructor_creates_file_from_template Yaml.read_doc RegExp.replaceAll false
           Example.config_path Example.template Example.config_relative ∅
           [("debug", VBool false); ("port", VNum 8080)] 2).
  - reflexivity.
  - vm_compute. reflexivity.
Defined.

Lemma constructor_regenerates_unparsable_file_witness :
  ∃ s', Properties.constructor Yaml.read_doc RegExp.replaceAll true
          Example.config_path Example.template Example.config_relative 2
          (Properties.fresh {[ Example.config_path := "port: [oops" ]}) = Some (s', Ok tt)
        ∧ Properties.values s' = VObj [("debug", VBool false); ("port", VNum 8080)]
        ∧ Properties.raw s' = Example.template
        ∧ Properties.files s' !! Example.config_path = Some Example.template.
Proof.
  destruct (constructor_regenerates_unparsable_file Yaml.read_doc RegExp.replaceAll true
              Example.config_path Example.template Example.config_relative
              {[ Example.config_path := "port: [oops" ]} "port: [oops"
              (VObj [("debug", VBool false); ("port", VNum 8080)]) 2)
    as (s' & Hrun & Hvals & Hraw & Hfiles & _).
  - vm_compute. reflexivity.
  - vm_compute. reflexivity.
  - vm_compute. reflexivity.
  - exists s'. split; [exact Hrun|]. split; [exact Hvals|]. split; [exact Hraw|].
    rewrite Hfiles. apply lookup_insert_eq.
Defined.




(** A table that rejects writes. *)
Lemma setValue_survives_failed_upsert_witness :
  let self := {| Storage.path := Example.players_sqlite;
                 Storage.relative := "playerdata/players.sqlite";
                 Storage.type := Storage.sqlite |} in
  let d := {| Storage.rows := [("example", "false")]; Storage.writable := false |} in
  let s := {| Storage.files := ∅;
              Storage.dbs := {[ Example.players_sqlite := d ]};
              Storage.trace := [];
              Storage.values := Example.defaults |} in
  ∃ s', Storage.setValue Json.stringify_literal Json.stringify_pretty
          Storage.cooperative self
          "example" (VBool true) s = Some (s', Ok tt)
        ∧ obj_get "example" (Storage.values s') = Some (VBool true)
        ∧ Storage.dbs s' = Storage.dbs s.
Proof.
  intros self d s.
  destruct (setValue_survives_failed_upsert Json.stringify_literal Json.stringify_pretty
              self "example" (VBool true) s d)
    as (s' & Hrun & Hget & _ & Hdbs & _).
  - vm_compute. reflexivity.
  - vm_compute. reflexivity.
  - vm_compute. reflexivity.
  - exists s'. split; [exact Hrun|]. split; [exact Hget | exact Hdbs].
Defined.

(** A JSON file cut short, opened with [debugEnabled] set. *)
Lemma json_load_failure_keeps_defaults_and_file_witness :
  let fs : gmap string string := {[ Example.players_json := "{oops" ]} in
  ∃ s self,
    Storage.constructor Json.parse_literal Json.stringify_literal Json.stringify_pretty
      true Example.cwd Path.Posix Example.relative Storage.cooperative
      Storage.Player "players.json" None Example.defaults (Storage.fresh fs ∅)
    = Some (s, Ok self)
    ∧ Storage.values s = Example.defaults
    ∧ Storage.files s = fs
    ∧ existsb (is_log LWarn) (Storage.trace s) = true.
Proof.
  intros fs.
  destruct (json_load_failure_keeps_defaults_and_file
              Json.parse_literal Json.stringify_literal Json.stringify_pretty
              true Example.cwd Path.Posix Example.relative
              Storage.Player "players.json" None Example.defaults fs ∅
              Example.players_json "{oops")
    as (s & self & Hrun & _ & _ & Hvals & Hfiles & _ & Htrace).
  - vm_compute. reflexivity.
  - vm_compute. reflexivity.
  - vm_compute. reflexivity.
  - vm_compute. reflexivity.
  - exists s, self. split; [exact Hrun|]. split; [exact Hvals|]. split; [exact Hfiles|].
    rewrite Htrace. reflexivity.
Defined.

(** C8 as stated fails: with [debugEnabled] unset, which is how the
    module starts, the failed load logs nothing.  With [s] the state
    the constructor ends in: the content does not deserialize, the
    constructor returns, [values] is the defaults, and the trace holds
    the read only, no warning. *)
Lemma json_load_failure_is_silent_without_debug :
  let fs : gmap string string := {[ Example.players_json := "{oops" ]} in
  let self := {| Storage.path := Example.players_json;
                 Storage.relative := "playerdata/players.json";
                 Storage.type := Storage.json |} in
  let opened :=
    Storage.constructor Json.parse_literal Json.stringify_literal Json.stringify_pretty
      false Example.cwd Path.Posix Example.relative Storage.cooperative
      Storage.Player "players.json" None Example.defaults (Storage.fresh fs ∅) in
  let s := run_state opened (Storage.fresh fs ∅) in
  Json.parse_literal "{oops" = None
  ∧ opened = Some (s, Ok self)
  ∧ Storage.values s = Example.defaults
  ∧ Storage.trace s = [FsRead Example.players_json]
  ∧ existsb (is_log LWarn) (Storage.trace s) = false.
Proof.
  vm_compute. repeat split; reflexivity.
Qed.

(** * Properties kept along a run *)

Lemma keeps_ret {S A} (P : S → Prop) (a : A) : Inv.keeps P (ret a).
Proof. intros s s' r HP [= <- _]. exact HP. Qed.

Lemma keeps_throw {S A} (P : S → Prop) (e : error) : Inv.keeps P (@throw S A e).
Proof. intros s s' r HP [= <- _]. exact HP. Qed.

Lemma keeps_gets {S A} (P : S → Prop) (f : S → A) : Inv.keeps P (gets f).
Proof. intros s s' r HP [= <- _]. exact HP. Qed.

Lemma keeps_lift {S A} (P : S → Prop) (x : result A) : Inv.keeps P (@lift S A x).
Proof. intros s s' r HP [= <- _]. exact HP. Qed.

Lemma keeps_modify {S} (P : S → Prop) (f : S → S) :
  (∀ s, P s → P (f s)) → Inv.keeps P (modify f).
Proof. intros Hf s s' r HP [= <- _]. auto. Qed.

Lemma keeps_bind {S A B} (P : S → Prop) (m : M S A) (f : A → M S B) :
  Inv.keeps P m → (∀ a, Inv.keeps P (f a)) → Inv.keeps P (bind m f).
Proof.
  intros Hm Hf s s' r HP. unfold bind.
  destruct (m s) as [[s1 [a|e]]|] eqn:Hrun; [| |discriminate].
  - apply (Hf a). exact (Hm _ _ _ HP Hrun).
  - intros [= <- _]. exact (Hm _ _ _ HP Hrun).
Qed.

Lemma keeps_try_catch {S A} (P : S → Prop) (m : M S A) (h : error → M S A) :
  Inv.keeps P m → (∀ e, Inv.keeps P (h e)) → Inv.keeps P (try_catch m h).
Proof.
  intros Hm Hh s s' r HP. unfold try_catch.
  destruct (m s) as [[s1 [a|e]]|] eqn:Hrun; [| |discriminate].
  - intros [= <- _]. exact (Hm _ _ _ HP Hrun).
  - apply (Hh e). exact (Hm _ _ _ HP Hrun).
Qed.

Lemma keeps_when {S} (P : S → Prop) (b : bool) (m : M S unit) :
  (b = true → Inv.keeps P m) → Inv.keeps P (when b m).
Proof. destruct b; simpl; [auto | intros _; apply keeps_ret]. Qed.

Lemma keeps_for_each {S A} (P : S → Prop) (xs : list A) (body : A → M S unit) :
  (∀ x, Inv.keeps P (body x)) → Inv.keeps P (for_each xs body).
Proof.
  intros Hbody. induction xs as [|x xs IH]; simpl.
  - apply keeps_ret.
  - apply keeps_bind; [apply Hbody | intros _; exact IH].
Qed.

(** A loop that returned normally ends in [Q] when [Q] held at its
    start and every round that returns normally keeps [Q]. *)
Lemma for_each_ok {S A} (Q : S → Prop) (xs : list A) (body : A → M S unit) (s s' : S) :
  (∀ x s1 s2, Q s1 → body x s1 = Some (s2, Ok tt) → Q s2) →
  Q s →
  for_each xs body s = Some (s', Ok tt) → Q s'.
Proof.
  intros Hbody. revert s. induction xs as [|x xs IH]; intros s HQ; simpl.
  - intros [= <-]. exact HQ.
  - unfold bind. destruct (body x s) as [[s1 [[]|e]]|] eqn:Hrun; [| discriminate..].
    apply IH. exact (Hbody _ _ _ HQ Hrun).
Qed.

(** * Further properties of the configuration store *)

Section PropertiesMore.

Variable parse : string → option value.
Variable replace_key_lines : string → string → string → option string.
Variable debugEnabled : bool.
Variable path template relative : string.

Local Abbreviation read := (Properties.read parse debugEnabled path template relative).
Local Abbreviation write := (Properties.write parse debugEnabled path template relative).
Local Abbreviation setValue_f :=
  (Properties.setValue_f parse replace_key_lines debugEnabled path template relative).
Local Abbreviation addValue_f :=
  (Properties.addValue_f parse replace_key_lines debugEnabled path template relative).
Local Abbreviation constructor :=
  (Properties.constructor parse replace_key_lines debugEnabled path template relative).
Local Abbreviation reconcile fuel :=
  (λ kv : string * value,
     let* vs := gets Properties.values in
     let* ks := lift (object_keys vs) in
     if negb (includes kv.1 ks)
     then addValue_f fuel kv.1 kv.2 (Some (Properties.template_comment template kv.1))
     else ret tt).

(** What [read] leaves behind, in one statement: the file exists and
    [raw] is its content; the result is what the parser makes of it. *)
Lemma read_result (s : Properties.state) :
  ∃ s0, read s = Some (s0, match parse (Properties.raw s0) with
                           | Some v => Ok v
                           | None => Throw YAMLParseError
                           end)
        ∧ Properties.files s0 !! path = Some (Properties.raw s0)
        ∧ Properties.values s0 = Properties.values s
        ∧ (Properties.files s !! path = Some (Properties.raw s0)
             ∧ Properties.files s0 = Properties.files s
           ∨ Properties.files s !! path = None
             ∧ Properties.raw s0 = template
             ∧ Properties.files s0 = <[path := template]> (Properties.files s)).
Proof.
  destruct (Properties.files s !! path) as [data|] eqn:Hfile.
  - exists (Properties.set_raw data (Properties.emit (FsRead path) s)).
    split; [apply (read_present parse debugEnabled path template relative s data Hfile)|].
    simpl. auto 10.
  - pose proof (read_missing parse debugEnabled path template relative s Hfile) as Hrun.
    cbv zeta in Hrun. eexists. split; [exact Hrun|].
    destruct debugEnabled; simpl; rewrite lookup_insert_eq; auto 10.
Qed.

(** [write] in full: [raw] goes to the file and is read back. *)
Lemma write_result (s : Properties.state) :
  let s1 := Properties.set_raw (Properties.raw s)
              (Properties.emit (FsRead path)
                 (Properties.emit (FsWrite path (Properties.raw s))
                    (Properties.set_files (insert path (Properties.raw s)) s))) in
  write s = Some (match parse (Properties.raw s) with
                  | Some v => (Properties.set_values v s1, Ok tt)
                  | None => (s1, Throw YAMLParseError)
                  end).
Proof.
  intros s1. unfold Properties.write.
  unfold bind at 1. unfold gets at 1. unfold bind at 1.
  unfold Properties.writeFileSync at 1. unfold modify at 1. unfold bind at 1.
  rewrite (read_present parse debugEnabled path template relative _ (Properties.raw s))
    by (simpl; apply lookup_insert_eq).
  destruct (parse (Properties.raw s)); reflexivity.
Qed.

(** The body of [setValue] for a key that is present. *)
Lemma setValue_present (n : nat) (key : string) (v : value) (s : Properties.state)
    (ks : list string) :
  object_keys (Properties.values s) = Ok ks →
  includes key ks = true →
  setValue_f (S n) key v s
  = match set_prop key v (Properties.values s) with
    | Throw e => Some (s, Throw e)
    | Ok vs' =>
        match replace_key_lines key (Properties.raw s) (key +:+ ": " +:+ to_string v) with
        | None => Some (Properties.set_values vs' s, Throw SyntaxError)
        | Some r' => write (Properties.set_raw r' (Properties.set_values vs' s))
        end
    end.
Proof.
  intros Hks Hin. cbn [Properties.setValue_f].
  unfold bind at 1. unfold gets at 1.
  unfold bind at 1. unfold lift at 1. rewrite Hks, Hin.
  change (negb true) with false. cbv iota.
  unfold bind at 1. unfold lift at 1.
  destruct (set_prop key v (Properties.values s)) as [vs'|e]; [|reflexivity].
  unfold bind at 1. unfold modify at 1.
  unfold bind at 1. unfold gets at 1.
  cbn [Properties.raw Properties.set_values].
  destruct (replace_key_lines key (Properties.raw s) _) as [r'|]; [|reflexivity].
  unfold bind at 1. unfold modify at 1. reflexivity.
Qed.

(** The body of [addValue] for a key that is absent. *)
Lemma addValue_absent (n : nat) (key : string) (v : value) (msg : option string)
    (s : Properties.state) (ks : list string) :
  object_keys (Properties.values s) = Ok ks →
  includes key ks = false →
  addValue_f (S n) key v msg s
  = match set_prop key v (Properties.values s) with
    | Throw e => Some (s, Throw e)
    | Ok vs' =>
        write (Properties.set_raw (Properties.raw s +:+ Properties.entry_text key v msg)
                 (Properties.set_values vs' s))
    end.
Proof.
  intros Hks Hin. cbn [Properties.addValue_f].
  unfold bind at 1. unfold gets at 1.
  unfold bind at 1. unfold lift at 1. rewrite Hks, Hin.
  unfold bind at 1. unfold lift at 1.
  destruct (set_prop key v (Properties.values s)) as [vs'|e]; [|reflexivity].
  unfold bind at 1. unfold modify at 1.
  unfold bind at 1. unfold modify at 1.
  unfold bind at 1. unfold Properties.entry_text.
  destruct (truthy msg); unfold when, modify, ret; f_equal; cbn [Properties.raw Properties.set_raw
    Properties.set_values]; unfold Properties.set_raw, Properties.set_values; simpl;
    rewrite ?app_assoc_s, ?app_nil_r_s; reflexivity.
Qed.

(** The constructor when the first read does not give a usable value
    (the parser threw, or the document is [null]): the file is removed,
    written again from the template and read again. *)
Lemma constructor_regeneration (fuel : nat) (s s0 : Properties.state) (r : result value) :
  read s = Some (s0, r) →
  is_Some (Properties.files s0 !! path) →
  (∀ v, r = Ok v → v = VNull) →
  let s1 := Properties.emit (FsWrite path template)
              (Properties.set_files (insert path template)
                 (Properties.emit (FsRemove path)
                    (Properties.set_files (delete path)
                       (Properties.set_values VNull s0)))) in
  let s2 := Properties.set_raw template
              (Properties.emit (FsRead path)
                 (if debugEnabled
                  then Properties.emit
                         (Log "Properties" LSuccess
                            ("Created properties file at " +:+ dq +:+ relative +:+ dq)) s1
                  else s1)) in
  constructor fuel s
  = match parse template with
    | Some tv =>
        let s3 := Properties.set_values tv s2 in
        let s4 := if debugEnabled
                  then Properties.emit
                         (Log "Properties" LWarn
                            ("Invalid properties file at " +:+ dq +:+ relative +:+ dq
                             +:+ ", regenerating...")) s3
                  else s3 in
        Some (if debugEnabled
              then Properties.emit
                     (Log "Properties" LSuccess
                        ("Parsed properties file at " +:+ dq +:+ relative +:+ dq +:+ ".")) s4
              else s4, Ok tt)
    | None => Some (s2, Throw YAMLParseError)
    end.
Proof.
  intros Hread [c Hfile] Hnull s1 s2.
  assert (Hfirst :
    try_catch (let* v := read in modify (Properties.set_values v))
      (λ _, modify (Properties.set_values VNull)) s
    = Some (Properties.set_values VNull s0, Ok tt)).
  { unfold try_catch, bind. rewrite Hread.
    destruct r as [v|e]; [rewrite (Hnull v eq_refl)|]; reflexivity. }
  unfold Properties.constructor.
  unfold bind at 1. rewrite Hfirst.
  unfold bind at 1. unfold gets at 1.
  cbn [Properties.values Properties.set_values].
  unfold bind at 1. unfold bind at 1. unfold Properties.rmSync.
  cbn [Properties.files Properties.set_values].
  rewrite Hfile.
  unfold bind at 1.
  rewrite read_missing by (simpl; apply lookup_delete_eq).
  fold s1. fold s2.
  destruct (parse template) as [tv|] eqn:Htpl; [|reflexivity].
  unfold bind at 1. unfold modify at 1.
  rewrite when_logger_emit. unfold bind at 1.
  rewrite (reconcile_same parse replace_key_lines debugEnabled path template relative
             fuel tv) by (destruct debugEnabled; reflexivity).
  rewrite when_logger_emit. reflexivity.
Qed.

(** The constructor when the first read gives a usable value: the
    file is kept, and the reconciliation starts from what it holds. *)
Lemma constructor_live (fuel : nat) (s s0 : Properties.state) (v : value) :
  read s = Some (s0, Ok v) →
  v ≠ VNull →
  constructor fuel s
  = match parse template with
    | Some tv =>
        (for_each (own_props tv) (reconcile fuel) >>
         when debugEnabled
           (Properties.logger_emit LSuccess
              ("Parsed properties file at " +:+ dq +:+ relative +:+ dq +:+ ".")))
          (Properties.set_values v s0)
    | None => Some (Properties.set_values v s0, Throw YAMLParseError)
    end.
Proof.
  intros Hread Hv.
  unfold Properties.constructor.
  unfold bind at 1. unfold try_catch. unfold bind at 1. rewrite Hread.
  unfold modify at 1. unfold bind at 1. unfold gets at 1.
  cbn [Properties.values Properties.set_values].
  unfold bind at 1.
  replace (match v with
           | VNull => _
           | _ => ret ()
           end (Properties.set_values v s0))
    with (Some (Properties.set_values v s0, Ok tt)) by (destruct v; done).
  destruct (parse template); reflexivity.
Qed.

Lemma null_or_not (v : value) : v = VNull ∨ v ≠ VNull.
Proof. destruct v; (by left) || (by right). Qed.

(** X1.  A template the parser rejects makes every construction
    throw, whatever the disk holds: the parser's exception leaves the
    constructor.  The file exists afterwards; it holds the template
    text, unless it held a document that parses to something other than
    [null], which is left as it was. *)
Theorem constructor_throws_on_unparsable_template
    (fs : gmap string string) (fuel : nat) :
  parse template = None →
  ∃ s', constructor fuel (Properties.fresh fs) = Some (s', Throw YAMLParseError)
        ∧ Properties.files s' !! path
          = Some (match fs !! path with
                  | Some content =>
                      match parse content with
                      | Some VNull | None => template
                      | Some _ => content
                      end
                  | None => template
                  end).
Proof.
  intros Htpl.
  destruct (read_result (Properties.fresh fs)) as (s0 & Hread & Hfile & _ & Hcase).
  assert (Hregen :
    (∀ v, parse (Properties.raw s0) = Some v → v = VNull) →
    ∃ s', constructor fuel (Properties.fresh fs) = Some (s', Throw YAMLParseError)
          ∧ Properties.files s' !! path = Some template).
  { intros Hnull.
    pose proof (constructor_regeneration fuel _ s0 _ Hread (mk_is_Some _ _ Hfile)) as Hrun.
    cbv zeta in Hrun. rewrite Htpl in Hrun.
    eexists. split.
    - apply Hrun. intros v Hv. destruct (parse (Properties.raw s0)) as [w|]; [|discriminate].
      injection Hv as <-. by apply Hnull.
    - destruct debugEnabled; simpl; apply lookup_insert_eq. }
  destruct Hcase as [[Hfs Hsame]|(Hfs & Hraw & Hnew)]; simpl in Hfs; rewrite Hfs.
  - destruct (parse (Properties.raw s0)) as [v|] eqn:Hp.
    + destruct (null_or_not v) as [->|Hv].
      * apply Hregen. congruence.
      * rewrite (constructor_live fuel _ s0 v Hread Hv), Htpl.
        eexists. split; [reflexivity|]. simpl. rewrite Hsame. simpl. rewrite Hfs.
        destruct v; congruence.
    + apply Hregen. congruence.
  - apply Hregen. rewrite Hraw, Htpl. discriminate.
Qed.

(** X2.  An existing file that parses to [null] (an empty file, a file
    of comments only) is treated like a corrupt one: it is removed and
    written again from the template, and the store ends with the
    template defaults. *)
Theorem constructor_regenerates_null_document
    (fs : gmap string string) (content : string) (tv : value) (fuel : nat) :
  fs !! path = Some content →
  parse content = Some VNull →
  parse template = Some tv →
  ∃ s', constructor fuel (Properties.fresh fs) = Some (s', Ok tt)
        ∧ Properties.values s' = tv
        ∧ Properties.raw s' = template
        ∧ Properties.files s' = <[path := template]> fs
        ∧ FsRemove path ∈ Properties.trace s'.
Proof.
  intros Hfile Hnull Htpl.
  pose proof (read_present parse debugEnabled path template relative
                (Properties.fresh fs) content Hfile) as Hread.
  rewrite Hnull in Hread.
  pose proof (constructor_regeneration fuel _ _ _ Hread) as Hrun.
  cbv zeta in Hrun. rewrite Htpl in Hrun.
  eexists. split.
  - apply Hrun; [simpl; eauto | congruence].
  - destruct debugEnabled; simpl; rewrite insert_delete_eq;
      (split; [reflexivity|]); (split; [reflexivity|]); (split; [reflexivity|]);
      apply list_elem_of_In; simpl; auto.
Qed.

(** X3.  An existing file that already holds every key of the template
    is only read: the constructor writes nothing, the disk is as it
    was, and [values] is what the file parses to, keys unknown to the
    template included. *)
Theorem constructor_leaves_complete_file_untouched
    (fs : gmap string string) (live : string) (v tv : value) (ks : list string)
    (fuel : nat) :
  fs !! path = Some live →
  parse live = Some v →
  object_keys v = Ok ks →
  parse template = Some tv →
  (∀ kv, kv ∈ own_props tv → kv.1 ∈ ks) →
  ∃ s', constructor fuel (Properties.fresh fs) = Some (s', Ok tt)
        ∧ Properties.values s' = v
        ∧ Properties.raw s' = live
        ∧ Properties.files s' = fs
        ∧ Properties.trace s'
          = FsRead path ::
            (if debugEnabled
             then [Log "Properties" LSuccess
                     ("Parsed properties file at " +:+ dq +:+ relative +:+ dq +:+ ".")]
             else []).
Proof.
  intros Hfile Hlive Hks Htpl Hall.
  pose proof (read_present parse debugEnabled path template relative
                (Properties.fresh fs) live Hfile) as Hread.
  rewrite Hlive in Hread.
  rewrite (constructor_live fuel _ _ v Hread) by (intros ->; discriminate).
  rewrite Htpl. unfold bind at 1.
  rewrite (reconcile_skip parse replace_key_lines debugEnabled path template relative
             fuel (own_props tv) _ ks) by (simpl; assumption).
  rewrite when_logger_emit.
  eexists. split; [reflexivity|]. destruct debugEnabled; simpl; auto.
Qed.

Lemma in_sync_emit (e : event) (s : Properties.state) :
  Inv.in_sync parse path s → Inv.in_sync parse path (Properties.emit e s).
Proof. intros H. exact H. Qed.

Lemma write_ok_in_sync (s s' : Properties.state) :
  write s = Some (s', Ok tt) → Inv.in_sync parse path s'.
Proof.
  pose proof (write_result s) as Hrun. cbv zeta in Hrun. rewrite Hrun.
  destruct (parse (Properties.raw s)) as [v|] eqn:Hp; [|discriminate].
  intros [= <-]. split; simpl; [exact Hp | apply lookup_insert_eq].
Qed.

Lemma update_ok_in_sync (n : nat) :
  (∀ key v s s', setValue_f n key v s = Some (s', Ok tt) → Inv.in_sync parse path s')
  ∧ (∀ key v msg s s',
       addValue_f n key v msg s = Some (s', Ok tt) → Inv.in_sync parse path s').
Proof.
  induction n as [|n [IHset IHadd]]; [split; intros; discriminate|].
  split.
  - intros key v s s'.
    destruct (object_keys (Properties.values s)) as [ks|e] eqn:Hks.
    + destruct (includes key ks) eqn:Hin.
      * rewrite (setValue_present n key v s ks Hks Hin).
        destruct (set_prop key v (Properties.values s)) as [vs'|e]; [|discriminate].
        destruct (replace_key_lines key _ _) as [r'|]; [|discriminate].
        apply write_ok_in_sync.
      * rewrite (setValue_delegates parse replace_key_lines debugEnabled path template
                   relative key v s ks n Hks Hin).
        apply IHadd.
    + cbn [Properties.setValue_f]. unfold bind, gets, lift. rewrite Hks. discriminate.
  - intros key v msg s s'.
    destruct (object_keys (Properties.values s)) as [ks|e] eqn:Hks.
    + destruct (includes key ks) eqn:Hin.
      * rewrite (addValue_delegates parse replace_key_lines debugEnabled path template
                   relative key v msg s ks n Hks Hin).
        apply IHset.
      * rewrite (addValue_absent n key v msg s ks Hks Hin).
        destruct (set_prop key v (Properties.values s)) as [vs'|e]; [|discriminate].
        apply write_ok_in_sync.
    + cbn [Properties.addValue_f]. unfold bind, gets, lift. rewrite Hks. discriminate.
Qed.

Lemma constructor_ok_in_sync (fuel : nat) (s s' : Properties.state) :
  constructor fuel s = Some (s', Ok tt) → Inv.in_sync parse path s'.
Proof.
  destruct (read_result s) as (s0 & Hread & Hfile & _ & _).
  assert (Hregen :
    (∀ v, parse (Properties.raw s0) = Some v → v = VNull) →
    constructor fuel s = Some (s', Ok tt) → Inv.in_sync parse path s').
  { intros Hnull.
    pose proof (constructor_regeneration fuel _ s0 _ Hread (mk_is_Some _ _ Hfile)) as Hrun.
    cbv zeta in Hrun. rewrite Hrun.
    - destruct (parse template) as [tv|] eqn:Htpl; [|discriminate].
      intros [= <-]. destruct debugEnabled; (split; simpl; [exact Htpl | apply lookup_insert_eq]).
    - intros v Hv. destruct (parse (Properties.raw s0)) as [w|]; [|discriminate].
      injection Hv as <-. by apply Hnull. }
  destruct (parse (Properties.raw s0)) as [v|] eqn:Hp; [|apply Hregen; congruence].
  destruct (null_or_not v) as [->|Hv]; [apply Hregen; congruence|].
  rewrite (constructor_live fuel _ s0 v Hread Hv).
  destruct (parse template) as [tv|]; [|discriminate].
  unfold bind at 1.
  destruct (for_each (own_props tv) (reconcile fuel) (Properties.set_values v s0))
    as [[s1 [[]|e]]|] eqn:Hloop; [|discriminate..].
  rewrite when_logger_emit. intros [= <-].
  assert (Hs1 : Inv.in_sync parse path s1).
  { revert Hloop. apply for_each_ok.
    - intros kv sa sb Hsa. unfold bind at 1. unfold gets at 1.
      unfold bind at 1. unfold lift at 1.
      destruct (object_keys (Properties.values sa)) as [ks|e]; [|discriminate].
      destruct (includes kv.1 ks); simpl.
      + intros [= <-]. exact Hsa.
      + apply (proj2 (update_ok_in_sync fuel)).
    - split; simpl; assumption. }
  destruct debugEnabled; [apply in_sync_emit|]; exact Hs1.
Qed.

(** X4.  Whenever the constructor, [setValue] or [addValue] returns
    normally, the store is in step with its file: the file holds [raw],
    and [values] is what the parser reads from [raw], not what was
    assigned in memory.  This holds from any state before the call. *)
Theorem ok_run_leaves_store_in_sync
    (fuel n : nat) (key : string) (v : value) (msg : option string)
    (s s' : Properties.state) :
  constructor fuel s = Some (s', Ok tt)
  ∨ setValue_f n key v s = Some (s', Ok tt)
  ∨ addValue_f n key v msg s = Some (s', Ok tt) →
  Inv.in_sync parse path s'.
Proof.
  intros [Hrun|[Hrun|Hrun]].
  - exact (constructor_ok_in_sync _ _ _ Hrun).
  - exact (proj1 (update_ok_in_sync n) _ _ _ _ Hrun).
  - exact (proj2 (update_ok_in_sync n) _ _ _ _ _ Hrun).
Qed.

(** X5.  [setValue] on a present key whose rewritten text the parser
    rejects: the text is on disk before the parser sees it, so the call
    throws with the file already overwritten, and [values] keeps the
    value assigned in memory.  The next construction on that disk finds
    a file it cannot parse and resets it to the template: every value
    of the file is lost. *)
Theorem setValue_unparsable_text_is_written_then_reset
    (n fuel : nat) (s : Properties.state) (cur : obj) (key : string) (v tv : value)
    (r' : string) :
  Properties.values s = VObj cur →
  key ∈ keys cur →
  replace_key_lines key (Properties.raw s) (key +:+ ": " +:+ to_string v) = Some r' →
  parse r' = None →
  parse template = Some tv →
  ∃ s', setValue_f (S n) key v s = Some (s', Throw YAMLParseError)
        ∧ Properties.files s' = <[path := r']> (Properties.files s)
        ∧ Properties.values s' = VObj (obj_set key v cur)
        ∧ ∃ s'', constructor fuel (Properties.fresh (Properties.files s')) = Some (s'', Ok tt)
                 ∧ Properties.values s'' = tv
                 ∧ Properties.files s'' = <[path := template]> (Properties.files s).
Proof.
  intros Hvals Hk Hrep Hbad Htpl.
  assert (Hks : object_keys (Properties.values s) = Ok (keys cur))
    by (rewrite Hvals; reflexivity).
  rewrite (setValue_present n key v s (keys cur) Hks (proj2 (includes_true _ _) Hk)).
  rewrite Hvals. cbn [set_prop]. rewrite Hrep.
  pose proof (write_result (Properties.set_raw r' (Properties.set_values
                                                       (VObj (obj_set key v cur)) s)))
    as Hrun.
  cbv zeta in Hrun. cbn [Properties.raw Properties.set_raw] in Hrun.
  rewrite Hbad in Hrun. rewrite Hrun.
  eexists. split; [reflexivity|]. split; [reflexivity|]. split; [reflexivity|].
  cbn [Properties.files Properties.set_raw Properties.emit Properties.set_files
       Properties.set_values].
  pose proof (read_present parse debugEnabled path template relative
                (Properties.fresh (<[path := r']> (Properties.files s))) r'
                (lookup_insert_eq _ _ _)) as Hread.
  rewrite Hbad in Hread.
  pose proof (constructor_regeneration fuel _ _ _ Hread) as Hopen.
  cbv zeta in Hopen. rewrite Htpl in Hopen.
  eexists. split.
  - apply Hopen; [simpl; rewrite lookup_insert_eq; eauto | discriminate].
  - destruct debugEnabled; simpl; rewrite insert_delete_eq, insert_insert_eq; auto.
Qed.

(** X6.  A template that parses to [null] (an empty template, or one
    of comments only) gives a store that cannot be used: when the disk
    holds no usable document the constructor returns normally with
    [values] equal to [null], and then [getValue], [setValue] and
    [addValue] all throw a [TypeError], for every key, leaving the
    state as it is. *)
Theorem null_template_store_throws_on_access
    (fs : gmap string string) (fuel n : nat) (key : string) (v : value)
    (msg : option string) :
  parse template = Some VNull →
  (∀ c w, fs !! path = Some c → parse c = Some w → w = VNull) →
  ∃ s', constructor fuel (Properties.fresh fs) = Some (s', Ok tt)
        ∧ Properties.values s' = VNull
        ∧ Properties.getValue key s' = Some (s', Throw TypeError)
        ∧ setValue_f (S n) key v s' = Some (s', Throw TypeError)
        ∧ addValue_f (S n) key v msg s' = Some (s', Throw TypeError).
Proof.
  intros Htpl Hdisk.
  destruct (read_result (Properties.fresh fs)) as (s0 & Hread & Hfile & _ & Hcase).
  pose proof (constructor_regeneration fuel _ s0 _ Hread (mk_is_Some _ _ Hfile)) as Hrun.
  cbv zeta in Hrun. rewrite Htpl in Hrun.
  eexists. split.
  - apply Hrun. intros w Hw.
    destruct (parse (Properties.raw s0)) as [w'|] eqn:Hp; [|discriminate].
    injection Hw as <-.
    destruct Hcase as [[Hfs _]|(_ & Hraw & _)].
    + exact (Hdisk _ _ Hfs Hp).
    + rewrite Hraw in Hp. congruence.
  - destruct debugEnabled; repeat split.
Qed.

End PropertiesMore.

(** ** Silence without the debug flag *)

Section PropertiesQuiet.

Variable parse : string → option value.
Variable replace_key_lines : string → string → string → option string.
Variable path template relative : string.

Local Abbreviation Quiet :=
  (λ s : Properties.state, Inv.quiet (Properties.trace s) = true).
Local Abbreviation read := (Properties.read parse false path template relative).
Local Abbreviation write := (Properties.write parse false path template relative).
Local Abbreviation setValue_f :=
  (Properties.setValue_f parse replace_key_lines false path template relative).
Local Abbreviation addValue_f :=
  (Properties.addValue_f parse replace_key_lines false path template relative).
Local Abbreviation constructor :=
  (Properties.constructor parse replace_key_lines false path template relative).

Lemma quiet_emit (e : event) (s : Properties.state) :
  Inv.is_any_log e = false → Quiet s → Quiet (Properties.emit e s).
Proof.
  intros He Hs. unfold Inv.quiet. simpl. rewrite forallb_app. simpl.
  rewrite He. simpl. rewrite andb_true_r. exact Hs.
Qed.

Ltac keeps_step :=
  first
    [ apply keeps_ret | apply keeps_throw | apply keeps_gets | apply keeps_lift
    | apply keeps_modify;
      let s := fresh "s" in
      let Hs := fresh "Hs" in
      intros s Hs; repeat (apply quiet_emit; [reflexivity|]); exact Hs
    | apply keeps_bind; [|intros ?]
    | apply keeps_try_catch; [|intros ?] ].

Lemma keeps_quiet_readFileSync (p : string) : Inv.keeps Quiet (Properties.readFileSync p).
Proof.
  intros s s' r Hs. unfold Properties.readFileSync.
  destruct (Properties.files s !! p); intros [= <- _]; [by apply quiet_emit | exact Hs].
Qed.

Lemma keeps_quiet_rmSync (p : string) : Inv.keeps Quiet (Properties.rmSync p).
Proof.
  intros s s' r Hs. unfold Properties.rmSync.
  destruct (Properties.files s !! p); intros [= <- _]; [by apply quiet_emit | exact Hs].
Qed.

Lemma keeps_quiet_read : Inv.keeps Quiet read.
Proof.
  unfold Properties.read, Properties.existsSync, Properties.writeFileSync.
  apply keeps_bind; [apply keeps_gets | intros ex].
  apply keeps_bind; [destruct ex; [apply keeps_ret | repeat keeps_step] | intros _].
  apply keeps_bind; [apply keeps_quiet_readFileSync | intros data].
  apply keeps_bind; [repeat keeps_step | intros _].
  destruct (parse data); repeat keeps_step.
Qed.

Lemma keeps_quiet_write : Inv.keeps Quiet write.
Proof.
  unfold Properties.write, Properties.writeFileSync.
  apply keeps_bind; [apply keeps_gets | intros r].
  apply keeps_bind; [repeat keeps_step | intros _].
  apply keeps_bind; [apply keeps_quiet_read | intros v]. repeat keeps_step.
Qed.

Lemma keeps_quiet_update (n : nat) :
  (∀ key v, Inv.keeps Quiet (setValue_f n key v))
  ∧ (∀ key v msg, Inv.keeps Quiet (addValue_f n key v msg)).
Proof.
  induction n as [|n [IHset IHadd]]; [split; intros; intros s s' r _; discriminate|].
  split.
  - intros key v. cbn [Properties.setValue_f].
    apply keeps_bind; [apply keeps_gets | intros vs].
    apply keeps_bind; [apply keeps_lift | intros ks].
    destruct (negb (includes key ks)); [apply IHadd|].
    apply keeps_bind; [apply keeps_lift | intros vs'].
    apply keeps_bind; [repeat keeps_step | intros _].
    apply keeps_bind; [apply keeps_gets | intros r].
    destruct (replace_key_lines key r _); [|apply keeps_throw].
    apply keeps_bind; [repeat keeps_step | intros _]. apply keeps_quiet_write.
  - intros key v msg. cbn [Properties.addValue_f].
    apply keeps_bind; [apply keeps_gets | intros vs].
    apply keeps_bind; [apply keeps_lift | intros ks].
    destruct (includes key ks); [apply IHset|].
    apply keeps_bind; [apply keeps_lift | intros vs'].
    apply keeps_bind; [repeat keeps_step | intros _].
    apply keeps_bind; [repeat keeps_step | intros _].
    apply keeps_bind; [apply keeps_when; intros _; repeat keeps_step | intros _].
    apply keeps_quiet_write.
Qed.

Lemma keeps_quiet_constructor (fuel : nat) : Inv.keeps Quiet (constructor fuel).
Proof.
  unfold Properties.constructor.
  apply keeps_bind; [|intros _].
  { apply keeps_try_catch; [|intros _; repeat keeps_step].
    apply keeps_bind; [apply keeps_quiet_read | intros v]. repeat keeps_step. }
  apply keeps_bind; [apply keeps_gets | intros vs].
  apply keeps_bind; [|intros _].
  { destruct vs; try apply keeps_ret.
    apply keeps_bind; [apply keeps_quiet_rmSync | intros _].
    apply keeps_bind; [apply keeps_quiet_read | intros v].
    apply keeps_bind; [repeat keeps_step | intros _]. apply keeps_ret. }
  destruct (parse template) as [tv|]; [|apply keeps_throw].
  apply keeps_bind; [|intros _; apply keeps_ret].
  apply keeps_for_each. intros kv.
  apply keeps_bind; [apply keeps_gets | intros vs'].
  apply keeps_bind; [apply keeps_lift | intros ks].
  destruct (negb (includes kv.1 ks)); [apply (proj2 (keeps_quiet_update fuel)) | apply keeps_ret].
Qed.

(** X7.  With [debugEnabled] unset, which is how the module starts,
    the class logs nothing: whatever the constructor, [setValue] or
    [addValue] does, and however it ends (normally or with an
    exception), a trace without log lines stays without log lines. *)
Theorem properties_silent_without_debug
    (fuel n : nat) (key : string) (v : value) (msg : option string)
    (s s' : Properties.state) (r : result unit) :
  Inv.quiet (Properties.trace s) = true →
  constructor fuel s = Some (s', r)
  ∨ setValue_f n key v s = Some (s', r)
  ∨ addValue_f n key v msg s = Some (s', r) →
  Inv.quiet (Properties.trace s') = true.
Proof.
  intros Hs [Hrun|[Hrun|Hrun]].
  - exact (keeps_quiet_constructor fuel _ _ _ Hs Hrun).
  - exact (proj1 (keeps_quiet_update n) key v _ _ _ Hs Hrun).
  - exact (proj2 (keeps_quiet_update n) key v msg _ _ _ Hs Hrun).
Qed.

End PropertiesQuiet.

(** ** More on stores in the line format *)

Lemma keys_obj_set_present (k : string) (v : value) (o : obj) :
  k ∈ keys o → keys (obj_set k v o) = keys o.
Proof.
  induction o as [|[k0 v0] o IH]; [intros H; inversion H|].
  change (keys ((k0, v0) :: o)) with (k0 :: keys o).
  cbn [obj_set]. destruct (decide (k = k0)) as [->|Hne]; [reflexivity|].
  rewrite elem_of_cons. intros [?|Hin]; [congruence|].
  change (keys ((k0, v0) :: obj_set k v o)) with (k0 :: keys (obj_set k v o)).
  by rewrite IH.
Qed.

Section PropertiesOnFormatMore.

Variable parse : string → option value.
Variable replace_key_lines : string → string → string → option string.
Variable debugEnabled : bool.
Variable path template relative : string.

Hypothesis parse_reads :
  ∀ text v, Yaml.read_doc text = Some v → parse text = Some v.
Hypothesis replace_reads :
  ∀ key raw by_,
    Yaml.is_key key = true →
    Aux.ascii_text raw = true → Aux.ascii_text by_ = true →
    replace_key_lines key raw by_ = Some (RegExp.replace_key_lines key raw by_).

Local Abbreviation setValue_f :=
  (Properties.setValue_f parse replace_key_lines debugEnabled path template relative).
Local Abbreviation addValue_f :=
  (Properties.addValue_f parse replace_key_lines debugEnabled path template relative).
Local Abbreviation constructor :=
  (Properties.constructor parse replace_key_lines debugEnabled path template relative).

(** X8.  [setValue] on a key the store does not hold yet, on a store
    in the line format and in step with [values]: the call hands over
    to [addValue], which appends one entry line to the text and the
    file, without a comment.  [getValue] then yields the value, the
    entries held before are unchanged, and a store opened again on the
    file (template of the format) yields the value too. *)
Theorem setValue_absent_key_appends_entry
    (n m : nat) (s : Properties.state) (o defs : obj) (key : string) (v : value) :
  Properties.values s = VObj o →
  Yaml.read_doc (Properties.raw s) = Some (VObj o) →
  key ∉ keys o →
  Aux.entry_ok (key, v) →
  Yaml.read_doc template = Some (VObj defs) →
  ∃ s', setValue_f (S (S n)) key v s = Some (s', Ok tt)
    ∧ Properties.raw s' = Properties.raw s +:+ lf +:+ key +:+ ": " +:+ to_string v +:+ lf
    ∧ Properties.files s' = <[path := Properties.raw s']> (Properties.files s)
    ∧ Properties.values s' = VObj (o ++ [(key, v)])%list
    ∧ Properties.getValue key s' = Some (s', Ok v)
    ∧ ∃ s'', constructor (S m) (Properties.fresh (Properties.files s')) = Some (s'', Ok tt)
             ∧ Properties.getValue key s'' = Some (s'', Ok v).
Proof.
  intros Hvals Hdoc Hk Hok Htpl.
  apply read_doc_obj in Hdoc as [Hread Hne].
  assert (Hks : object_keys (Properties.values s) = Ok (keys o))
    by (rewrite Hvals; reflexivity).
  rewrite (setValue_delegates parse replace_key_lines debugEnabled path template relative
             key v s (keys o) (S n) Hks (proj2 (includes_false _ _) Hk)).
  destruct (addValue_in_format parse replace_key_lines debugEnabled path template relative
              parse_reads n s o key v None Hvals Hread Hk Hok)
    as (s' & Hrun & Hvals' & Hraw' & Hfiles'); [discriminate|].
  assert (Hentry : Properties.entry_text key v None
                   = lf +:+ key +:+ ": " +:+ to_string v +:+ lf).
  { unfold Properties.entry_text. change (truthy None) with false. cbv iota.
    rewrite (app_nil_r_s lf). reflexivity. }
  assert (Hget : ∀ b, obj_get key ((o ++ [(key, v)]) ++ b)%list = Some v).
  { intros b. rewrite obj_get_app_l.
    - rewrite obj_get_app_r by exact Hk. simpl. by rewrite decide_True.
    - rewrite keys_app, elem_of_app. right. apply list_elem_of_In. simpl. auto. }
  exists s'. split; [exact Hrun|]. split; [by rewrite Hraw', Hentry|].
  split; [exact Hfiles'|]. split; [exact Hvals'|]. split.
  - unfold Properties.getValue, bind, gets, lift. rewrite Hvals'. simpl.
    specialize (Hget []). rewrite app_nil_r in Hget. by rewrite Hget.
  - destruct (constructor_in_format parse replace_key_lines debugEnabled path template
                relative parse_reads m (Properties.files s') (Properties.raw s')
                (o ++ [(key, v)])%list defs)
      as (s'' & Hopen & Hvals'' & _).
    + rewrite Hfiles'. apply lookup_insert_eq.
    + apply read_doc_obj. split.
      * rewrite Hraw'. apply read_from_entry_text; [assumption..|discriminate].
      * destruct o; discriminate.
    + exact Htpl.
    + exists s''. split; [exact Hopen|].
      unfold Properties.getValue, bind, gets, lift. rewrite Hvals''. simpl.
      by rewrite Hget.
Qed.

(** X9.  [setValue] on a present key, on a store in the line format
    and in step with [values], with a value that prints to a token the
    format reads back as the same value (a boolean, [null], an integer
    within the safe range, or a string of letters, digits, [_], [-],
    [.], [/] and spaces that starts with a letter or an underscore, does
    not end with a space and is not a word of the schema), changes that
    key only: what is read back from the rewritten file has the same
    keys in the same order, and every other key holds the value it
    held. *)
Theorem setValue_changes_one_key
    (n : nat) (s : Properties.state) (o : obj) (key : string) (v : value) :
  Properties.values s = VObj o →
  Yaml.read_doc (Properties.raw s) = Some (VObj o) →
  key ∈ keys o →
  Yaml.scalar (to_string v) = Some v →
  ∃ s' o', setValue_f (S n) key v s = Some (s', Ok tt)
    ∧ Properties.values s' = VObj o'
    ∧ Yaml.read_doc (Properties.raw s') = Some (VObj o')
    ∧ keys o' = keys o
    ∧ ∀ k, k ≠ key → obj_get k o' = obj_get k o.
Proof.
  intros Hvals Hdoc Hk Hv.
  apply read_doc_obj in Hdoc as [Hread Hne].
  destruct (setValue_in_format parse replace_key_lines debugEnabled path template relative
              parse_reads replace_reads n s o key v Hvals Hread Hk Hv)
    as (s' & Hrun & Hvals' & Hread' & _).
  exists s', (obj_set key v o). split; [exact Hrun|]. split; [exact Hvals'|].
  split; [|split].
  - apply read_doc_obj. split; [exact Hread'|].
    destruct o as [|[k0 v0] o]; simpl; [|destruct (decide (key = k0))]; discriminate.
  - by apply keys_obj_set_present.
  - intros k Hkk. apply obj_get_set_ne. congruence.
Qed.

End PropertiesOnFormatMore.

(** * Further properties of the key-value store

    On a host that refuses no operation ([Storage.cooperative]), as
    before. *)

(** ** The table *)

Lemma upsert_absent (k t : string) (rs : list (string * string)) :
  k ∉ rs.*1 → Storage.upsert k t rs = (rs ++ [(k, t)])%list.
Proof.
  induction rs as [|[k0 t0] rs IH]; [reflexivity|].
  rewrite fmap_cons, not_elem_of_cons. intros [Hne Hk]. simpl in Hne.
  cbn [Storage.upsert]. rewrite decide_False by exact Hne. by rewrite IH.
Qed.

Lemma upsert_keys (k t : string) (rs : list (string * string)) :
  (Storage.upsert k t rs).*1 = if decide (k ∈ rs.*1) then rs.*1 else (rs.*1 ++ [k])%list.
Proof.
  induction rs as [|[k0 t0] rs IH].
  - destruct (decide _) as [Hin|_]; [inversion Hin | reflexivity].
  - cbn [Storage.upsert]. rewrite !fmap_cons. cbn [fst].
    destruct (decide (k = k0)) as [->|Hne].
    + rewrite decide_True by left. reflexivity.
    + rewrite fmap_cons, IH. cbn [fst].
      destruct (decide (k ∈ rs.*1)) as [Hin|Hout].
      * rewrite decide_True by (by right). reflexivity.
      * rewrite decide_False; [reflexivity|]. rewrite not_elem_of_cons. auto.
Qed.

(** The key stays a key of the table: an upsert keeps keys unique. *)
Lemma upsert_NoDup (k t : string) (rs : list (string * string)) :
  NoDup rs.*1 → NoDup (Storage.upsert k t rs).*1.
Proof.
  intros Hnd. rewrite upsert_keys. destruct (decide (k ∈ rs.*1)) as [Hin|Hout]; [exact Hnd|].
  apply NoDup_app. split; [exact Hnd|]. split.
  - intros x Hx Hxk. apply list_elem_of_singleton in Hxk as ->. auto.
  - apply NoDup_singleton.
Qed.

Lemma select_value_upsert_eq (k t : string) (rs : list (string * string)) :
  Table.select_value k (Storage.upsert k t rs) = Some t.
Proof.
  induction rs as [|[k0 t0] rs IH]; simpl.
  - by rewrite decide_True.
  - destruct (decide (k = k0)); simpl.
    + by rewrite decide_True.
    + by rewrite decide_False.
Qed.

Lemma select_value_upsert_ne (k k' t : string) (rs : list (string * string)) :
  k ≠ k' → Table.select_value k' (Storage.upsert k t rs) = Table.select_value k' rs.
Proof.
  intros Hne. induction rs as [|[k0 t0] rs IH]; simpl.
  - rewrite decide_False by congruence. reflexivity.
  - destruct (decide (k = k0)) as [->|Hk]; simpl.
    + rewrite !decide_False by congruence. reflexivity.
    + destruct (decide (k' = k0)); [reflexivity | exact IH].
Qed.

Lemma select_value_None (k : string) (rs : list (string * string)) :
  k ∉ rs.*1 → Table.select_value k rs = None.
Proof.
  induction rs as [|[k0 t0] rs IH]; [reflexivity|].
  rewrite fmap_cons, not_elem_of_cons. intros [Hne Hk]. simpl in *.
  rewrite decide_False by exact Hne. auto.
Qed.

Lemma upsert_nonempty (k t : string) (rs : list (string * string)) :
  length (Storage.upsert k t rs) ≠ 0%nat.
Proof. destruct rs as [|[k0 t0] rs]; simpl; [|destruct (decide (k = k0))]; discriminate. Qed.

Lemma NoDup_keys_obj_set (k : string) (v : value) (o : obj) :
  NoDup (keys o) → NoDup (keys (obj_set k v o)).
Proof.
  induction o as [|[k0 v0] o IH]; [intros _; apply NoDup_singleton|].
  change (keys ((k0, v0) :: o)) with (k0 :: keys o).
  rewrite NoDup_cons. intros [Hk0 Hnd]. cbn [obj_set].
  destruct (decide (k = k0)) as [->|Hne].
  - change (keys ((k0, v) :: o)) with (k0 :: keys o). by apply NoDup_cons.
  - change (keys ((k0, v0) :: obj_set k v o)) with (k0 :: keys (obj_set k v o)).
    apply NoDup_cons. split; [|auto].
    rewrite keys_obj_set. intros [?|?]; [congruence | done].
Qed.

(** A spread, key by key: the right operand where it holds the key,
    the left operand elsewhere. *)
Lemma obj_get_spread_None (a b : obj) (k : string) :
  k ∉ keys b → obj_get k (spread a b) = obj_get k a.
Proof.
  unfold spread. revert a. induction b as [|[k0 v0] b IH]; intros a Hk; simpl.
  - reflexivity.
  - change (keys ((k0, v0) :: b)) with (k0 :: keys b) in Hk.
    apply not_elem_of_cons in Hk as [Hne Hk].
    rewrite IH by exact Hk. apply obj_get_set_ne. congruence.
Qed.

Lemma obj_get_spread_lookup (a b : obj) (k : string) :
  NoDup (keys b) →
  obj_get k (spread a b)
  = match obj_get k b with
    | Some v => Some v
    | None => obj_get k a
    end.
Proof.
  intros Hnd. destruct (obj_get k b) as [v|] eqn:Hb.
  - by apply obj_get_spread.
  - apply obj_get_spread_None. by apply obj_get_None.
Qed.

Lemma select_value_elem (k t : string) (rs : list (string * string)) :
  Table.select_value k rs = Some t → (k, t) ∈ rs.
Proof.
  induction rs as [|[k0 t0] rs IH]; simpl; [discriminate|].
  destruct (decide (k = k0)) as [->|Hne].
  - intros [= ->]. left.
  - intros H. right. auto.
Qed.

Lemma elem_select_value (k t : string) (rs : list (string * string)) :
  NoDup rs.*1 → (k, t) ∈ rs → Table.select_value k rs = Some t.
Proof.
  induction rs as [|[k0 t0] rs IH]; [intros _ H; inversion H|].
  rewrite fmap_cons. cbn [fst]. rewrite NoDup_cons. intros [Hk0 Hnd].
  rewrite elem_of_cons. simpl. intros [[= -> ->]|Hin].
  - by rewrite decide_True.
  - destruct (decide (k = k0)) as [->|Hne]; [|auto].
    exfalso. apply Hk0. apply list_elem_of_fmap. exists (k0, t). auto.
Qed.

Section StorageMore.

Variable JSON_parse : string → option value.
Variable JSON_stringify : value → option string.
Variable JSON_stringify_pretty : obj → string.
Variable debugEnabled : bool.
Variable cwd : string.
Variable pf : Path.platform.
Variable path_relative : string → string → string.

Local Abbreviation resolvePath := (Storage.resolvePath cwd pf).
Local Abbreviation writeJson := (Storage.writeJson JSON_stringify_pretty Storage.cooperative).
Local Abbreviation readJson := (Storage.readJson JSON_parse debugEnabled).
Local Abbreviation writeSqlite := (Storage.writeSqlite JSON_stringify).
Local Abbreviation readSqlite := (Storage.readSqlite JSON_parse JSON_stringify).
Local Abbreviation parse_rows := (Storage.parse_rows JSON_parse).
Local Abbreviation initialize :=
  (Storage.initialize JSON_parse JSON_stringify JSON_stringify_pretty debugEnabled
     Storage.cooperative).
Local Abbreviation constructor :=
  (Storage.constructor JSON_parse JSON_stringify JSON_stringify_pretty
     debugEnabled cwd pf path_relative Storage.cooperative).
Local Abbreviation setValue :=
  (Storage.setValue JSON_stringify JSON_stringify_pretty Storage.cooperative).

(** The rows a sequence of upserts leaves: an entry whose value has
    no JSON text ([undefined]) is not stored. *)
Local Abbreviation stored :=
  (fold_left
     (λ (rs : list (string * string)) (kv : string * value),
        match JSON_stringify kv.2 with
        | Some t => Storage.upsert kv.1 t rs
        | None => rs
        end)).

(** One upsert on a table that accepts writes. *)
Lemma writeSqlite_result (self : Storage.instance) (key : string) (v : value)
    (s : Storage.state) (d : Storage.database) :
  Storage.dbs s !! Storage.path self = Some d →
  Storage.writable d = true →
  writeSqlite self key v s
  = Some (match JSON_stringify v with
          | Some t =>
              Storage.set_dbs
                (insert (Storage.path self)
                   {| Storage.rows := Storage.upsert key t (Storage.rows d);
                      Storage.writable := true |})
                (Storage.emit (DbRun (Storage.path self) key (Some t)) s)
          | None =>
              Storage.emit
                (Log "Storage" LError
                   ("Error writing to SQLite database at " +:+ dq
                    +:+ Storage.relative self +:+ dq +:+ "."))
                (Storage.emit (DbRun (Storage.path self) key None) s)
          end, Ok tt).
Proof.
  intros Hdb Hw. unfold Storage.writeSqlite, try_catch. rewrite Hdb.
  unfold Storage.run_setValue. destruct (JSON_stringify v) as [t|]; [|reflexivity].
  rewrite Hw. reflexivity.
Qed.

(** The loop of [readSqlite] that stores the entries of [values], on a
    table that accepts writes. *)
Lemma write_back_result (self : Storage.instance) (vs : obj) (s : Storage.state)
    (rs : list (string * string)) :
  Storage.dbs s !! Storage.path self = Some {| Storage.rows := rs; Storage.writable := true |} →
  ∃ s', for_each vs (λ kv, writeSqlite self kv.1 kv.2) s = Some (s', Ok tt)
        ∧ Storage.values s' = Storage.values s
        ∧ Storage.files s' = Storage.files s
        ∧ Storage.dbs s' !! Storage.path self
          = Some {| Storage.rows := stored vs rs; Storage.writable := true |}
        ∧ ∀ p, p ≠ Storage.path self → Storage.dbs s' !! p = Storage.dbs s !! p.
Proof.
  revert s rs. induction vs as [|[k v] vs IH]; intros s rs Hdb.
  - exists s. simpl. auto.
  - cbn [for_each fold_left fst snd]. unfold bind.
    rewrite (writeSqlite_result self k v s _ Hdb) by reflexivity.
    cbn [Storage.rows].
    destruct (JSON_stringify v) as [t|].
    + match goal with |- context [for_each vs _ ?st] =>
        destruct (IH st (Storage.upsert k t rs)) as (s' & Hrun & Hv & Hf & Hd & Ho) end.
      { simpl. apply lookup_insert_eq. }
      exists s'. split; [exact Hrun|]. split; [by rewrite Hv|]. split; [by rewrite Hf|].
      split; [exact Hd|]. intros p Hp. rewrite (Ho p Hp). simpl.
      apply lookup_insert_ne. congruence.
    + match goal with |- context [for_each vs _ ?st] =>
        destruct (IH st rs) as (s' & Hrun & Hv & Hf & Hd & Ho) end.
      { simpl. exact Hdb. }
      exists s'. split; [exact Hrun|]. split; [by rewrite Hv|]. split; [by rewrite Hf|].
      split; [exact Hd|]. intros p Hp. by rewrite (Ho p Hp).
Qed.

(** Upserts under distinct keys into an empty table append, in
    order. *)
Lemma stored_distinct (vs : obj) (rs : list (string * string)) :
  NoDup (rs.*1 ++ keys vs) →
  stored vs rs
  = (rs ++ omap (λ kv, (λ t, (kv.1, t)) <$> JSON_stringify kv.2) vs)%list.
Proof.
  revert rs. induction vs as [|[k v] vs IH]; intros rs Hnd.
  - simpl. by rewrite app_nil_r.
  - change (keys ((k, v) :: vs)) with (k :: keys vs) in Hnd.
    simpl. destruct (JSON_stringify v) as [t|]; simpl.
    + apply NoDup_app in Hnd as (Hrs & Hdisj & Hvs).
      apply NoDup_cons in Hvs as [Hk Hvs].
      assert (Hout : k ∉ rs.*1) by (intros Hin; apply (Hdisj k Hin); left).
      rewrite upsert_absent by exact Hout.
      rewrite IH; [by rewrite <- app_assoc|].
      rewrite fmap_app. simpl. rewrite <- app_assoc. simpl.
      apply NoDup_app. split; [exact Hrs|]. split.
      * intros x Hx. rewrite elem_of_cons. intros [->|Hin]; [done|].
        apply (Hdisj x Hx). by right.
      * by apply NoDup_cons.
    + apply IH. apply NoDup_app in Hnd as (Hrs & Hdisj & Hvs).
      apply NoDup_cons in Hvs as [Hk Hvs].
      apply NoDup_app. split; [exact Hrs|]. split; [|exact Hvs].
      intros x Hx Hin. apply (Hdisj x Hx). by right.
Qed.

Lemma readJson_parse_success (self : Storage.instance) (s : Storage.state)
    (content : string) (doc : value) :
  Storage.files s !! Storage.path self = Some content →
  JSON_parse content = Some doc →
  readJson self s
  = Some (Storage.set_values (spread (Storage.values s) (own_props doc))
            (Storage.emit (FsRead (Storage.path self)) s), Ok tt).
Proof.
  intros Hfile Hdoc. unfold Storage.readJson, try_catch, bind, Storage.readFileSync.
  rewrite Hfile, Hdoc. reflexivity.
Qed.

Lemma initialize_json (self : Storage.instance) (s : Storage.state) :
  Storage.type self = Storage.json →
  initialize self s
  = ((if bool_decide (is_Some (Storage.files s !! Storage.path self))
      then readJson self else writeJson self) >>
     when debugEnabled
       (Storage.logger_emit LSuccess
          ("Parsed storage file at " +:+ dq +:+ Storage.relative self +:+ dq +:+ "."))) s.
Proof.
  intros Hty. unfold Storage.initialize. rewrite Hty.
  unfold bind, Storage.existsSync, gets.
  destruct (bool_decide (is_Some (Storage.files s !! Storage.path self))); reflexivity.
Qed.

(** X11.  Opening a JSON store on an existing file whose content
    deserializes only reads the file.  Key by key, [values] holds what
    the document holds for the key, and the default where the document
    lacks it; its keys are those of the defaults and of the document.
    Nothing is written, so a default the file lacks is in memory but not
    on disk. *)
Theorem json_open_existing_file_reads_only
    (ty : Storage.StorageType) (p : string) (world : option string)
    (defaults : obj) (fs : gmap string string) (ds : gmap string Storage.database)
    (q content : string) (doc : value) :
  resolvePath ty p (match ty with Storage.World => world | _ => None end) = Ok q →
  Path.extname pf q = ".json" →
  fs !! q = Some content →
  JSON_parse content = Some doc →
  NoDup (keys (own_props doc)) →
  ∃ s self, constructor ty p world defaults (Storage.fresh fs ds) = Some (s, Ok self)
    ∧ Storage.path self = q
    ∧ (∀ k, obj_get k (Storage.values s)
            = match obj_get k (own_props doc) with
              | Some v => Some v
              | None => obj_get k defaults
              end)
    ∧ (∀ k, k ∈ keys (Storage.values s) ↔ k ∈ keys defaults ∨ k ∈ keys (own_props doc))
    ∧ Storage.files s = fs
    ∧ Storage.dbs s = ds
    ∧ Storage.trace s =
        FsRead q ::
        (if debugEnabled
         then [Log "Storage" LSuccess
                 ("Parsed storage file at " +:+ dq +:+ path_relative cwd q
                  +:+ dq +:+ ".")]
         else []).
Proof.
  intros Hpath Hext Hfile Hdoc Hnd.
  pose proof (constructor_opens JSON_parse JSON_stringify JSON_stringify_pretty debugEnabled
                cwd pf path_relative ty p world defaults (Storage.fresh fs ds) q
                Storage.json Hpath Hext) as Hopen.
  cbv zeta in Hopen. rewrite Hopen. unfold bind at 1.
  rewrite initialize_json by reflexivity.
  cbn [Storage.path Storage.files Storage.set_values Storage.fresh].
  rewrite bool_decide_eq_true_2 by eauto.
  unfold bind at 1.
  rewrite (readJson_parse_success _ _ content doc) by (simpl; assumption).
  rewrite when_storage_emit. unfold ret.
  eexists. eexists. split; [reflexivity|].
  assert (Hvals : ∀ e,
            Storage.values
              (if debugEnabled
               then Storage.emit e
                      (Storage.set_values
                         (spread
                            (Storage.values
                               (Storage.set_values defaults (Storage.fresh fs ds)))
                            (own_props doc))
                         (Storage.emit (FsRead q)
                            (Storage.set_values defaults (Storage.fresh fs ds))))
               else Storage.set_values
                      (spread
                         (Storage.values
                            (Storage.set_values defaults (Storage.fresh fs ds)))
                         (own_props doc))
                      (Storage.emit (FsRead q)
                         (Storage.set_values defaults (Storage.fresh fs ds))))
            = spread defaults (own_props doc)) by (intros e; destruct debugEnabled; reflexivity).
  split; [reflexivity|]. split; [|split].
  - intros k. cbn [Storage.path]. rewrite Hvals. by apply obj_get_spread_lookup.
  - intros k. cbn [Storage.path]. rewrite Hvals. apply keys_spread.
  - destruct debugEnabled; simpl; auto.
Qed.

(** X12.  Opening a JSON store whose file does not exist creates the
    file with the serialized defaults, and [values] is the defaults. *)
Theorem json_first_open_writes_defaults
    (ty : Storage.StorageType) (p : string) (world : option string)
    (defaults : obj) (fs : gmap string string) (ds : gmap string Storage.database)
    (q : string) :
  resolvePath ty p (match ty with Storage.World => world | _ => None end) = Ok q →
  Path.extname pf q = ".json" →
  fs !! q = None →
  ∃ s self, constructor ty p world defaults (Storage.fresh fs ds) = Some (s, Ok self)
    ∧ Storage.path self = q
    ∧ Storage.values s = defaults
    ∧ Storage.files s = <[q := JSON_stringify_pretty defaults]> fs
    ∧ Storage.dbs s = ds
    ∧ Storage.trace s =
        FsWrite q (JSON_stringify_pretty defaults) ::
        (if debugEnabled
         then [Log "Storage" LSuccess
                 ("Parsed storage file at " +:+ dq +:+ path_relative cwd q
                  +:+ dq +:+ ".")]
         else []).
Proof.
  intros Hpath Hext Hfile.
  pose proof (constructor_opens JSON_parse JSON_stringify JSON_stringify_pretty debugEnabled
                cwd pf path_relative ty p world defaults (Storage.fresh fs ds) q
                Storage.json Hpath Hext) as Hopen.
  cbv zeta in Hopen. rewrite Hopen. unfold bind at 1.
  rewrite initialize_json by reflexivity.
  cbn [Storage.path Storage.files Storage.set_values Storage.fresh].
  rewrite bool_decide_eq_false_2 by (rewrite Hfile; apply is_Some_None).
  unfold bind at 1.
  rewrite writeJson_returns, when_storage_emit. unfold ret.
  eexists. eexists. split; [reflexivity|]. destruct debugEnabled; simpl; auto 10.
Qed.

(** X13.  On the JSON backend [setValue] rewrites the whole file with
    the serialization of [values].  When the JSON implementation reads
    that text back as the mapping it was printed from, a store opened
    again on the file, with any defaults, yields the value that was
    set, and opening it writes nothing. *)
Theorem json_setValue_reopen_round_trip
    (self : Storage.instance) (key : string) (v : value) (s : Storage.state)
    (defaults' : obj) :
  Storage.type self = Storage.json →
  NoDup (keys (Storage.values s)) →
  JSON_parse (JSON_stringify_pretty (obj_set key v (Storage.values s)))
  = Some (VObj (obj_set key v (Storage.values s))) →
  ∃ s', setValue self key v s = Some (s', Ok tt)
    ∧ Storage.files s'
      = <[Storage.path self := JSON_stringify_pretty (obj_set key v (Storage.values s))]>
          (Storage.files s)
    ∧ ∃ s'', initialize self (Storage.set_values defaults' s') = Some (s'', Ok tt)
             ∧ Storage.getValue key s'' = Some (s'', Ok v)
             ∧ Storage.files s'' = Storage.files s'.
Proof.
  intros Hty Hnd Hround.
  unfold Storage.setValue. rewrite Hty. unfold bind at 1. unfold modify at 1.
  rewrite writeJson_returns.
  eexists. split; [reflexivity|]. split; [reflexivity|].
  rewrite initialize_json by exact Hty.
  cbn [Storage.path Storage.files Storage.set_values Storage.set_files Storage.emit
       Storage.values].
  rewrite bool_decide_eq_true_2 by (rewrite lookup_insert_eq; eauto).
  unfold bind at 1.
  erewrite readJson_parse_success; [| simpl; apply lookup_insert_eq | exact Hround].
  rewrite when_storage_emit.
  eexists. split; [reflexivity|]. split.
  - unfold Storage.getValue, gets.
    assert (Hget : obj_get key (spread defaults' (obj_set key v (Storage.values s)))
                   = Some v).
    { apply obj_get_spread; [by apply NoDup_keys_obj_set | apply obj_get_set_eq]. }
    destruct debugEnabled; simpl; by rewrite Hget.
  - destruct debugEnabled; reflexivity.
Qed.

Lemma initialize_sqlite (self : Storage.instance) (s : Storage.state) :
  Storage.type self = Storage.sqlite →
  initialize self s
  = (readSqlite self >>
     when debugEnabled
       (Storage.logger_emit LSuccess
          ("Parsed storage file at " +:+ dq +:+ Storage.relative self +:+ dq +:+ ".")))
      (match Storage.dbs s !! Storage.path self with
       | Some _ => s
       | None =>
           Storage.set_dbs
             (insert (Storage.path self) {| Storage.rows := []; Storage.writable := true |}) s
       end).
Proof.
  intros Hty. unfold Storage.initialize. rewrite Hty. reflexivity.
Qed.

Lemma readSqlite_failure (self : Storage.instance) (s : Storage.state)
    (d : Storage.database) (e : error) :
  Storage.dbs s !! Storage.path self = Some d →
  parse_rows (Storage.rows d) [] = Throw e →
  readSqlite self s
  = Some (Storage.emit
            (Log "Storage" LWarn
               ("§cFailed to read data from SQLite database at §r"
                +:+ dq +:+ Storage.relative self +:+ dq +:+ "§c.")) s, Ok tt).
Proof.
  intros Hdb Hbad. unfold Storage.readSqlite, try_catch. unfold bind at 1. rewrite Hdb.
  unfold bind at 1. unfold lift at 1. rewrite Hbad. reflexivity.
Qed.

Lemma readSqlite_loaded (self : Storage.instance) (s : Storage.state)
    (d : Storage.database) (o : obj) :
  Storage.dbs s !! Storage.path self = Some d →
  parse_rows (Storage.rows d) [] = Ok o →
  length (Storage.rows d) ≠ 0%nat →
  readSqlite self s = Some (Storage.set_values (spread (Storage.values s) o) s, Ok tt).
Proof.
  intros Hdb Hrows Hne. unfold Storage.readSqlite, try_catch. unfold bind at 1. rewrite Hdb.
  unfold bind at 1. unfold lift at 1. rewrite Hrows.
  unfold bind at 1. unfold modify at 1.
  rewrite bool_decide_eq_false_2 by exact Hne. reflexivity.
Qed.

Lemma readSqlite_empty (self : Storage.instance) (s : Storage.state) :
  Storage.dbs s !! Storage.path self
  = Some {| Storage.rows := []; Storage.writable := true |} →
  ∃ s', readSqlite self s = Some (s', Ok tt)
        ∧ Storage.values s' = Storage.values s
        ∧ Storage.files s' = Storage.files s
        ∧ Storage.dbs s' !! Storage.path self
          = Some {| Storage.rows := stored (Storage.values s) []; Storage.writable := true |}
        ∧ ∀ p, p ≠ Storage.path self → Storage.dbs s' !! p = Storage.dbs s !! p.
Proof.
  intros Hdb. unfold Storage.readSqlite, try_catch. unfold bind at 1. rewrite Hdb.
  unfold bind at 1. unfold lift at 1. cbn [Storage.rows Storage.parse_rows].
  unfold bind at 1. unfold modify at 1. rewrite spread_nil_r.
  cbn [length]. rewrite bool_decide_eq_true_2 by reflexivity.
  unfold bind at 1. unfold gets at 1. cbn [Storage.values Storage.set_values].
  destruct (write_back_result self (Storage.values s)
              (Storage.set_values (Storage.values s) s) [])
    as (s' & Hrun & Hv & Hf & Hd & Ho); [exact Hdb|].
  rewrite Hrun. exists s'. split; [reflexivity|]. auto.
Qed.

Lemma stored_rows_keys (vs : obj) (k : string) :
  k ∈ (omap (λ kv, (λ t, (kv.1, t)) <$> JSON_stringify kv.2) vs).*1 → k ∈ keys vs.
Proof.
  induction vs as [|[k0 v0] vs IH]; [intros H; inversion H|].
  change (keys ((k0, v0) :: vs)) with (k0 :: keys vs). simpl.
  destruct (JSON_stringify v0) as [t|]; simpl.
  - rewrite !elem_of_cons. intros [->|Hin]; auto.
  - rewrite elem_of_cons. auto.
Qed.

Lemma stored_rows_NoDup (vs : obj) :
  NoDup (keys vs) →
  NoDup (omap (λ kv, (λ t, (kv.1, t)) <$> JSON_stringify kv.2) vs).*1.
Proof.
  induction vs as [|[k0 v0] vs IH]; [intros _; apply NoDup_nil_2|].
  change (keys ((k0, v0) :: vs)) with (k0 :: keys vs).
  rewrite NoDup_cons. intros [Hk0 Hnd]. simpl.
  destruct (JSON_stringify v0) as [t|]; simpl; [|auto].
  apply NoDup_cons. split; [|auto].
  intros Hin. apply Hk0. by apply stored_rows_keys.
Qed.

Lemma stored_rows_select (vs : obj) (k : string) :
  NoDup (keys vs) →
  Table.select_value k (omap (λ kv, (λ t, (kv.1, t)) <$> JSON_stringify kv.2) vs)
  = match obj_get k vs with
    | Some v => JSON_stringify v
    | None => None
    end.
Proof.
  induction vs as [|[k0 v0] vs IH]; [reflexivity|].
  change (keys ((k0, v0) :: vs)) with (k0 :: keys vs).
  rewrite NoDup_cons. intros [Hk0 Hnd]. simpl.
  destruct (decide (k = k0)) as [->|Hne].
  - destruct (JSON_stringify v0) as [t|]; simpl.
    + by rewrite decide_True.
    + apply select_value_None. intros Hin. apply Hk0. by apply stored_rows_keys.
  - destruct (JSON_stringify v0) as [t|]; simpl.
    + rewrite decide_False by exact Hne. auto.
    + auto.
Qed.

(** X14.  Opening a SQLite store whose table is new or empty stores
    the defaults: after the constructor, [values] is the defaults and
    the table holds, under unique keys, the JSON text of every default
    that has one and nothing else; a default whose value has no JSON
    text ([undefined]) gets no row.  Other databases are untouched. *)
Theorem sqlite_first_open_stores_every_default
    (ty : Storage.StorageType) (p : string) (world : option string)
    (defaults : obj) (fs : gmap string string) (ds : gmap string Storage.database)
    (q : string) :
  resolvePath ty p (match ty with Storage.World => world | _ => None end) = Ok q →
  Path.extname pf q = ".sqlite" →
  ds !! q = None ∨ ds !! q = Some {| Storage.rows := []; Storage.writable := true |} →
  NoDup (keys defaults) →
  ∃ s self d, constructor ty p world defaults (Storage.fresh fs ds) = Some (s, Ok self)
    ∧ Storage.path self = q
    ∧ Storage.values s = defaults
    ∧ Storage.files s = fs
    ∧ Storage.dbs s !! q = Some d
    ∧ NoDup (Storage.rows d).*1
    ∧ (∀ k, Table.select_value k (Storage.rows d)
            = match obj_get k defaults with
              | Some v => JSON_stringify v
              | None => None
              end)
    ∧ ∀ p', p' ≠ q → Storage.dbs s !! p' = ds !! p'.
Proof.
  intros Hpath Hext Hdb Hnd.
  pose proof (constructor_opens JSON_parse JSON_stringify JSON_stringify_pretty debugEnabled
                cwd pf path_relative ty p world defaults (Storage.fresh fs ds) q
                Storage.sqlite Hpath Hext) as Hopen.
  cbv zeta in Hopen. rewrite Hopen. unfold bind at 1.
  rewrite initialize_sqlite by reflexivity.
  cbn [Storage.path Storage.dbs Storage.set_values Storage.fresh].
  match goal with |- context [(readSqlite ?i >> ?k) ?st] => set (self := i); set (s0 := st) end.
  assert (Hs0 : Storage.dbs s0 !! q = Some {| Storage.rows := []; Storage.writable := true |}
                ∧ Storage.values s0 = defaults ∧ Storage.files s0 = fs
                ∧ ∀ p', p' ≠ q → Storage.dbs s0 !! p' = ds !! p').
  { subst s0. destruct Hdb as [Hdb|Hdb]; rewrite Hdb; simpl.
    - rewrite lookup_insert_eq. repeat split. intros p' Hp'. apply lookup_insert_ne. congruence.
    - auto. }
  destruct Hs0 as (Hdb0 & Hv0 & Hf0 & Ho0).
  destruct (readSqlite_empty self s0 Hdb0) as (s1 & Hrun & Hv & Hf & Hd & Ho).
  unfold bind at 1. rewrite Hrun, when_storage_emit. unfold ret.
  eexists. eexists.
  exists {| Storage.rows := omap (λ kv, (λ t, (kv.1, t)) <$> JSON_stringify kv.2) defaults;
            Storage.writable := true |}.
  split; [reflexivity|].
  rewrite Hv0 in Hd. rewrite stored_distinct in Hd by exact Hnd. simpl in Hd.
  cbn [Storage.rows].
  destruct debugEnabled; simpl; (split; [reflexivity|]); (split; [congruence|]);
    (split; [congruence|]); (split; [exact Hd|]);
    (split; [by apply stored_rows_NoDup|]);
    (split; [intros k; by apply stored_rows_select|]);
    intros p' Hp'; rewrite <- (Ho0 p' Hp'); apply Ho; exact Hp'.
Qed.

(** X15.  Opening a SQLite store on a table with a row whose text does
    not deserialize: the constructor returns, [values] is exactly the
    defaults (no row is loaded, not even those before the bad one), the
    table and the files are as they were, and the warning is logged
    whether or not [debugEnabled] is set. *)
Theorem sqlite_load_failure_keeps_defaults_and_warns
    (ty : Storage.StorageType) (p : string) (world : option string)
    (defaults : obj) (fs : gmap string string) (ds : gmap string Storage.database)
    (q : string) (d : Storage.database) (e : error) :
  resolvePath ty p (match ty with Storage.World => world | _ => None end) = Ok q →
  Path.extname pf q = ".sqlite" →
  ds !! q = Some d →
  parse_rows (Storage.rows d) [] = Throw e →
  ∃ s self, constructor ty p world defaults (Storage.fresh fs ds) = Some (s, Ok self)
    ∧ Storage.path self = q
    ∧ Storage.values s = defaults
    ∧ Storage.files s = fs
    ∧ Storage.dbs s = ds
    ∧ Storage.trace s =
        Log "Storage" LWarn
          ("§cFailed to read data from SQLite database at §r"
           +:+ dq +:+ path_relative cwd q +:+ dq +:+ "§c.") ::
        (if debugEnabled
         then [Log "Storage" LSuccess
                 ("Parsed storage file at " +:+ dq +:+ path_relative cwd q
                  +:+ dq +:+ ".")]
         else []).
Proof.
  intros Hpath Hext Hdb Hbad.
  pose proof (constructor_opens JSON_parse JSON_stringify JSON_stringify_pretty debugEnabled
                cwd pf path_relative ty p world defaults (Storage.fresh fs ds) q
                Storage.sqlite Hpath Hext) as Hopen.
  cbv zeta in Hopen. rewrite Hopen. unfold bind at 1.
  rewrite initialize_sqlite by reflexivity.
  cbn [Storage.path Storage.dbs Storage.set_values Storage.fresh]. rewrite Hdb.
  unfold bind at 1.
  rewrite (readSqlite_failure _ _ d e) by (simpl; assumption).
  rewrite when_storage_emit. unfold ret.
  eexists. eexists. split; [reflexivity|]. destruct debugEnabled; simpl; auto 10.
Qed.

(** What loading a table gives for one key, when keys are unique. *)
Lemma parse_rows_get (rs : list (string * string)) (acc o : obj) (k : string) :
  NoDup rs.*1 →
  parse_rows rs acc = Ok o →
  obj_get k o = match Table.select_value k rs with
                | Some t => JSON_parse t
                | None => obj_get k acc
                end.
Proof.
  revert acc. induction rs as [|[k0 t0] rs IH]; intros acc Hnd.
  - intros [= <-]. reflexivity.
  - rewrite fmap_cons in Hnd. apply NoDup_cons in Hnd as [Hk0 Hnd].
    cbn [Storage.parse_rows Table.select_value].
    destruct (JSON_parse t0) as [v0|] eqn:Hp; [|discriminate].
    intros Hrun. rewrite (IH _ Hnd Hrun).
    destruct (decide (k = k0)) as [->|Hne].
    + rewrite select_value_None by exact Hk0. by rewrite obj_get_set_eq.
    + rewrite obj_get_set_ne by congruence. reflexivity.
Qed.

Lemma parse_rows_NoDup (rs : list (string * string)) (acc o : obj) :
  NoDup (keys acc) → parse_rows rs acc = Ok o → NoDup (keys o).
Proof.
  revert acc. induction rs as [|[k0 t0] rs IH]; intros acc Hnd.
  - by intros [= <-].
  - cbn [Storage.parse_rows]. destruct (JSON_parse t0) as [v0|]; [|discriminate].
    apply IH. by apply NoDup_keys_obj_set.
Qed.

Lemma parse_rows_ok (rs : list (string * string)) (acc : obj) :
  (∃ o, parse_rows rs acc = Ok o) ↔ Forall (λ r, is_Some (JSON_parse r.2)) rs.
Proof.
  revert acc. induction rs as [|[k0 t0] rs IH]; intros acc.
  - split; [intros _; constructor | intros _; simpl; eauto].
  - cbn [Storage.parse_rows]. rewrite Forall_cons. cbn [snd].
    destruct (JSON_parse t0) as [v0|].
    + rewrite IH. split; [intros H; split; [eauto | exact H] | intros [_ H]; exact H].
    + split; [intros [o Ho]; discriminate | intros [[x Hx] _]; discriminate].
Qed.

Lemma Forall_upsert (P : string * string → Prop) (k t : string)
    (rs : list (string * string)) :
  P (k, t) → Forall P rs → Forall P (Storage.upsert k t rs).
Proof.
  intros Hkt. induction 1 as [|[k0 t0] rs Hx Hrs IH]; simpl.
  - by constructor.
  - destruct (decide (k = k0)); constructor; auto.
Qed.

(** X16.  On the SQLite backend, on a table that accepts writes, whose
    keys are unique and whose rows all deserialize: [setValue] of a
    value that the JSON implementation prints and reads back stores the
    row, and a store opened again on the table, with any defaults,
    yields the value; opening it does not touch the table. *)
Theorem sqlite_setValue_reopen_round_trip
    (self : Storage.instance) (key : string) (v : value) (s : Storage.state)
    (d : Storage.database) (t : string) (o defaults' : obj) :
  Storage.type self = Storage.sqlite →
  Storage.dbs s !! Storage.path self = Some d →
  Storage.writable d = true →
  NoDup (Storage.rows d).*1 →
  parse_rows (Storage.rows d) [] = Ok o →
  JSON_stringify v = Some t →
  JSON_parse t = Some v →
  ∃ s', setValue self key v s = Some (s', Ok tt)
    ∧ Storage.dbs s' !! Storage.path self
      = Some {| Storage.rows := Storage.upsert key t (Storage.rows d);
                Storage.writable := true |}
    ∧ ∃ s'', initialize self (Storage.set_values defaults' s') = Some (s'', Ok tt)
             ∧ Storage.getValue key s'' = Some (s'', Ok v)
             ∧ Storage.dbs s'' = Storage.dbs s'.
Proof.
  intros Hty Hdb Hw Hnd Hrows Ht Hround.
  unfold Storage.setValue. rewrite Hty. unfold bind at 1. unfold modify at 1.
  rewrite (writeSqlite_result self key v _ d) by assumption. rewrite Ht.
  eexists. split; [reflexivity|]. split; [simpl; apply lookup_insert_eq|].
  rewrite initialize_sqlite by exact Hty.
  cbn [Storage.dbs Storage.set_values Storage.set_dbs Storage.emit].
  rewrite lookup_insert_eq.
  destruct (proj2 (parse_rows_ok (Storage.upsert key t (Storage.rows d)) [])) as [o' Ho'].
  { apply Forall_upsert; [simpl; rewrite Hround; eauto|].
    apply (parse_rows_ok _ []). eauto. }
  unfold bind at 1.
  erewrite readSqlite_loaded;
    [| simpl; apply lookup_insert_eq | exact Ho' | apply upsert_nonempty].
  rewrite when_storage_emit.
  eexists. split; [reflexivity|]. split.
  - unfold Storage.getValue, gets.
    assert (Hget : obj_get key (spread defaults' o') = Some v).
    { apply obj_get_spread.
      - apply (parse_rows_NoDup (Storage.upsert key t (Storage.rows d)) [] o');
          [apply NoDup_nil_2 | exact Ho'].
      - rewrite (parse_rows_get (Storage.upsert key t (Storage.rows d)) [] o' key
                   (upsert_NoDup key t _ Hnd) Ho').
        by rewrite select_value_upsert_eq. }
    destruct debugEnabled; simpl; by rewrite Hget.
  - destruct debugEnabled; reflexivity.
Qed.

(** X17.  On the SQLite backend, on a table that accepts writes,
    [setValue] of a value with a JSON text runs one statement: the row
    of the key holds the text, every other row and every other database
    is as it was, keys stay unique, and no file is written. *)
Theorem sqlite_setValue_upserts_one_row
    (self : Storage.instance) (key : string) (v : value) (s : Storage.state)
    (d : Storage.database) (t : string) :
  Storage.type self = Storage.sqlite →
  Storage.dbs s !! Storage.path self = Some d →
  Storage.writable d = true →
  JSON_stringify v = Some t →
  ∃ s' d', setValue self key v s = Some (s', Ok tt)
    ∧ Storage.dbs s' !! Storage.path self = Some d'
    ∧ Table.select_value key (Storage.rows d') = Some t
    ∧ (∀ k, k ≠ key →
         Table.select_value k (Storage.rows d') = Table.select_value k (Storage.rows d))
    ∧ (NoDup (Storage.rows d).*1 → NoDup (Storage.rows d').*1)
    ∧ (∀ p, p ≠ Storage.path self → Storage.dbs s' !! p = Storage.dbs s !! p)
    ∧ Storage.files s' = Storage.files s
    ∧ Storage.trace s' = (Storage.trace s ++ [DbRun (Storage.path self) key (Some t)])%list.
Proof.
  intros Hty Hdb Hw Ht.
  unfold Storage.setValue. rewrite Hty. unfold bind at 1. unfold modify at 1.
  rewrite (writeSqlite_result self key v _ d) by assumption. rewrite Ht.
  eexists. eexists. split; [reflexivity|].
  split; [simpl; apply lookup_insert_eq|]. cbn [Storage.rows].
  split; [apply select_value_upsert_eq|].
  split; [intros k Hk; apply select_value_upsert_ne; congruence|].
  split; [apply upsert_NoDup|].
  split; [intros p Hp; simpl; apply lookup_insert_ne; congruence|].
  split; reflexivity.
Qed.

Lemma parse_rows_keys (rs : list (string * string)) (acc o : obj) (k : string) :
  parse_rows rs acc = Ok o → k ∈ keys o ↔ k ∈ keys acc ∨ k ∈ rs.*1.
Proof.
  revert acc. induction rs as [|[k0 t0] rs IH]; intros acc.
  - intros [= <-]. rewrite fmap_nil, elem_of_nil. tauto.
  - cbn [Storage.parse_rows]. destruct (JSON_parse t0) as [v0|]; [|discriminate].
    intros Hrun. rewrite (IH _ Hrun), keys_obj_set, fmap_cons, elem_of_cons. cbn [fst]. tauto.
Qed.

(** What a load of a table whose rows all deserialize leaves in
    [values], key by key. *)
Lemma loaded_rows_lookup (rs : list (string * string)) (o defaults : obj) (k : string) :
  NoDup rs.*1 →
  Forall (λ r, is_Some (JSON_parse r.2)) rs →
  parse_rows rs [] = Ok o →
  obj_get k (spread defaults o)
  = match Table.select_value k rs with
    | Some t => JSON_parse t
    | None => obj_get k defaults
    end.
Proof.
  intros Hnd Hall Hrun.
  rewrite obj_get_spread_lookup
    by (apply (parse_rows_NoDup rs [] o); [apply NoDup_nil_2 | exact Hrun]).
  rewrite (parse_rows_get rs [] o k Hnd Hrun).
  destruct (Table.select_value k rs) as [t|] eqn:Hsel; [|reflexivity].
  apply select_value_elem in Hsel. rewrite Forall_forall in Hall.
  destruct (Hall _ Hsel) as [v Hv]. simpl in Hv. rewrite Hv. reflexivity.
Qed.

(** X20.  Opening a SQLite store on a table that holds rows, under
    unique keys, all of which deserialize, only reads the table.  Key by
    key, [values] holds what the row of the key deserializes to, and the
    default where the table has no row for it; its keys are those of the
    defaults and of the rows.  No statement is run, so a default the
    table lacks is in memory but gets no row. *)
Theorem sqlite_open_existing_table_reads_only
    (ty : Storage.StorageType) (p : string) (world : option string)
    (defaults : obj) (fs : gmap string string) (ds : gmap string Storage.database)
    (q : string) (d : Storage.database) :
  resolvePath ty p (match ty with Storage.World => world | _ => None end) = Ok q →
  Path.extname pf q = ".sqlite" →
  ds !! q = Some d →
  Storage.rows d ≠ [] →
  NoDup (Storage.rows d).*1 →
  Forall (λ r, is_Some (JSON_parse r.2)) (Storage.rows d) →
  ∃ s self, constructor ty p world defaults (Storage.fresh fs ds) = Some (s, Ok self)
    ∧ Storage.path self = q
    ∧ (∀ k, obj_get k (Storage.values s)
            = match Table.select_value k (Storage.rows d) with
              | Some t => JSON_parse t
              | None => obj_get k defaults
              end)
    ∧ (∀ k, k ∈ keys (Storage.values s) ↔ k ∈ keys defaults ∨ k ∈ (Storage.rows d).*1)
    ∧ Storage.files s = fs
    ∧ Storage.dbs s = ds
    ∧ Storage.trace s =
        (if debugEnabled
         then [Log "Storage" LSuccess
                 ("Parsed storage file at " +:+ dq +:+ path_relative cwd q
                  +:+ dq +:+ ".")]
         else []).
Proof.
  intros Hpath Hext Hdb Hne Hnd Hall.
  destruct (proj2 (parse_rows_ok (Storage.rows d) []) Hall) as [o Hrows].
  pose proof (constructor_opens JSON_parse JSON_stringify JSON_stringify_pretty debugEnabled
                cwd pf path_relative ty p world defaults (Storage.fresh fs ds) q
                Storage.sqlite Hpath Hext) as Hopen.
  cbv zeta in Hopen. rewrite Hopen. unfold bind at 1.
  rewrite initialize_sqlite by reflexivity.
  cbn [Storage.path Storage.dbs Storage.set_values Storage.fresh]. rewrite Hdb.
  unfold bind at 1.
  rewrite (readSqlite_loaded _ _ d o);
    [| simpl; assumption | assumption | destruct (Storage.rows d); [done | discriminate]].
  rewrite when_storage_emit. unfold ret.
  eexists. eexists. split; [reflexivity|].
  assert (Hvals : ∀ e (s1 : Storage.state),
            Storage.values (if debugEnabled then Storage.emit e s1 else s1)
            = Storage.values s1) by (intros e s1; destruct debugEnabled; reflexivity).
  split; [reflexivity|]. split; [|split].
  - intros k. rewrite Hvals. cbn [Storage.values Storage.set_values].
    by apply loaded_rows_lookup.
  - intros k. rewrite Hvals. cbn [Storage.values Storage.set_values].
    rewrite keys_spread, (parse_rows_keys _ [] o k Hrows).
    change (keys []) with (@nil string). rewrite elem_of_nil. tauto.
  - destruct debugEnabled; simpl; auto.
Qed.

End StorageMore.

(** ** On a host that refuses operations *)

Section StorageOnHost.

Variable JSON_parse : string → option value.
Variable JSON_stringify : value → option string.
Variable JSON_stringify_pretty : obj → string.
Variable debugEnabled : bool.
Variable cwd : string.
Variable pf : Path.platform.
Variable path_relative : string → string → string.
Variable refuses : string → bool.

Local Abbreviation resolvePath := (Storage.resolvePath cwd pf).
Local Abbreviation writeJson := (Storage.writeJson JSON_stringify_pretty refuses).
Local Abbreviation initialize :=
  (Storage.initialize JSON_parse JSON_stringify JSON_stringify_pretty debugEnabled refuses).
Local Abbreviation constructor :=
  (Storage.constructor JSON_parse JSON_stringify JSON_stringify_pretty
     debugEnabled cwd pf path_relative refuses).
Local Abbreviation setValue :=
  (Storage.setValue JSON_stringify JSON_stringify_pretty refuses).

(** The directory step of the constructor: it throws when the
    directory is not there as a file and the host refuses to create
    it. *)
Lemma ensure_directory_result (dir : string) (s : Storage.state) :
  (let* ex := Storage.existsSync dir in
   if negb ex then Storage.mkdirSync refuses dir else ret tt) s
  = Some (s, if negb (bool_decide (is_Some (Storage.files s !! dir))) && refuses dir
             then Throw SystemError else Ok tt).
Proof.
  unfold bind, Storage.existsSync, gets, Storage.mkdirSync.
  destruct (bool_decide (is_Some (Storage.files s !! dir))); [reflexivity|].
  destruct (refuses dir); reflexivity.
Qed.

Lemma writeJson_result (self : Storage.instance) (s : Storage.state) :
  writeJson self s
  = if refuses (Storage.path self) then Some (s, Throw SystemError)
    else Some (Storage.emit
                 (FsWrite (Storage.path self) (JSON_stringify_pretty (Storage.values s)))
                 (Storage.set_files
                    (insert (Storage.path self) (JSON_stringify_pretty (Storage.values s)))
                    s), Ok tt).
Proof.
  unfold Storage.writeJson, Storage.writeFileSync, bind, gets.
  destruct (refuses (Storage.path self)); reflexivity.
Qed.


(** [setValue] comes back with the value assigned in memory; it
    throws only on the JSON backend, when the host refuses the write. *)
Lemma setValue_result (self : Storage.instance) (key : string) (v : value)
    (s : Storage.state) :
  ∃ s' r, setValue self key v s = Some (s', r)
    ∧ Storage.values s' = obj_set key v (Storage.values s)
    ∧ match r with
      | Ok _ => Storage.type self = Storage.sqlite ∨ refuses (Storage.path self) = false
      | Throw e =>
          Storage.type self = Storage.json
          ∧ refuses (Storage.path self) = true
          ∧ e = SystemError
          ∧ Storage.files s' = Storage.files s
      end.
Proof.
  unfold Storage.setValue. unfold bind at 1. unfold modify at 1.
  destruct (Storage.type self) eqn:Hty.
  - rewrite writeJson_result.
    destruct (refuses (Storage.path self)) eqn:Href.
    + eexists. exists (Throw SystemError). split; [reflexivity|]. simpl. auto 10.
    + eexists. exists (Ok tt). split; [reflexivity|]. simpl. auto.
  - destruct (writeSqlite_returns JSON_stringify self key v
                (Storage.set_values (obj_set key v (Storage.values s)) s))
      as (s' & Hrun & Hvals & _).
    rewrite Hrun. exists s', (Ok tt). split; [reflexivity|]. auto.
Qed.

(** Keys only accumulate: whatever calls follow and however they end,
    every key held before is still held after. *)
Lemma perform_all_keeps_keys_on_host (self : Storage.instance) (cs : list Storage.call)
    (s : Storage.state) :
  ∃ s' r, Storage.perform_all JSON_stringify JSON_stringify_pretty refuses self cs s
          = Some (s', r)
          ∧ ∀ k, k ∈ keys (Storage.values s) → k ∈ keys (Storage.values s').
Proof.
  unfold Storage.perform_all.
  apply (for_each_keeps
           (λ s', ∀ k, k ∈ keys (Storage.values s) → k ∈ keys (Storage.values s'))); [|auto].
  intros c s1 Hs1. destruct c as [key|key v]; simpl.
  - unfold Storage.getValue, bind, gets, ret. eauto.
  - destruct (setValue_result self key v s1) as (s2 & r & Hrun & Hvals & _).
    exists s2, r. split; [exact Hrun|].
    intros k Hk. rewrite Hvals. apply keys_obj_set. right. auto.
Qed.

(** The constructor past its checks. *)
Lemma constructor_opens_on_host (ty : Storage.StorageType) (p : string)
    (world : option string) (defaults : obj) (s0 : Storage.state) (q : string)
    (bk : Storage.backend) :
  resolvePath ty p (match ty with Storage.World => world | _ => None end) = Ok q →
  Path.extname pf q = match bk with Storage.json => ".json" | Storage.sqlite => ".sqlite" end →
  let self := {| Storage.path := q; Storage.relative := path_relative cwd q;
                 Storage.type := bk |} in
  constructor ty p world defaults s0
  = ((let* ex := Storage.existsSync (Path.dirname pf q) in
      if negb ex then Storage.mkdirSync refuses (Path.dirname pf q) else ret tt) >>
     modify (Storage.set_values defaults) >>
     initialize self >>
     ret self) s0.
Proof.
  intros Hpath Hext self.
  unfold Storage.constructor. unfold bind at 1. unfold lift at 1. rewrite Hpath.
  unfold bind at 1. rewrite Hext.
  destruct bk; reflexivity.
Qed.

(** A constructor call that returns has run [initialize] on the
    instance it returns, starting from the defaults. *)
Lemma constructor_returned (ty : Storage.StorageType) (p : string) (world : option string)
    (defaults : obj) (s0 s : Storage.state) (self : Storage.instance) :
  constructor ty p world defaults s0 = Some (s, Ok self) →
  initialize self (Storage.set_values defaults s0) = Some (s, Ok tt).
Proof.
  destruct (resolvePath ty p (match ty with Storage.World => world | _ => None end))
    as [q|e] eqn:Hpath;
    [|unfold Storage.constructor; unfold bind at 1; unfold lift at 1; rewrite Hpath;
      discriminate].
  assert (Hopen : ∀ bk,
    Path.extname pf q
    = match bk with Storage.json => ".json" | Storage.sqlite => ".sqlite" end →
    constructor ty p world defaults s0 = Some (s, Ok self) →
    initialize self (Storage.set_values defaults s0) = Some (s, Ok tt)).
  { intros bk Hext.
    pose proof (constructor_opens_on_host ty p world defaults s0 q bk Hpath Hext) as Hrun.
    cbv zeta in Hrun. rewrite Hrun. unfold bind at 1. rewrite ensure_directory_result.
    destruct (negb _ && refuses (Path.dirname pf q)); [discriminate|].
    unfold bind at 1. unfold modify at 1. unfold bind at 1.
    match goal with |- context [initialize ?i ?st] =>
      destruct (initialize i st) as [[s1 [[]|e]]|] eqn:Hinit end;
      [|discriminate|discriminate].
    unfold ret. intros [= <- <-]. exact Hinit. }
  destruct (bool_decide (Path.extname pf q = ".json")) eqn:Hjson.
  - apply bool_decide_eq_true in Hjson. exact (Hopen Storage.json Hjson).
  - destruct (bool_decide (Path.extname pf q = ".sqlite")) eqn:Hsql.
    + apply bool_decide_eq_true in Hsql. exact (Hopen Storage.sqlite Hsql).
    + unfold Storage.constructor. unfold bind at 1. unfold lift at 1. rewrite Hpath.
      unfold bind at 1. rewrite Hjson, Hsql. discriminate.
Qed.

(** The value mapping a load that returned has produced: the
    defaults, with what the file or the table holds spread over them
    when it deserializes. *)
Lemma initialize_returned (self : Storage.instance) (s s' : Storage.state) :
  initialize self s = Some (s', Ok tt) →
  Storage.values s' =
    match Storage.type self with
    | Storage.json =>
        match Storage.files s !! Storage.path self with
        | Some content =>
            match JSON_parse content with
            | Some jsonData => spread (Storage.values s) (own_props jsonData)
            | None => Storage.values s
            end
        | None => Storage.values s
        end
    | Storage.sqlite =>
        match Storage.dbs s !! Storage.path self with
        | Some d =>
            match Storage.parse_rows JSON_parse (Storage.rows d) [] with
            | Ok dbValues => spread (Storage.values s) dbValues
            | Throw _ => Storage.values s
            end
        | None => Storage.values s
        end
    end.
Proof.
  unfold Storage.initialize.
  destruct (Storage.type self).
  - unfold bind at 1. unfold bind at 1. unfold Storage.existsSync, gets.
    destruct (Storage.files s !! Storage.path self) as [content|] eqn:Hfile.
    + rewrite bool_decide_eq_true_2 by eauto.
      change (negb true) with false. cbv iota.
      destruct (readJson_returns JSON_parse debugEnabled self s) as (s1 & Hrun & _ & _ & Hv).
      rewrite Hrun, when_storage_emit. intros [= <-].
      rewrite Hfile in Hv.
      destruct debugEnabled; simpl; rewrite Hv; reflexivity.
    + rewrite bool_decide_eq_false_2 by apply is_Some_None.
      change (negb false) with true. cbv iota.
      rewrite writeJson_result.
      destruct (refuses (Storage.path self)); [discriminate|].
      rewrite when_storage_emit. intros [= <-].
      destruct debugEnabled; reflexivity.
  - unfold bind at 1. unfold bind at 1. unfold Storage.open_database.
    destruct (refuses (Storage.path self)); [discriminate|].
    unfold modify at 1.
    destruct (Storage.dbs s !! Storage.path self) as [d|] eqn:Hdb.
    + destruct (readSqlite_returns JSON_parse JSON_stringify self s) as (s1 & Hrun & _ & Hv).
      rewrite Hrun, when_storage_emit. intros [= <-].
      rewrite Hdb in Hv.
      destruct debugEnabled; simpl; rewrite Hv; reflexivity.
    + destruct (readSqlite_returns JSON_parse JSON_stringify self
                  (Storage.set_dbs
                     (insert (Storage.path self)
                        {| Storage.rows := []; Storage.writable := true |}) s))
        as (s1 & Hrun & _ & Hv).
      rewrite Hrun, when_storage_emit. intros [= <-].
      simpl in Hv. rewrite lookup_insert_eq in Hv. simpl in Hv.
      destruct debugEnabled; simpl; rewrite Hv; reflexivity.
Qed.

(** C4, as the code has it.  On any host, after a constructor call
    that returned, [values] holds every key of the defaults, and still
    does after any sequence of [getValue] and [setValue] calls, however
    they end.  At construction the persisted data wins over the defaults
    when all of it deserializes: a property of the JSON document, or a
    row of a table whose keys are unique and whose rows all deserialize,
    is held with its persisted value.  When the document or a single row
    does not deserialize, nothing is loaded: [values] is exactly the
    defaults, also for the keys whose own row is sound. *)
Theorem values_cover_defaults_and_loaded_data_wins
    (ty : Storage.StorageType) (p : string) (world : option string)
    (defaults : obj) (fs : gmap string string) (ds : gmap string Storage.database)
    (s : Storage.state) (self : Storage.instance) (cs : list Storage.call) :
  constructor ty p world defaults (Storage.fresh fs ds) = Some (s, Ok self) →
  (∀ k, k ∈ keys defaults → k ∈ keys (Storage.values s))
  ∧ (∃ s' r, Storage.perform_all JSON_stringify JSON_stringify_pretty refuses self cs s
             = Some (s', r)
             ∧ ∀ k, k ∈ keys defaults → k ∈ keys (Storage.values s'))
  ∧ (∀ content, Storage.type self = Storage.json →
       fs !! Storage.path self = Some content →
       match JSON_parse content with
       | Some doc =>
           NoDup (keys (own_props doc)) →
           ∀ k v, obj_get k (own_props doc) = Some v →
                  obj_get k (Storage.values s) = Some v
       | None => Storage.values s = defaults
       end)
  ∧ (∀ d, Storage.type self = Storage.sqlite →
       ds !! Storage.path self = Some d →
       (NoDup (Storage.rows d).*1 →
        Forall (λ r, is_Some (JSON_parse r.2)) (Storage.rows d) →
        ∀ k t v, (k, t) ∈ Storage.rows d → JSON_parse t = Some v →
                 obj_get k (Storage.values s) = Some v)
       ∧ (Exists (λ r, JSON_parse r.2 = None) (Storage.rows d) →
          Storage.values s = defaults)).
Proof.
  intros Hrun.
  pose proof (initialize_returned _ _ _ (constructor_returned _ _ _ _ _ _ _ Hrun)) as Hvals.
  cbn [Storage.values Storage.files Storage.dbs Storage.set_values Storage.fresh] in Hvals.
  assert (Hfloor : ∀ k, k ∈ keys defaults → k ∈ keys (Storage.values s)).
  { intros k Hk. rewrite Hvals.
    destruct (Storage.type self).
    - destruct (fs !! Storage.path self) as [content|]; [|exact Hk].
      destruct (JSON_parse content); [apply keys_spread; by left | exact Hk].
    - destruct (ds !! Storage.path self) as [d|]; [|exact Hk].
      destruct (Storage.parse_rows JSON_parse (Storage.rows d) []);
        [apply keys_spread; by left | exact Hk]. }
  split; [exact Hfloor|]. split; [|split].
  - destruct (perform_all_keeps_keys_on_host self cs s) as (s' & r & Hcs & Hkeys).
    exists s', r. split; [exact Hcs|]. auto.
  - intros content Hty Hfile. rewrite Hty, Hfile in Hvals.
    destruct (JSON_parse content) as [doc|]; [|exact Hvals].
    intros Hnd k v Hget. rewrite Hvals. by apply obj_get_spread.
  - intros d Hty Hdb. rewrite Hty, Hdb in Hvals. split.
    + intros Hnd Hall k t v Hin Ht.
      destruct (proj2 (parse_rows_ok JSON_parse (Storage.rows d) []) Hall) as [o Ho].
      rewrite Ho in Hvals. rewrite Hvals.
      rewrite (loaded_rows_lookup JSON_parse _ o defaults k Hnd Hall Ho).
      by rewrite (elem_select_value k t _ Hnd Hin).
    + intros Hbad.
      destruct (Storage.parse_rows JSON_parse (Storage.rows d) []) as [o|e] eqn:Ho;
        [|exact Hvals].
      exfalso. assert (Hall : Forall (λ r, is_Some (JSON_parse r.2)) (Storage.rows d))
        by (apply (parse_rows_ok JSON_parse _ []); eauto).
      apply Exists_exists in Hbad as (r & Hr & Hnone).
      rewrite Forall_forall in Hall. destruct (Hall r Hr) as [x Hx]. congruence.
Qed.



End StorageOnHost.

(** * Absolute file names *)

Lemma resolve_step_posix_device (acc : string * list string) (arg : string) :
  (Path.resolve_step Path.Posix acc arg).1 = acc.1.
Proof.
  unfold Path.resolve_step. destruct (bool_decide (arg = "")); [reflexivity|].
  simpl. destruct arg as [|c arg]; [reflexivity|].
  destruct (bool_decide (c = Path.slash)); reflexivity.
Qed.

Lemma resolve_fold_posix_device (args : list string) (acc : string * list string) :
  (fold_left (Path.resolve_step Path.Posix) args acc).1 = acc.1.
Proof.
  revert acc. induction args as [|a args IH]; intros acc; [reflexivity|].
  simpl. by rewrite IH, resolve_step_posix_device.
Qed.

(** On a POSIX host [resolve] restarts at an absolute argument: what
    comes before it plays no role. *)
Lemma resolve_posix_absolute_last (cwd : string) (args : list string) (rest : string) :
  Path.resolve Path.Posix cwd (args ++ [String Path.slash rest])
  = Path.resolve Path.Posix cwd [String Path.slash rest].
Proof.
  unfold Path.resolve.
  change (Path.split_path Path.Posix cwd)
    with ("", match cwd with
              | String c _ => Path.is_sep Path.Posix c
              | EmptyString => false
              end, Path.segments Path.Posix cwd).
  cbv iota beta. rewrite fold_left_app.
  set (acc := fold_left (Path.resolve_step Path.Posix) args ("", Path.segments Path.Posix cwd)).
  assert (Hdev : acc.1 = "") by apply resolve_fold_posix_device.
  destruct acc as [dev segs]. simpl in Hdev. subst dev. reflexivity.
Qed.

(** X18.  On a POSIX host, an absolute file name given to a [Storage]
    constructor is taken as it is: for each of the three domains (and
    whatever the world name) [resolvePath] returns the normalized file
    name itself, outside the directory of the domain. *)
Theorem resolvePath_absolute_path_ignores_domain
    (cwd : string) (ty : Storage.StorageType) (rest : string) (world : option string) :
  (∀ tag, ty ≠ Storage.Unknown tag) →
  (ty = Storage.World → truthy world = true) →
  Storage.resolvePath cwd Path.Posix ty (String Path.slash rest) world
  = Ok (Path.resolve Path.Posix cwd [String Path.slash rest]).
Proof.
  intros Hknown Hworld. unfold Storage.resolvePath.
  destruct ty as [| | |tag]; [| |  |by destruct (Hknown tag)].
  - f_equal. apply (resolve_posix_absolute_last cwd [_]).
  - rewrite Hworld by reflexivity. simpl negb. cbv iota.
    f_equal. apply (resolve_posix_absolute_last cwd [_]).
  - f_equal. apply (resolve_posix_absolute_last cwd [_]).
Qed.

(** X19.  The same for the configuration store: on a POSIX host, an
    absolute file name given to the [Properties] constructor is the
    path of the file, whatever the plugin's path and identifier. *)
Theorem this_path_absolute_path_ignores_plugin
    (cwd plugin_path identifier rest : string) :
  Properties.this_path Path.Posix cwd plugin_path identifier (String Path.slash rest)
  = Path.resolve Path.Posix cwd [String Path.slash rest].
Proof.
  unfold Properties.this_path.
  apply (resolve_posix_absolute_last cwd [_; _; _]).
Qed.

(** * Further worked instances *)

(** A template cut short, on an empty disk. *)
Lemma constructor_throws_on_unparsable_template_witness :
  ∃ s', Properties.constructor Yaml.read_doc RegExp.replaceAll false
          Example.config_path "port: [oops" Example.config_relative 2
          (Properties.fresh ∅) = Some (s', Throw YAMLParseError)
        ∧ Properties.files s' !! Example.config_path = Some "port: [oops".
Proof.
  destruct (constructor_throws_on_unparsable_template Yaml.read_doc RegExp.replaceAll false
              Example.config_path "port: [oops" Example.config_relative ∅ 2)
    as (s' & Hrun & Hfile).
  - vm_compute. reflexivity.
  - exists s'. split; [exact Hrun|]. rewrite Hfile. reflexivity.
Defined.

(** A file that holds a comment and nothing else. *)
Lemma constructor_regenerates_null_document_witness :
  ∃ s', Properties.constructor Yaml.read_doc RegExp.replaceAll false
          Example.config_path Example.template Example.config_relative 2
          (Properties.fresh {[ Example.config_path := "# nothing here" ]}) = Some (s', Ok tt)
        ∧ Properties.values s' = VObj [("debug", VBool false); ("port", VNum 8080)]
        ∧ Properties.files s' !! Example.config_path = Some Example.template.
Proof.
  destruct (constructor_regenerates_null_document Yaml.read_doc RegExp.replaceAll false
              Example.config_path Example.template Example.config_relative
              {[ Example.config_path := "# nothing here" ]} "# nothing here"
              (VObj [("debug", VBool false); ("port", VNum 8080)]) 2)
    as (s' & Hrun & Hvals & _ & Hfiles & _).
  - vm_compute. reflexivity.
  - vm_compute. reflexivity.
  - vm_compute. reflexivity.
  - exists s'. split; [exact Hrun|]. split; [exact Hvals|].
    rewrite Hfiles. apply lookup_insert_eq.
Defined.

(** A file with both keys of the example template and one more. *)
Lemma constructor_leaves_complete_file_untouched_witness :
  let live := "port: 9090" +:+ lf +:+ "debug: true" +:+ lf +:+ "motd: hello" in
  let fs : gmap string string := {[ Example.config_path := live ]} in
  ∃ s', Properties.constructor Yaml.read_doc RegExp.replaceAll false
          Example.config_path Example.template Example.config_relative 2
          (Properties.fresh fs) = Some (s', Ok tt)
        ∧ Properties.values s'
          = VObj [("port", VNum 9090); ("debug", VBool true); ("motd", VStr "hello")]
        ∧ Properties.files s' = fs
        ∧ Properties.trace s' = [FsRead Example.config_path].
Proof.
  intros live fs.
  destruct (constructor_leaves_complete_file_untouched Yaml.read_doc RegExp.replaceAll false
              Example.config_path Example.template Example.config_relative fs live
              (VObj [("port", VNum 9090); ("debug", VBool true); ("motd", VStr "hello")])
              (VObj [("debug", VBool false); ("port", VNum 8080)])
              ["port"; "debug"; "motd"] 2)
    as (s' & Hrun & Hvals & _ & Hfiles & Htrace).
  - vm_compute. reflexivity.
  - vm_compute. reflexivity.
  - reflexivity.
  - vm_compute. reflexivity.
  - intros kv Hin. apply list_elem_of_In in Hin. apply list_elem_of_In.
    simpl in Hin. destruct Hin as [<-|[<-|[]]]; simpl; auto.
  - exists s'. auto.
Defined.

(** Setting the string ["true"] on the store of the example template:
    the call returns, and the store is in step with the file. *)
Lemma ok_run_leaves_store_in_sync_witness :
  let s := {| Properties.files := {[ Example.config_path := Example.template ]};
              Properties.trace := [];
              Properties.raw := Example.template;
              Properties.values := VObj [("debug", VBool false); ("port", VNum 8080)] |} in
  let run :=
    Properties.setValue_f Yaml.read_doc RegExp.replaceAll false
      Example.config_path Example.template Example.config_relative 2
      "debug" (VStr "true") s in
  let s' := run_state run s in
  run = Some (s', Ok tt) ∧ Inv.in_sync Yaml.read_doc Example.config_path s'.
Proof.
  intros s run s'.
  assert (Hrun : run = Some (s', Ok tt)) by (vm_compute; reflexivity).
  split; [exact Hrun|].
  apply (ok_run_leaves_store_in_sync Yaml.read_doc RegExp.replaceAll false
           Example.config_path Example.template Example.config_relative
           0 2 "debug" (VStr "true") None s s').
  right. left. exact Hrun.
Defined.

(** Setting a value whose text holds a colon and a space. *)
Lemma setValue_unparsable_text_is_written_then_reset_witness :
  let s := {| Properties.files := {[ Example.config_path := "name: steve" ]};
              Properties.trace := [];
              Properties.raw := "name: steve";
              Properties.values := VObj [("name", VStr "steve")] |} in
  ∃ s', Properties.setValue_f Yaml.read_doc RegExp.replaceAll false
          Example.config_path "name: steve" Example.config_relative 1
          "name" (VStr "a: b") s = Some (s', Throw YAMLParseError)
        ∧ Properties.files s' !! Example.config_path = Some "name: a: b"
        ∧ ∃ s'', Properties.constructor Yaml.read_doc RegExp.replaceAll false
                   Example.config_path "name: steve" Example.config_relative 2
                   (Properties.fresh (Properties.files s')) = Some (s'', Ok tt)
                 ∧ Properties.values s'' = VObj [("name", VStr "steve")].
Proof.
  intros s.
  destruct (setValue_unparsable_text_is_written_then_reset
              Yaml.read_doc RegExp.replaceAll false
              Example.config_path "name: steve" Example.config_relative 0 2 s
              [("name", VStr "steve")] "name" (VStr "a: b")
              (VObj [("name", VStr "steve")]) "name: a: b")
    as (s' & Hrun & Hfiles & _ & s'' & Hopen & Hvals & _).
  - reflexivity.
  - apply list_elem_of_In. simpl. auto.
  - vm_compute. reflexivity.
  - vm_compute. reflexivity.
  - vm_compute. reflexivity.
  - exists s'. split; [exact Hrun|]. split; [rewrite Hfiles; apply lookup_insert_eq|].
    exists s''. auto.
Defined.

(** A template of comments only, on an empty disk. *)
Lemma null_template_store_throws_on_access_witness :
  ∃ s', Properties.constructor Yaml.read_doc RegExp.replaceAll false
          Example.config_path "# no settings yet" Example.config_relative 2
          (Properties.fresh ∅) = Some (s', Ok tt)
        ∧ Properties.getValue "debug" s' = Some (s', Throw TypeError)
        ∧ Properties.setValue_f Yaml.read_doc RegExp.replaceAll false
            Example.config_path "# no settings yet" Example.config_relative 2
            "debug" (VBool true) s' = Some (s', Throw TypeError).
Proof.
  destruct (null_template_store_throws_on_access Yaml.read_doc RegExp.replaceAll false
              Example.config_path "# no settings yet" Example.config_relative
              ∅ 2 1 "debug" (VBool true) None)
    as (s' & Hrun & _ & Hget & Hset & _).
  - vm_compute. reflexivity.
  - intros c w Hc. rewrite lookup_empty in Hc. discriminate Hc.
  - exists s'. auto.
Defined.

(** The first start on the example template, without the debug
    flag. *)
Lemma properties_silent_without_debug_witness :
  let run :=
    Properties.constructor Yaml.read_doc RegExp.replaceAll false
      Example.config_path Example.template Example.config_relative 2
      (Properties.fresh ∅) in
  let s' := run_state run (Properties.fresh ∅) in
  run = Some (s', Ok tt) ∧ Inv.quiet (Properties.trace s') = true.
Proof.
  intros run s'.
  assert (Hrun : run = Some (s', Ok tt)) by (vm_compute; reflexivity).
  split; [exact Hrun|].
  apply (properties_silent_without_debug Yaml.read_doc RegExp.replaceAll
           Example.config_path Example.template Example.config_relative
           2 0 "" VNull None (Properties.fresh ∅) s' (Ok tt)).
  - reflexivity.
  - left. exact Hrun.
Defined.

(** A new key on the store of the example template. *)
Lemma setValue_absent_key_appends_entry_witness :
  let s := {| Properties.files := {[ Example.config_path := Example.template ]};
              Properties.trace := [];
              Properties.raw := Example.template;
              Properties.values := VObj [("debug", VBool false); ("port", VNum 8080)] |} in
  ∃ s', Properties.setValue_f Yaml.read_doc RegExp.replaceAll false
          Example.config_path Example.template Example.config_relative 2
          "timeout" (VNum 30) s = Some (s', Ok tt)
    ∧ Properties.raw s' = Example.template +:+ lf +:+ "timeout: 30" +:+ lf
    ∧ Properties.getValue "timeout" s' = Some (s', Ok (VNum 30))
    ∧ ∃ s'', Properties.constructor Yaml.read_doc RegExp.replaceAll false
               Example.config_path Example.template Example.config_relative 2
               (Properties.fresh (Properties.files s')) = Some (s'', Ok tt)
             ∧ Properties.getValue "timeout" s'' = Some (s'', Ok (VNum 30)).
Proof.
  intros s.
  destruct (setValue_absent_key_appends_entry Yaml.read_doc RegExp.replaceAll false
              Example.config_path Example.template Example.config_relative
              read_doc_reads_itself 0 1 s
              [("debug", VBool false); ("port", VNum 8080)]
              [("debug", VBool false); ("port", VNum 8080)] "timeout" (VNum 30))
    as (s' & Hrun & Hraw & _ & _ & Hget & Hopen).
  - reflexivity.
  - vm_compute. reflexivity.
  - intros Hin. apply list_elem_of_In in Hin. simpl in Hin.
    destruct Hin as [Hin|[Hin|[]]]; discriminate Hin.
  - split; vm_compute; reflexivity.
  - vm_compute. reflexivity.
  - exists s'. split; [exact Hrun|]. split; [exact Hraw|]. split; [exact Hget | exact Hopen].
Defined.

(** Changing the port on the store of the example template. *)
Lemma setValue_changes_one_key_witness :
  let s := {| Properties.files := {[ Example.config_path := Example.template ]};
              Properties.trace := [];
              Properties.raw := Example.template;
              Properties.values := VObj [("debug", VBool false); ("port", VNum 8080)] |} in
  ∃ s' o', Properties.setValue_f Yaml.read_doc RegExp.replaceAll false
             Example.config_path Example.template Example.config_relative 1
             "port" (VNum 9090) s = Some (s', Ok tt)
    ∧ Properties.values s' = VObj o'
    ∧ keys o' = ["debug"; "port"]
    ∧ obj_get "debug" o' = Some (VBool false).
Proof.
  intros s.
  destruct (setValue_changes_one_key Yaml.read_doc RegExp.replaceAll false
              Example.config_path Example.template Example.config_relative
              read_doc_reads_itself replaceAll_on_keys 0 s
              [("debug", VBool false); ("port", VNum 8080)] "port" (VNum 9090))
    as (s' & o' & Hrun & Hvals & _ & Hkeys & Hframe).
  - reflexivity.
  - vm_compute. reflexivity.
  - apply list_elem_of_In. simpl. auto.
  - vm_compute. reflexivity.
  - exists s', o'. split; [exact Hrun|]. split; [exact Hvals|]. split; [exact Hkeys|].
    rewrite Hframe by discriminate. reflexivity.
Defined.

(** A players file written by an earlier run, opened with the
    defaults [{ example: false, level: 1 }]. *)
Lemma json_open_existing_file_reads_only_witness :
  let content := Json.stringify_pretty [("example", VBool true)] in
  let fs : gmap string string := {[ Example.players_json := content ]} in
  ∃ s self,
    Storage.constructor JsonDoc.parse Json.stringify_literal Json.stringify_pretty
      false Example.cwd Path.Posix Example.relative Storage.cooperative
      Storage.Player "players.json" None
      [("example", VBool false); ("level", VNum 1)] (Storage.fresh fs ∅)
    = Some (s, Ok self)
    ∧ obj_get "example" (Storage.values s) = Some (VBool true)
    ∧ obj_get "level" (Storage.values s) = Some (VNum 1)
    ∧ Storage.files s = fs
    ∧ Storage.trace s = [FsRead Example.players_json].
Proof.
  intros content fs.
  destruct (json_open_existing_file_reads_only
              JsonDoc.parse Json.stringify_literal Json.stringify_pretty
              false Example.cwd Path.Posix Example.relative
              Storage.Player "players.json" None
              [("example", VBool false); ("level", VNum 1)] fs ∅
              Example.players_json content (VObj [("example", VBool true)]))
    as (s & self & Hrun & _ & Hvals & _ & Hfiles & _ & Htrace).
  - vm_compute. reflexivity.
  - vm_compute. reflexivity.
  - vm_compute. reflexivity.
  - vm_compute. reflexivity.
  - apply (bool_decide_unpack _). vm_compute. exact I.
  - exists s, self. split; [exact Hrun|].
    split; [rewrite Hvals; reflexivity|]. split; [rewrite Hvals; reflexivity|]. auto.
Defined.

(** The first start of the players file. *)
Lemma json_first_open_writes_defaults_witness :
  ∃ s self,
    Storage.constructor JsonDoc.parse Json.stringify_literal Json.stringify_pretty
      false Example.cwd Path.Posix Example.relative Storage.cooperative
      Storage.Player "players.json" None Example.defaults (Storage.fresh ∅ ∅)
    = Some (s, Ok self)
    ∧ Storage.values s = Example.defaults
    ∧ Storage.files s !! Example.players_json
      = Some ("{" +:+ lf +:+ "  " +:+ dq +:+ "example" +:+ dq +:+ ": false" +:+ lf +:+ "}").
Proof.
  destruct (json_first_open_writes_defaults
              JsonDoc.parse Json.stringify_literal Json.stringify_pretty
              false Example.cwd Path.Posix Example.relative
              Storage.Player "players.json" None Example.defaults ∅ ∅
              Example.players_json)
    as (s & self & Hrun & _ & Hvals & Hfiles & _).
  - vm_compute. reflexivity.
  - vm_compute. reflexivity.
  - reflexivity.
  - exists s, self. split; [exact Hrun|]. split; [exact Hvals|].
    rewrite Hfiles, lookup_insert_eq. vm_compute. reflexivity.
Defined.

(** Setting [example] on the players file, then opening it again. *)
Lemma json_setValue_reopen_round_trip_witness :
  let self := {| Storage.path := Example.players_json;
                 Storage.relative := "playerdata/players.json";
                 Storage.type := Storage.json |} in
  let s := {| Storage.files := ∅; Storage.dbs := ∅; Storage.trace := [];
              Storage.values := [("example", VBool false); ("level", VNum 1)] |} in
  ∃ s', Storage.setValue Json.stringify_literal Json.stringify_pretty
          Storage.cooperative self
          "example" (VBool true) s = Some (s', Ok tt)
    ∧ ∃ s'', Storage.initialize JsonDoc.parse Json.stringify_literal Json.stringify_pretty
               false Storage.cooperative self (Storage.set_values Example.defaults s') = Some (s'', Ok tt)
             ∧ Storage.getValue "example" s'' = Some (s'', Ok (VBool true)).
Proof.
  intros self s.
  destruct (json_setValue_reopen_round_trip
              JsonDoc.parse Json.stringify_literal Json.stringify_pretty false
              self "example" (VBool true) s Example.defaults)
    as (s' & Hrun & _ & s'' & Hopen & Hget & _).
  - reflexivity.
  - apply (bool_decide_unpack _). vm_compute. exact I.
  - vm_compute. reflexivity.
  - exists s'. split; [exact Hrun|]. exists s''. auto.
Defined.

(** The first start of the players table, with a default that has no
    JSON text. *)
Lemma sqlite_first_open_stores_every_default_witness :
  let defaults := [("example", VBool false); ("nick", VUndefined); ("level", VNum 1)] in
  ∃ s self d,
    Storage.constructor Json.parse_literal Json.stringify_literal Json.stringify_pretty
      false Example.cwd Path.Posix Example.relative Storage.cooperative
      Storage.Player "players.sqlite" None defaults (Storage.fresh ∅ ∅)
    = Some (s, Ok self)
    ∧ Storage.values s = defaults
    ∧ Storage.dbs s !! Example.players_sqlite = Some d
    ∧ Table.select_value "example" (Storage.rows d) = Some "false"
    ∧ Table.select_value "nick" (Storage.rows d) = None
    ∧ Table.select_value "level" (Storage.rows d) = Some "1".
Proof.
  intros defaults.
  destruct (sqlite_first_open_stores_every_default
              Json.parse_literal Json.stringify_literal Json.stringify_pretty
              false Example.cwd Path.Posix Example.relative
              Storage.Player "players.sqlite" None defaults ∅ ∅ Example.players_sqlite)
    as (s & self & d & Hrun & _ & Hvals & _ & Hdb & _ & Hrows & _).
  - vm_compute. reflexivity.
  - vm_compute. reflexivity.
  - left. reflexivity.
  - apply (bool_decide_unpack _). vm_compute. exact I.
  - exists s, self, d. split; [exact Hrun|]. split; [exact Hvals|]. split; [exact Hdb|].
    rewrite !Hrows. repeat split.
Defined.

(** A table with a row cut short, opened without the debug flag. *)
Lemma sqlite_load_failure_keeps_defaults_and_warns_witness :
  let d := {| Storage.rows := [("level", "3"); ("example", "{oops")];
              Storage.writable := true |} in
  let ds : gmap string Storage.database := {[ Example.players_sqlite := d ]} in
  ∃ s self,
    Storage.constructor Json.parse_literal Json.stringify_literal Json.stringify_pretty
      false Example.cwd Path.Posix Example.relative Storage.cooperative
      Storage.Player "players.sqlite" None Example.defaults (Storage.fresh ∅ ds)
    = Some (s, Ok self)
    ∧ Storage.values s = Example.defaults
    ∧ Storage.dbs s = ds
    ∧ existsb (is_log LWarn) (Storage.trace s) = true.
Proof.
  intros d ds.
  destruct (sqlite_load_failure_keeps_defaults_and_warns
              Json.parse_literal Json.stringify_literal Json.stringify_pretty
              false Example.cwd Path.Posix Example.relative
              Storage.Player "players.sqlite" None Example.defaults ∅ ds
              Example.players_sqlite d SyntaxError)
    as (s & self & Hrun & _ & Hvals & _ & Hdbs & Htrace).
  - vm_compute. reflexivity.
  - vm_compute. reflexivity.
  - vm_compute. reflexivity.
  - vm_compute. reflexivity.
  - exists s, self. split; [exact Hrun|]. split; [exact Hvals|]. split; [exact Hdbs|].
    rewrite Htrace. reflexivity.
Defined.

(** Setting [example] on the players table, then opening it again. *)
Lemma sqlite_setValue_reopen_round_trip_witness :
  let self := {| Storage.path := Example.players_sqlite;
                 Storage.relative := "playerdata/players.sqlite";
                 Storage.type := Storage.sqlite |} in
  let d := {| Storage.rows := [("example", "false"); ("level", "1")];
              Storage.writable := true |} in
  let s := {| Storage.files := ∅;
              Storage.dbs := {[ Example.players_sqlite := d ]};
              Storage.trace := [];
              Storage.values := [("example", VBool false); ("level", VNum 1)] |} in
  ∃ s', Storage.setValue Json.stringify_literal Json.stringify_pretty
          Storage.cooperative self
          "example" (VBool true) s = Some (s', Ok tt)
    ∧ Storage.dbs s' !! Example.players_sqlite
      = Some {| Storage.rows := [("example", "true"); ("level", "1")];
                Storage.writable := true |}
    ∧ ∃ s'', Storage.initialize Json.parse_literal Json.stringify_literal
               Json.stringify_pretty false Storage.cooperative self
               (Storage.set_values Example.defaults s') = Some (s'', Ok tt)
             ∧ Storage.getValue "example" s'' = Some (s'', Ok (VBool true)).
Proof.
  intros self d s.
  destruct (sqlite_setValue_reopen_round_trip
              Json.parse_literal Json.stringify_literal Json.stringify_pretty false
              self "example" (VBool true) s d "true"
              [("example", VBool false); ("level", VNum 1)] Example.defaults)
    as (s' & Hrun & Hdb & s'' & Hopen & Hget & _).
  - reflexivity.
  - vm_compute. reflexivity.
  - reflexivity.
  - apply (bool_decide_unpack _). vm_compute. exact I.
  - vm_compute. reflexivity.
  - reflexivity.
  - vm_compute. reflexivity.
  - exists s'. split; [exact Hrun|]. split; [exact Hdb|]. exists s''. auto.
Defined.

(** A second key on the players table. *)
Lemma sqlite_setValue_upserts_one_row_witness :
  let self := {| Storage.path := Example.players_sqlite;
                 Storage.relative := "playerdata/players.sqlite";
                 Storage.type := Storage.sqlite |} in
  let d := {| Storage.rows := [("example", "false")]; Storage.writable := true |} in
  let s := {| Storage.files := ∅;
              Storage.dbs := {[ Example.players_sqlite := d ]};
              Storage.trace := [];
              Storage.values := Example.defaults |} in
  ∃ s' d', Storage.setValue Json.stringify_literal Json.stringify_pretty
          Storage.cooperative self
             "level" (VNum 2) s = Some (s', Ok tt)
    ∧ Storage.dbs s' !! Example.players_sqlite = Some d'
    ∧ Table.select_value "level" (Storage.rows d') = Some "2"
    ∧ Table.select_value "example" (Storage.rows d') = Some "false"
    ∧ Storage.files s' = ∅.
Proof.
  intros self d s.
  destruct (sqlite_setValue_upserts_one_row
              Json.stringify_literal Json.stringify_pretty
              self "level" (VNum 2) s d "2")
    as (s' & d' & Hrun & Hdb & Hkey & Hframe & _ & _ & Hfiles & _).
  - reflexivity.
  - vm_compute. reflexivity.
  - reflexivity.
  - vm_compute. reflexivity.
  - exists s', d'. split; [exact Hrun|]. split; [exact Hdb|]. split; [exact Hkey|].
    split; [|exact Hfiles]. rewrite Hframe by discriminate. reflexivity.
Defined.

(** A players file named by an absolute path. *)
Lemma resolvePath_absolute_path_ignores_domain_witness :
  Storage.resolvePath Example.cwd Path.Posix Storage.Player "/tmp/players.json" None
  = Ok "/tmp/players.json".
Proof.
  etransitivity.
  - apply (resolvePath_absolute_path_ignores_domain Example.cwd Storage.Player
             "tmp/players.json" None); discriminate.
  - vm_compute. reflexivity.
Defined.

(** A table with one row, opened with two defaults. *)
Lemma sqlite_open_existing_table_reads_only_witness :
  let d := {| Storage.rows := [("example", "true")]; Storage.writable := true |} in
  let ds : gmap string Storage.database := {[ Example.players_sqlite := d ]} in
  ∃ s self,
    Storage.constructor Json.parse_literal Json.stringify_literal Json.stringify_pretty
      false Example.cwd Path.Posix Example.relative Storage.cooperative
      Storage.Player "players.sqlite" None
      [("example", VBool false); ("level", VNum 1)] (Storage.fresh ∅ ds)
    = Some (s, Ok self)
    ∧ obj_get "example" (Storage.values s) = Some (VBool true)
    ∧ obj_get "level" (Storage.values s) = Some (VNum 1)
    ∧ Storage.dbs s = ds
    ∧ Storage.trace s = [].
Proof.
  intros d ds.
  destruct (sqlite_open_existing_table_reads_only
              Json.parse_literal Json.stringify_literal Json.stringify_pretty
              false Example.cwd Path.Posix Example.relative
              Storage.Player "players.sqlite" None
              [("example", VBool false); ("level", VNum 1)] ∅ ds
              Example.players_sqlite d)
    as (s & self & Hrun & _ & Hvals & _ & _ & Hdbs & Htrace).
  - vm_compute. reflexivity.
  - vm_compute. reflexivity.
  - vm_compute. reflexivity.
  - discriminate.
  - apply (bool_decide_unpack _). vm_compute. exact I.
  - repeat constructor; vm_compute; eauto.
  - exists s, self. split; [exact Hrun|].
    split; [rewrite Hvals; reflexivity|]. split; [rewrite Hvals; reflexivity|]. auto.
Defined.

(** A table that already holds [example = true], opened with the
    defaults [{ example: false }], then written to. *)
Lemma values_cover_defaults_and_loaded_data_wins_witness :
  let d := {| Storage.rows := [("example", "true")]; Storage.writable := true |} in
  let ds : gmap string Storage.database := {[ Example.players_sqlite := d ]} in
  let self := {| Storage.path := Example.players_sqlite;
                 Storage.relative := "playerdata/players.sqlite";
                 Storage.type := Storage.sqlite |} in
  let opened :=
    Storage.constructor Json.parse_literal Json.stringify_literal Json.stringify_pretty
      false Example.cwd Path.Posix Example.relative Storage.cooperative
      Storage.Player "players.sqlite" None Example.defaults (Storage.fresh ∅ ds) in
  let s := run_state opened (Storage.fresh ∅ ds) in
  opened = Some (s, Ok self)
  ∧ (∀ k, k ∈ keys Example.defaults → k ∈ keys (Storage.values s))
  ∧ (∃ s' r, Storage.perform_all Json.stringify_literal Json.stringify_pretty
               Storage.cooperative self
               [Storage.CallSet "count" (VNum 1); Storage.CallGet "example"] s
             = Some (s', r)
             ∧ ∀ k, k ∈ keys Example.defaults → k ∈ keys (Storage.values s'))
  ∧ obj_get "example" (Storage.values s) = Some (VBool true).
Proof.
  intros d ds self opened s.
  assert (Hrun : opened = Some (s, Ok self)) by (vm_compute; reflexivity).
  split; [exact Hrun|].
  destruct (values_cover_defaults_and_loaded_data_wins
              Json.parse_literal Json.stringify_literal Json.stringify_pretty
              false Example.cwd Path.Posix Example.relative Storage.cooperative
              Storage.Player "players.sqlite" None Example.defaults ∅ ds s self
              [Storage.CallSet "count" (VNum 1); Storage.CallGet "example"] Hrun)
    as (Hfloor & Hcalls & _ & Hrows).
  split; [exact Hfloor|]. split; [exact Hcalls|].
  destruct (Hrows d) as [Hwins _].
  - reflexivity.
  - vm_compute. reflexivity.
  - apply (Hwins (NoDup_singleton _)) with (t := "true").
    + repeat constructor. vm_compute. eauto.
    + left.
    + vm_compute. reflexivity.
Defined.

(** C4 as stated fails: a row that deserializes is not loaded when
    another row of the table does not.  The table holds [level = 3] and
    a row cut short; the defaults are [{ level: 1, example: false }].
    With [s] the state the constructor ends in: the constructor returns,
    the row of [level] is in the table and its text deserializes to 3,
    yet [values] holds the default 1 for [level]. *)
Lemma sound_row_is_dropped_with_a_bad_one :
  let d := {| Storage.rows := [("level", "3"); ("example", "{oops")];
              Storage.writable := true |} in
  let ds : gmap string Storage.database := {[ Example.players_sqlite := d ]} in
  let defaults := [("level", VNum 1); ("example", VBool false)] in
  let self := {| Storage.path := Example.players_sqlite;
                 Storage.relative := "playerdata/players.sqlite";
                 Storage.type := Storage.sqlite |} in
  let opened :=
    Storage.constructor Json.parse_literal Json.stringify_literal Json.stringify_pretty
      false Example.cwd Path.Posix Example.relative Storage.cooperative
      Storage.Player "players.sqlite" None defaults (Storage.fresh ∅ ds) in
  let s := run_state opened (Storage.fresh ∅ ds) in
  opened = Some (s, Ok self)
  ∧ Table.select_value "level" (Storage.rows d) = Some "3"
  ∧ Json.parse_literal "3" = Some (VNum 3)
  ∧ obj_get "level" defaults = Some (VNum 1)
  ∧ obj_get "level" (Storage.values s) = Some (VNum 1)
  ∧ VNum 1 ≠ VNum 3.
Proof.
  vm_compute. repeat split; try reflexivity. discriminate.
Qed.


